(** * SimulatedToolsPanel: pose synchronisation and transform pipeline

    A shallow embedding of [Navigator/GUI/ViewPanels/SimulatedToolsPanel.py]
    (NaviNIBS_Simulated_Tools).  The panel keeps a table of render actors,
    a set of actors that are being dragged, and talks to a positions client
    that caches the latest pose of every tracker key.

    Floating-point matrices are idealised as 4x4 matrices of rationals, so
    that "equal within numeric tolerance" becomes equality of rationals
    ([Qeq]); rounding is not modelled. *)

From Stdlib Require Import QArith.
From stdpp Require Import gmap strings list fin_maps.

Open Scope string_scope.

(** ** Transform algebra (NaviNIBS.util.Transforms) *)

Module Transforms.

Record Vec4 := mkVec4 { vx : Q; vy : Q; vz : Q; vw : Q }.

(** A 4x4 array, stored by rows. *)
Record Matrix4 := mkMatrix4 { row0 : Vec4; row1 : Vec4; row2 : Vec4; row3 : Vec4 }.

Definition veq (u v : Vec4) : Prop :=
  (vx u == vx v /\ vy u == vy v /\ vz u == vz v /\ vw u == vw v)%Q.

(** Entry-wise equality of rationals: the exact counterpart of
    [numpy.allclose]. *)
Definition meq (A B : Matrix4) : Prop :=
  veq (row0 A) (row0 B) /\ veq (row1 A) (row1 B) /\
  veq (row2 A) (row2 B) /\ veq (row3 A) (row3 B).

Definition veqb (u v : Vec4) : bool :=
  Qeq_bool (vx u) (vx v) && Qeq_bool (vy u) (vy v) &&
  Qeq_bool (vz u) (vz v) && Qeq_bool (vw u) (vw v).

Definition meqb (A B : Matrix4) : bool :=
  veqb (row0 A) (row0 B) && veqb (row1 A) (row1 B) &&
  veqb (row2 A) (row2 B) && veqb (row3 A) (row3 B).

(** [np.eye(4)] *)
Definition eye4 : Matrix4 :=
  mkMatrix4 (mkVec4 1 0 0 0) (mkVec4 0 1 0 0) (mkVec4 0 0 1 0) (mkVec4 0 0 0 1).

Definition col0 (B : Matrix4) : Vec4 :=
  mkVec4 (vx (row0 B)) (vx (row1 B)) (vx (row2 B)) (vx (row3 B)).
Definition col1 (B : Matrix4) : Vec4 :=
  mkVec4 (vy (row0 B)) (vy (row1 B)) (vy (row2 B)) (vy (row3 B)).
Definition col2 (B : Matrix4) : Vec4 :=
  mkVec4 (vz (row0 B)) (vz (row1 B)) (vz (row2 B)) (vz (row3 B)).
Definition col3 (B : Matrix4) : Vec4 :=
  mkVec4 (vw (row0 B)) (vw (row1 B)) (vw (row2 B)) (vw (row3 B)).

Definition dot (u v : Vec4) : Q :=
  (vx u * vx v + vy u * vy v + vz u * vz v + vw u * vw v)%Q.

Definition vmul (u : Vec4) (B : Matrix4) : Vec4 :=
  mkVec4 (dot u (col0 B)) (dot u (col1 B)) (dot u (col2 B)) (dot u (col3 B)).

(** The matrix product [A @ B]. *)
Definition matmul (A B : Matrix4) : Matrix4 :=
  mkMatrix4 (vmul (row0 A) B) (vmul (row1 A) B) (vmul (row2 A) B) (vmul (row3 A) B).

Definition vscale (c : Q) (u : Vec4) : Vec4 :=
  mkVec4 (c * vx u) (c * vy u) (c * vz u) (c * vw u)%Q.

Definition mscale (c : Q) (A : Matrix4) : Matrix4 :=
  mkMatrix4 (vscale c (row0 A)) (vscale c (row1 A))
            (vscale c (row2 A)) (vscale c (row3 A)).

(** The twelve 2x2 minors of the upper and of the lower pair of rows, from
    which both the determinant and the cofactors are assembled. *)
Definition up01 (M : Matrix4) : Q := (vx (row0 M) * vy (row1 M) - vx (row1 M) * vy (row0 M))%Q.
Definition up02 (M : Matrix4) : Q := (vx (row0 M) * vz (row1 M) - vx (row1 M) * vz (row0 M))%Q.
Definition up03 (M : Matrix4) : Q := (vx (row0 M) * vw (row1 M) - vx (row1 M) * vw (row0 M))%Q.
Definition up12 (M : Matrix4) : Q := (vy (row0 M) * vz (row1 M) - vy (row1 M) * vz (row0 M))%Q.
Definition up13 (M : Matrix4) : Q := (vy (row0 M) * vw (row1 M) - vy (row1 M) * vw (row0 M))%Q.
Definition up23 (M : Matrix4) : Q := (vz (row0 M) * vw (row1 M) - vz (row1 M) * vw (row0 M))%Q.

Definition lo01 (M : Matrix4) : Q := (vx (row2 M) * vy (row3 M) - vx (row3 M) * vy (row2 M))%Q.
Definition lo02 (M : Matrix4) : Q := (vx (row2 M) * vz (row3 M) - vx (row3 M) * vz (row2 M))%Q.
Definition lo03 (M : Matrix4) : Q := (vx (row2 M) * vw (row3 M) - vx (row3 M) * vw (row2 M))%Q.
Definition lo12 (M : Matrix4) : Q := (vy (row2 M) * vz (row3 M) - vy (row3 M) * vz (row2 M))%Q.
Definition lo13 (M : Matrix4) : Q := (vy (row2 M) * vw (row3 M) - vy (row3 M) * vw (row2 M))%Q.
Definition lo23 (M : Matrix4) : Q := (vz (row2 M) * vw (row3 M) - vz (row3 M) * vw (row2 M))%Q.

Definition det (M : Matrix4) : Q :=
  (up01 M * lo23 M - up02 M * lo13 M + up03 M * lo12 M
   + up12 M * lo03 M - up13 M * lo02 M + up23 M * lo01 M)%Q.

(** The adjugate (transposed cofactor matrix). *)
Definition adjugate (M : Matrix4) : Matrix4 :=
  mkMatrix4
    (mkVec4 (vy (row1 M) * lo23 M - vz (row1 M) * lo13 M + vw (row1 M) * lo12 M)
            (- vy (row0 M) * lo23 M + vz (row0 M) * lo13 M - vw (row0 M) * lo12 M)
            (vy (row3 M) * up23 M - vz (row3 M) * up13 M + vw (row3 M) * up12 M)
            (- vy (row2 M) * up23 M + vz (row2 M) * up13 M - vw (row2 M) * up12 M))%Q
    (mkVec4 (- vx (row1 M) * lo23 M + vz (row1 M) * lo03 M - vw (row1 M) * lo02 M)
            (vx (row0 M) * lo23 M - vz (row0 M) * lo03 M + vw (row0 M) * lo02 M)
            (- vx (row3 M) * up23 M + vz (row3 M) * up03 M - vw (row3 M) * up02 M)
            (vx (row2 M) * up23 M - vz (row2 M) * up03 M + vw (row2 M) * up02 M))%Q
    (mkVec4 (vx (row1 M) * lo13 M - vy (row1 M) * lo03 M + vw (row1 M) * lo01 M)
            (- vx (row0 M) * lo13 M + vy (row0 M) * lo03 M - vw (row0 M) * lo01 M)
            (vx (row3 M) * up13 M - vy (row3 M) * up03 M + vw (row3 M) * up01 M)
            (- vx (row2 M) * up13 M + vy (row2 M) * up03 M - vw (row2 M) * up01 M))%Q
    (mkVec4 (- vx (row1 M) * lo12 M + vy (row1 M) * lo02 M - vz (row1 M) * lo01 M)
            (vx (row0 M) * lo12 M - vy (row0 M) * lo02 M + vz (row0 M) * lo01 M)
            (- vx (row3 M) * up12 M + vy (row3 M) * up02 M - vz (row3 M) * up01 M)
            (vx (row2 M) * up12 M - vy (row2 M) * up02 M + vz (row2 M) * up01 M))%Q.

(** Modelled from the spec: [invertTransform] lives in NaviNIBS.util.Transforms,
    which is not part of this source tree.  Spec 4.1: "invert(Matrix4) ->
    Matrix4 (fails with SingularMatrixError if not invertible; general 4x4
    inverse, not assumed-rigid ...) use a standard LU or cofactor inverse".
    [None] stands for the raised SingularMatrixError. *)
Definition invertTransform (M : Matrix4) : option Matrix4 :=
  if Qeq_bool (det M) 0 then None
  else Some (mscale (/ det M) (adjugate M)).

Fixpoint chain (acc : Matrix4) (ts : list Matrix4) : Matrix4 :=
  match ts with
  | [] => acc
  | t :: ts' => chain (matmul acc t) ts'
  end.

(** Modelled from the spec: [concatenateTransforms] lives in
    NaviNIBS.util.Transforms, which is not part of this source tree.
    Spec 4.1: "compose(list<Matrix4>) -> Matrix4 (left-to-right chain
    multiply, order-significant ...)". *)
Definition concatenateTransforms (ts : list Matrix4) : Matrix4 :=
  match ts with
  | [] => eye4
  | t :: ts' => chain t ts'
  end.

End Transforms.

(** ** Timestamped poses (NaviNIBS.Devices) *)

Module Devices.
Import Transforms.

(** Modelled from the spec: [TimestampedToolPosition] is declared in
    NaviNIBS.Devices, outside this source tree.  Spec 3: "TimestampedPose:
    { time: timestamp, transform: 4x4 matrix | absent, relativeTo:
    entity-key | absent }". *)
Record TimestampedToolPosition := mkTimestampedToolPosition {
  time : Q;
  transf : option Matrix4;
  relativeTo : option string
}.

(** Modelled from the spec: the dictionary form of a pose.  Spec 6:
    "entityKey -> {time: number, transform: 16-number row-major array |
    null, relativeTo: string | null}". *)
Record PositionDict := mkPositionDict {
  dictTime : Q;
  dictTransf : option (list Q);
  dictRelativeTo : option string
}.

Definition vecToList (v : Vec4) : list Q := [vx v; vy v; vz v; vw v].

Definition toRowMajor (A : Matrix4) : list Q :=
  vecToList (row0 A) ++ vecToList (row1 A) ++ vecToList (row2 A) ++ vecToList (row3 A).

Definition ofRowMajor (l : list Q) : option Matrix4 :=
  match l with
  | [a0; a1; a2; a3; b0; b1; b2; b3; c0; c1; c2; c3; d0; d1; d2; d3] =>
      Some (mkMatrix4 (mkVec4 a0 a1 a2 a3) (mkVec4 b0 b1 b2 b3)
                      (mkVec4 c0 c1 c2 c3) (mkVec4 d0 d1 d2 d3))
  | _ => None
  end.

(** Modelled from the spec: [TimestampedToolPosition.asDict] (NaviNIBS.Devices). *)
Definition asDict (p : TimestampedToolPosition) : PositionDict :=
  {| dictTime := time p;
     dictTransf := toRowMajor <$> transf p;
     dictRelativeTo := relativeTo p |}.

(** Modelled from the spec: [TimestampedToolPosition.fromDict]
    (NaviNIBS.Devices).  [None] stands for the error raised on an entry
    whose transform is not a 16-number array. *)
Definition fromDict (d : PositionDict) : option TimestampedToolPosition :=
  match dictTransf d with
  | None => Some (mkTimestampedToolPosition (dictTime d) None (dictRelativeTo d))
  | Some l =>
      match ofRowMajor l with
      | Some A => Some (mkTimestampedToolPosition (dictTime d) (Some A) (dictRelativeTo d))
      | None => None
      end
  end.

(** How a command reached the server: over the blocking call or the
    awaited one. *)
Inductive CommandMode := Sync | Async.

Record Command := mkCommand {
  cmdMode : CommandMode;
  cmdKey : string;
  cmdPosition : TimestampedToolPosition
}.

(** Modelled from the spec: [SimulatedToolPositionsClient]
    (NaviNIBS_Simulated_Tools.Devices) is not part of this source tree.
    Spec 4.2: the client "holds the latest known pose per tracked-entity
    key"; a record call "sends a command over the request/response channel
    and blocks until acknowledged; updates local cache on success".  The
    server is taken to acknowledge every command: the CommandError of a
    rejected or timed-out command (spec 4.2 and 7) is not modelled, and
    what is stated about poses sent and cached is stated for
    acknowledged commands.  The commands sent are kept, oldest first. *)
Record PositionsClient := mkPositionsClient {
  latestPositions : gmap string TimestampedToolPosition;
  sentCommands : list Command
}.

(** Modelled from the spec: what [recordNewPosition_sync] and
    [recordNewPosition_async] of the positions client do once the server
    has acknowledged (spec 4.2: "updates local cache on success"): the
    command is sent and the pose becomes the latest one of its key. *)
Definition recordNewPosition (mode : CommandMode) (k : string)
    (position : TimestampedToolPosition) (c : PositionsClient) : PositionsClient :=
  {| latestPositions := <[k := position]> (latestPositions c);
     sentCommands := sentCommands c ++ [mkCommand mode k position] |}.

End Devices.

(** ** Tools, session and persisted configuration *)

Module Model.
Import Transforms.

Definition Mesh := string.

(** Modelled from the spec: the attributes of a NaviNIBS [Tool] that the
    panel reads (spec 3, StaticOffsets, and spec 6, Entity Registry
    collaborator contract).  [isSubjectTracker] is
    [isinstance(tool, SubjectTracker)]. *)
Record Tool := mkTool {
  key : string;
  trackerKey : string;
  isActive : bool;
  isSubjectTracker : bool;
  doRenderTracker : bool;
  doRenderTool : bool;
  trackerStlFilepath : option string;
  toolStlFilepath : option string;
  toolToTrackerTransf : option Matrix4;
  toolStlToToolTransf : Matrix4;
  trackerStlToTrackerTransf : option Matrix4;
  trackerSurf : Mesh;
  toolSurf : Mesh;
  trackerColor : option string;
  toolColor : option string;
  trackerOpacity : option Q;
  toolOpacity : option Q
}.

(** What the panel reads from the session: [session.tools.items()] in
    iteration order, [session.subjectRegistration.trackerToMRITransf] and
    [session.headModel.skinSurf]. *)
Record Session := mkSession {
  tools : list (string * Tool);
  trackerToMRITransf : option Matrix4;
  skinSurf : option Mesh
}.

(** [session.tools[k]]: [None] stands for KeyError. *)
Fixpoint toolsLookup (l : list (string * Tool)) (k : string) : option Tool :=
  match l with
  | [] => None
  | (k', t) :: l' => if String.eqb k' k then Some t else toolsLookup l' k
  end.

(** Modelled from the spec: [SimulatedToolPose] of the persisted
    configuration (spec 6: "mapping entityKey -> last-known pose"). *)
Record SimulatedToolPose := mkSimulatedToolPose {
  poseKey : string;
  poseTransf : option Matrix4;
  poseRelativeTo : option string
}.

End Model.

(** ** The panel *)

Module SimulatedToolsPanel.
Import Transforms Devices Model.

(** A render actor as the plotter hands it back.  [actorId] is the
    identity of the Python object (what [is] compares); every actor is
    referenced from one entry of the actor table only, so the table can
    hold the actor's state. *)
Record Actor := mkActor {
  actorId : nat;
  actorName : string;
  actorMesh : Mesh;
  actorColor : string;
  actorOpacity : Q;
  visibility : bool;
  userTransform : option Matrix4
}.

Definition setVisibility (b : bool) (a : Actor) : Actor :=
  mkActor (actorId a) (actorName a) (actorMesh a) (actorColor a) (actorOpacity a)
          b (userTransform a).

(** [setActorUserTransform(actor, transf)] *)
Definition setActorUserTransform (T : Matrix4) (a : Actor) : Actor :=
  mkActor (actorId a) (actorName a) (actorMesh a) (actorColor a) (actorOpacity a)
          (visibility a) (Some T).

(** The plotter: the actors in its scene, the identity the next new actor
    gets, and how often [render()] was called. *)
Record Plotter := mkPlotter {
  nextActorId : nat;
  sceneActors : gset nat;
  renderCount : nat
}.

(** The panel's attributes, together with the two pieces of the outside
    world its methods touch: the number of wall-clock readings taken so
    far and the snapshot files on disk (a file is kept as the mapping that
    [json.load] returns for it). *)
Record Panel := mkPanel {
  _actors : gmap string Actor;
  _currentlyMovingActors : gset string;
  _positionsClient : PositionsClient;
  _hasRestoredPositions : bool;
  _hasInitialized : bool;
  isInitializing : bool;
  configPoses : gmap string SimulatedToolPose;
  _plotter : Plotter;
  clockReads : nat;
  files : gmap string (gmap string PositionDict)
}.

Definition withActors (f : gmap string Actor → gmap string Actor) (p : Panel) : Panel :=
  mkPanel (f (_actors p)) (_currentlyMovingActors p) (_positionsClient p)
          (_hasRestoredPositions p) (_hasInitialized p) (isInitializing p)
          (configPoses p) (_plotter p) (clockReads p) (files p).

Definition withMoving (f : gset string → gset string) (p : Panel) : Panel :=
  mkPanel (_actors p) (f (_currentlyMovingActors p)) (_positionsClient p)
          (_hasRestoredPositions p) (_hasInitialized p) (isInitializing p)
          (configPoses p) (_plotter p) (clockReads p) (files p).

Definition withClient (f : PositionsClient → PositionsClient) (p : Panel) : Panel :=
  mkPanel (_actors p) (_currentlyMovingActors p) (f (_positionsClient p))
          (_hasRestoredPositions p) (_hasInitialized p) (isInitializing p)
          (configPoses p) (_plotter p) (clockReads p) (files p).

Definition withRestored (b : bool) (p : Panel) : Panel :=
  mkPanel (_actors p) (_currentlyMovingActors p) (_positionsClient p)
          b (_hasInitialized p) (isInitializing p)
          (configPoses p) (_plotter p) (clockReads p) (files p).

Definition withConfigPoses
    (f : gmap string SimulatedToolPose → gmap string SimulatedToolPose) (p : Panel) : Panel :=
  mkPanel (_actors p) (_currentlyMovingActors p) (_positionsClient p)
          (_hasRestoredPositions p) (_hasInitialized p) (isInitializing p)
          (f (configPoses p)) (_plotter p) (clockReads p) (files p).

Definition withPlotter (f : Plotter → Plotter) (p : Panel) : Panel :=
  mkPanel (_actors p) (_currentlyMovingActors p) (_positionsClient p)
          (_hasRestoredPositions p) (_hasInitialized p) (isInitializing p)
          (configPoses p) (f (_plotter p)) (clockReads p) (files p).

Definition withClockReads (n : nat) (p : Panel) : Panel :=
  mkPanel (_actors p) (_currentlyMovingActors p) (_positionsClient p)
          (_hasRestoredPositions p) (_hasInitialized p) (isInitializing p)
          (configPoses p) (_plotter p) n (files p).

Definition withFiles
    (f : gmap string (gmap string PositionDict) → gmap string (gmap string PositionDict))
    (p : Panel) : Panel :=
  mkPanel (_actors p) (_currentlyMovingActors p) (_positionsClient p)
          (_hasRestoredPositions p) (_hasInitialized p) (isInitializing p)
          (configPoses p) (_plotter p) (clockReads p) (f (files p)).

(** *** Statements that change the panel or raise *)

Inductive exn :=
| KeyError
| IndexError
| TypeError
| NotImplementedError
| AssertionError
| SingularMatrixError
| CancelledError
| FileNotFoundError
| MalformedSnapshotError.

Inductive outcome (A : Type) :=
| Returned (a : A)
| Raised (e : exn).
Arguments Returned {A} a.
Arguments Raised {A} e.

(** A method body: it runs on a panel, leaves a panel behind (also when
    it raises: Python keeps every mutation made before the exception) and
    either returns a value or raises. *)
Definition M (A : Type) : Type := Panel → Panel * outcome A.

Definition ret {A} (a : A) : M A := λ p, (p, Returned a).

Definition raise {A} (e : exn) : M A := λ p, (p, Raised e).

Definition bind {A B} (m : M A) (f : A → M B) : M B :=
  λ p, match m p with
       | (p', Returned a) => f a p'
       | (p', Raised e) => (p', Raised e)
       end.

Definition gets {A} (f : Panel → A) : M A := λ p, (p, Returned (f p)).

Definition modify (f : Panel → Panel) : M unit := λ p, (f p, Returned tt).

Declare Scope panel_scope.
Delimit Scope panel_scope with panel.
Notation "x <- m ;; k" := (bind m (λ x, k))
  (at level 100, m at next level, right associativity) : panel_scope.
Notation "m ;; k" := (bind m (λ _, k))
  (at level 100, right associativity) : panel_scope.
Open Scope panel_scope.

(** [for x in l: body] *)
Fixpoint forEach {A} (l : list A) (body : A → M unit) : M unit :=
  match l with
  | [] => ret tt
  | x :: l' => body x ;; forEach l' body
  end.

(** What a method is run against: the session, and the wall clock given
    as the sequence of values that successive [time.time()] calls return. *)
Record Env := mkEnv {
  session : Session;
  wallclock : nat → Q
}.

(** [time.time()] *)
Definition timeNow (env : Env) : M Q :=
  λ p, (withClockReads (S (clockReads p)) p, Returned (wallclock env (clockReads p))).

(** *** The positions client seen from the panel *)

(** Modelled from the spec: [getLatestTransf(key)] of the positions
    client, which is not part of this source tree (spec 4.2: "getLatest
    (entityKey) -> Pose | absent").  Called with the key alone it raises
    KeyError for a key never seen, as the [except KeyError] of the startup
    restore expects. *)
Definition getLatestTransf (k : string) : M (option Matrix4) :=
  λ p, match latestPositions (_positionsClient p) !! k with
       | Some pos => (p, Returned (transf pos))
       | None => (p, Raised KeyError)
       end.

(** Modelled from the spec: [getLatestTransf(key, None)]. *)
Definition getLatestTransfOrNone (k : string) : M (option Matrix4) :=
  gets (λ p, latestPositions (_positionsClient p) !! k ≫= transf).

(** [self._positionsClient.recordNewPosition_sync(key=k, position=position)] *)
Definition recordNewPosition_sync (k : string) (position : TimestampedToolPosition) : M unit :=
  modify (withClient (recordNewPosition Sync k position)).

(** [await self._positionsClient.recordNewPosition_async(key=k, position=position)] *)
Definition recordNewPosition_async (k : string) (position : TimestampedToolPosition) : M unit :=
  modify (withClient (recordNewPosition Async k position)).

(** *** The plotter seen from the panel *)

Definition render : M unit :=
  modify (withPlotter (λ pl, mkPlotter (nextActorId pl) (sceneActors pl) (S (renderCount pl)))).

(** Modelled from the spec: [plotter.addMesh] / [plotter.add_mesh] (spec
    6: "addMesh(mesh, color, defaultColor, opacity, name) -> handle"; spec
    4.3: "default color applied when entity color is unset").  The new
    actor is in the scene and visible. *)
Definition addMesh (mesh : Mesh) (color : option string) (defaultMeshColor : string)
    (opacity : Q) (name : string) : M Actor :=
  λ p, let pl := _plotter p in
       let a := mkActor (nextActorId pl) name mesh (default defaultMeshColor color)
                        opacity true None in
       (withPlotter (λ _, mkPlotter (S (nextActorId pl))
                                    ({[ nextActorId pl ]} ∪ sceneActors pl)
                                    (renderCount pl)) p,
        Returned a).

(** [plotter.remove_actor(actor)] *)
Definition remove_actor (a : Actor) : M unit :=
  modify (withPlotter (λ pl, mkPlotter (nextActorId pl) (sceneActors pl ∖ {[ actorId a ]})
                                       (renderCount pl))).

Global Instance exn_eq_dec : EqDecision exn.
Proof. solve_decision. Defined.

(** [try: body  except e: handler] *)
Definition tryExcept {A} (body : M A) (e : exn) (handler : M A) : M A :=
  λ p, match body p with
       | (p', Raised e') => if decide (e' = e) then handler p' else (p', Raised e')
       | r => r
       end.

(** [self._actors[actorKey]] *)
Definition actorsGet (actorKey : string) : M Actor :=
  λ p, match _actors p !! actorKey with
       | Some a => (p, Returned a)
       | None => (p, Raised KeyError)
       end.

(** [self._actors[actorKey] = actor] *)
Definition actorsSet (actorKey : string) (a : Actor) : M unit :=
  modify (withActors (insert actorKey a)).

(** *** _onLatestPositionsChanged *)

(** Lines 168-187: the startup restore of the persisted poses. *)
Definition restorePositions (env : Env) : M unit :=
  poses <- gets configPoses ;;
  forEach (map_to_list poses) (λ '(trackerKey, pose),
    match poseTransf pose with
    | None => ret tt
    | Some T =>
        tryExcept (getLatestTransf trackerKey ;; ret tt) KeyError
          (t <- timeNow env ;;
           recordNewPosition_sync trackerKey
             (mkTimestampedToolPosition t (Some T) (poseRelativeTo pose)))
    end).

(** Lines 189-197: the live poses are written back to the configuration. *)
Definition mirrorPositions (env : Env) : M unit :=
  forEach (tools (session env)) (λ '(k, t),
    transf <- getLatestTransfOrNone (trackerKey t) ;;
    poses <- gets configPoses ;;
    match transf, poses !! trackerKey t with
    | None, None => ret tt
    | _, _ =>
        (match poses !! trackerKey t with
         | None => modify (withConfigPoses
                     (insert (trackerKey t) (mkSimulatedToolPose (trackerKey t) None None)))
         | Some _ => ret tt
         end) ;;
        modify (withConfigPoses
          (alter (λ pose, mkSimulatedToolPose (poseKey pose) transf (poseRelativeTo pose))
                 (trackerKey t)))
    end).

(** The two values of the loop variable [toolOrTracker]. *)
Inductive ToolOrTracker := tracker | tool.

Definition tag (a : ToolOrTracker) : string :=
  match a with tracker => "tracker" | tool => "tool" end.

(** [getattr(tool, 'doRender' + toolOrTracker.capitalize())] *)
Definition doRender (a : ToolOrTracker) (t : Tool) : bool :=
  match a with tracker => doRenderTracker t | tool => doRenderTool t end.

(** [getattr(tool, toolOrTracker + 'StlFilepath')] *)
Definition stlFilepath (a : ToolOrTracker) (t : Tool) : option string :=
  match a with tracker => trackerStlFilepath t | tool => toolStlFilepath t end.

(** Lines 232-240: [toolOrTrackerStlToTrackerTransf]. *)
Definition stlToTrackerTransf (a : ToolOrTracker) (t : Tool) : option Matrix4 :=
  match a with
  | tool =>
      match toolToTrackerTransf t with
      | None => None
      | Some toolToTracker => Some (matmul toolToTracker (toolStlToToolTransf t))
      end
  | tracker => trackerStlToTrackerTransf t
  end.

Definition surf (a : ToolOrTracker) (t : Tool) : Mesh :=
  match a with tracker => trackerSurf t | tool => toolSurf t end.

Definition meshColor (a : ToolOrTracker) (t : Tool) : option string :=
  match a with tracker => trackerColor t | tool => toolColor t end.

Definition meshOpacity (a : ToolOrTracker) (t : Tool) : option Q :=
  match a with tracker => trackerOpacity t | tool => toolOpacity t end.

(** Lines 227-266: one round of [for toolOrTracker in ('tracker', 'tool')];
    the result is the new value of [doShow]. *)
Definition showToolOrTracker (k : string) (t : Tool) (actorKey : string)
    (doShow : bool) (a : ToolOrTracker) : M bool :=
  if decide (actorKey = (k +:+ "_") +:+ tag a) then
    if negb (doRender a t) then ret false
    else
      match stlFilepath a t with
      | Some _ =>
          match stlToTrackerTransf a t with
          | Some stlToTracker =>
              acts <- gets _actors ;;
              (match acts !! actorKey with
               | Some _ => ret tt
               | None =>
                   actor <- addMesh (surf a t) (meshColor a t) "#444444"
                              (default 1%Q (meshOpacity a t)) actorKey ;;
                   actorsSet actorKey actor
               end) ;;
              actor <- actorsGet actorKey ;;
              latest <- getLatestTransf (trackerKey t) ;;
              match latest with
              | None => raise TypeError
              | Some pose =>
                  actorsSet actorKey
                    (setActorUserTransform (concatenateTransforms [stlToTracker; pose]) actor) ;;
                  render ;;
                  ret true
              end
          | None => ret doShow
          end
      | None => ret false
      end
  else ret doShow.

(** Lines 268-280: the skin surface bound to a subject tracker. *)
Definition showSubject (env : Env) (t : Tool) (actorKey : string) (doShow : bool) : M bool :=
  if isSubjectTracker t && bool_decide (actorKey = key t +:+ "_subject") then
    match trackerToMRITransf (session env), skinSurf (session env) with
    | Some trackerToMRI, Some skin =>
        acts <- gets _actors ;;
        (match acts !! actorKey with
         | Some _ => ret tt
         | None =>
             actor <- addMesh skin (Some "#d9a5b2") "#d9a5b2" (4 # 5)%Q actorKey ;;
             actorsSet actorKey actor
         end) ;;
        actor <- actorsGet actorKey ;;
        latest <- getLatestTransf (trackerKey t) ;;
        match invertTransform trackerToMRI with
        | None => raise SingularMatrixError
        | Some MRIToTracker =>
            match latest with
            | None => raise TypeError
            | Some pose =>
                actorsSet actorKey (setActorUserTransform (matmul pose MRIToTracker) actor) ;;
                render ;;
                ret true
            end
        end
    | _, _ => ret doShow
    end
  else ret doShow.

(** Lines 282-288: the actor's visibility is brought in line with [doShow]. *)
Definition reconcileVisibility (actorKey : string) (doShow : bool) : M unit :=
  acts <- gets _actors ;;
  match acts !! actorKey with
  | Some actor =>
      if doShow && negb (visibility actor) then
        actorsSet actorKey (setVisibility true actor) ;; render
      else if negb doShow && visibility actor then
        actorsSet actorKey (setVisibility false actor) ;; render
      else ret tt
  | None => ret tt
  end.

(** Lines 218-288: the body of [for actorKey in actorKeysForTool] for a
    tool that is active and has a pose. *)
Definition refreshActor (env : Env) (k : string) (t : Tool) (actorKey : string) : M unit :=
  moving <- gets _currentlyMovingActors ;;
  if decide (actorKey ∈ moving) then ret tt
  else
    doShow <- showToolOrTracker k t actorKey false tracker ;;
    doShow <- showToolOrTracker k t actorKey doShow tool ;;
    doShow <- showSubject env t actorKey doShow ;;
    reconcileVisibility actorKey doShow.

(** Lines 213-215: an actor of a tool without a valid position is hidden. *)
Definition hideActor (actorKey : string) : M unit :=
  acts <- gets _actors ;;
  match acts !! actorKey with
  | Some actor =>
      if visibility actor then actorsSet actorKey (setVisibility false actor)
      else ret tt
  | None => ret tt
  end.

(** Lines 207-209 *)
Definition actorKeysForTool (k : string) (t : Tool) : list string :=
  [k +:+ "_tracker"; k +:+ "_tool"]
  ++ (if isSubjectTracker t then [k +:+ "_subject"] else []).

(** Lines 204-288: the body of the rendering loop for one tool. *)
Definition refreshTool (env : Env) (kt : string * Tool) : M unit :=
  let '(k, t) := kt in
  latest <- getLatestTransfOrNone (trackerKey t) ;;
  match isActive t, latest with
  | true, Some _ => forEach (actorKeysForTool k t) (refreshActor env k t)
  | _, _ => forEach (actorKeysForTool k t) hideActor
  end.

(** Lines 199-291.  [doResetCamera] is left out: the only statement it
    guards is [pass]. *)
Definition refreshActors (env : Env) : M unit :=
  initialized <- gets _hasInitialized ;;
  initializing <- gets isInitializing ;;
  if negb initialized && negb initializing then ret tt
  else forEach (tools (session env)) (refreshTool env).

Definition _onLatestPositionsChanged (env : Env) : M unit :=
  restored <- gets _hasRestoredPositions ;;
  (if negb restored then
     restorePositions env ;;
     modify (withRestored true)
   else ret tt) ;;
  mirrorPositions env ;;
  refreshActors env.

(** *** _onToolsChanged *)

(** Lines 156-159: the body of [for actorKey in actorKeysForTool]; the
    result is the new value of [didRemove]. *)
Definition removeIfPresent (actorKey : string) (didRemove : bool) : M bool :=
  acts <- gets _actors ;;
  match acts !! actorKey with
  | Some a =>
      remove_actor a ;;
      modify (withActors (delete actorKey)) ;;
      ret true
  | None => ret didRemove
  end.

(** Lines 153-159: the loop over [self.session.tools.items()]; the result
    is [didRemove]. *)
Fixpoint removeActorsOfTools (l : list (string * Tool)) (didRemove : bool) : M bool :=
  match l with
  | [] => ret didRemove
  | (k, _) :: l' =>
      didRemove <- removeIfPresent (k +:+ "_tracker") didRemove ;;
      didRemove <- removeIfPresent (k +:+ "_tool") didRemove ;;
      removeActorsOfTools l' didRemove
  end.

(** The arguments [toolKeysChanged] and [changedAttribs] are not read by
    the method. *)
Definition _onToolsChanged (env : Env) (toolKeysChanged : list string)
    (changedAttribs : option (list string)) : M unit :=
  didRemove <- removeActorsOfTools (tools (session env)) false ;;
  if didRemove then _onLatestPositionsChanged env else ret tt.

(** *** clearAllPositions, zeroAllPositions *)

Definition clearAllPositions (env : Env) : M unit :=
  forEach (tools (session env)) (λ '(k, t),
    now <- timeNow env ;;
    recordNewPosition_sync (trackerKey t) (mkTimestampedToolPosition now None None)).

Definition zeroAllPositions (env : Env) : M unit :=
  forEach (tools (session env)) (λ '(k, t),
    pos <- gets (λ p, latestPositions (_positionsClient p) !! trackerKey t) ;;
    match pos ≫= relativeTo with
    | Some _ => ret tt
    | None =>
        now <- timeNow env ;;
        recordNewPosition_sync (trackerKey t) (mkTimestampedToolPosition now (Some eye4) None)
    end).

(** *** Snapshots *)

(** Lines 337-338: every entry is converted before any pose is sent. *)
Fixpoint convertEntries (l : list (string * PositionDict))
    : option (list (string * TimestampedToolPosition)) :=
  match l with
  | [] => Some []
  | (k, d) :: l' =>
      match fromDict d with
      | Some pos =>
          match convertEntries l' with
          | Some r => Some ((k, pos) :: r)
          | None => None
          end
      | None => None
      end
  end.

(** Lines 337-346 *)
Definition importEntries (env : Env) (positionsDict : gmap string PositionDict) : M unit :=
  match convertEntries (map_to_list positionsDict) with
  | None => raise MalformedSnapshotError
  | Some entries =>
      forEach entries (λ '(k, tsPos),
        now <- timeNow env ;;
        recordNewPosition_async k
          (mkTimestampedToolPosition now (transf tsPos) (relativeTo tsPos)))
  end.

(** [dialogAnswer] is what the file dialog returns when it is shown. *)
Definition importPositionsSnapshot (env : Env) (filepath : option string)
    (positionsDict : option (gmap string PositionDict)) (dialogAnswer : string) : M unit :=
  match positionsDict with
  | None =>
      let filepath := default dialogAnswer filepath in
      if Nat.eqb (String.length filepath) 0 then ret tt
      else
        fs <- gets files ;;
        match fs !! filepath with
        | None => raise FileNotFoundError
        | Some d => importEntries env d
        end
  | Some d => importEntries env d
  end.

(** Lines 364-368: the entries that carry a [relativeTo] are deleted. *)
Definition dropRelative (positions : gmap string PositionDict) : gmap string PositionDict :=
  foldl (λ m k,
           match m !! k with
           | Some tsPosDict =>
               match dictRelativeTo tsPosDict with
               | Some _ => delete k m
               | None => m
               end
           | None => m
           end)
        positions (map_to_list positions).*1.

(** Line 349: the default of [doIncludeToolsWithRelativePositions]. *)
Definition doIncludeToolsWithRelativePositions_default : bool := false.

Definition exportPositionsSnapshot (filepath : option string)
    (doIncludeToolsWithRelativePositions : bool) (dialogAnswer : string) : M unit :=
  let filepath := default dialogAnswer filepath in
  if Nat.eqb (String.length filepath) 0 then ret tt
  else
    latest <- gets (λ p, latestPositions (_positionsClient p)) ;;
    let positions := asDict <$> latest in
    let positions :=
      if negb doIncludeToolsWithRelativePositions then dropRelative positions
      else positions in
    modify (withFiles (insert filepath positions)).

(** *** Clearing and moving a picked tool *)

(** [s.endswith(suffix)] *)
Definition endswith (s suffix : string) : bool :=
  let n := String.length s in
  let m := String.length suffix in
  (m <=? n)%nat && String.eqb (String.substring (n - m) m s) suffix.

(** [s[:-n]] for [n > 0] *)
Definition dropLast (n : nat) (s : string) : string :=
  String.substring 0 (String.length s - n) s.

(** [self.session.tools[k]] *)
Definition sessionTool (env : Env) (k : string) : M Tool :=
  match toolsLookup (tools (session env)) k with
  | Some t => ret t
  | None => raise KeyError
  end.

Definition clearToolPos (env : Env) (toolKey : string) : M unit :=
  t <- sessionTool env toolKey ;;
  now <- timeNow env ;;
  recordNewPosition_async (trackerKey t) (mkTimestampedToolPosition now None None).

(** Lines 420, 396: the keys of the table whose actor is the picked one. *)
Definition keysOfActor (acts : gmap string Actor) (pickedActor : option nat) : list string :=
  (filter (λ ka, Some (actorId ka.2) = pickedActor) (map_to_list acts)).*1.

(** Lines 424-429, 400-405 *)
Definition toolOfActorKey (env : Env) (pickedKey : string) : M Tool :=
  if endswith pickedKey "_tracker" then
    sessionTool env (dropLast (String.length "_tracker") pickedKey)
  else if endswith pickedKey "_tool" then
    sessionTool env (dropLast (String.length "_tool") pickedKey)
  else raise NotImplementedError.

(** [userPick] is the actor that [pickActor] returns when it is awaited. *)
Definition selectAndClearToolPos (env : Env) (toolKey : option string)
    (userPick : option nat) : M unit :=
  match toolKey with
  | Some k => clearToolPos env k
  | None =>
      acts <- gets _actors ;;
      match keysOfActor acts userPick with
      | [] => ret tt
      | pickedKey :: _ =>
          pickedTool <- toolOfActorKey env pickedKey ;;
          clearToolPos env (key pickedTool)
      end
  end.

(** Lines 436-469: the callback of the drag. *)
Definition onNewTransf (env : Env) (pickedKey : string) (pickedTool : Tool)
    (transf : Matrix4) : M unit :=
  newTrackerToWorldTransf <-
    (if endswith pickedKey "_tool" then
       match toolToTrackerTransf pickedTool with
       | None => raise TypeError
       | Some toolToTracker =>
           match invertTransform
                   (concatenateTransforms [toolStlToToolTransf pickedTool; toolToTracker]) with
           | None => raise SingularMatrixError
           | Some inv => ret (concatenateTransforms [inv; transf])
           end
       end
     else if endswith pickedKey "_tracker" then
       match trackerStlToTrackerTransf pickedTool with
       | None => raise TypeError
       | Some trackerStlToTracker =>
           match invertTransform trackerStlToTracker with
           | None => raise SingularMatrixError
           | Some inv => ret (concatenateTransforms [inv; transf])
           end
       end
     else raise NotImplementedError) ;;
  now <- timeNow env ;;
  recordNewPosition_sync (trackerKey pickedTool)
    (mkTimestampedToolPosition now (Some newTrackerToWorldTransf) None).

(** How the awaited drag comes to its end. *)
Inductive DragEnd := DragCompleted | DragCancelled.

(** A drag as the plotter delivers it: the intermediate world transforms,
    then the end. *)
Record Drag := mkDrag {
  intermediate : list Matrix4;
  dragEnd : DragEnd
}.

(** Modelled from the spec: [interactivelyMoveActor]
    (NaviNIBS.util.pyvista.PlotInteraction) is not part of this source
    tree.  Spec 4.4: "the Renderer streams intermediate world-space
    transforms as the user drags", each handed to the callback; an
    exception of the callback ends the drag ("fatal to that specific
    drag", spec 7); a drag "cancelled externally" raises CancelledError
    at the await. *)
Definition interactivelyMoveActor (onNewTransf : Matrix4 → M unit) (d : Drag) : M unit :=
  forEach (intermediate d) onNewTransf ;;
  match dragEnd d with
  | DragCompleted => ret tt
  | DragCancelled => raise CancelledError
  end.

Definition selectAndMoveTool (env : Env) (pickedActor : option nat)
    (userPick : option nat) (d : Drag) : M unit :=
  let pickedActor := match pickedActor with None => userPick | Some a => Some a end in
  acts <- gets _actors ;;
  match keysOfActor acts pickedActor with
  | [] => ret tt
  | pickedKey :: _ =>
      pickedTool <- toolOfActorKey env pickedKey ;;
      moving <- gets _currentlyMovingActors ;;
      if decide (pickedKey ∈ moving) then raise AssertionError
      else
        modify (withMoving (λ s, {[ pickedKey ]} ∪ s)) ;;
        interactivelyMoveActor (onNewTransf env pickedKey pickedTool) d ;;
        moving <- gets _currentlyMovingActors ;;
        if decide (pickedKey ∈ moving) then modify (withMoving (λ s, s ∖ {[ pickedKey ]}))
        else raise KeyError
  end.

(** *** The panel as a machine: the methods that the buttons and signals
    run, in any order.  [CallMoveTool] is a whole drag session, from the
    pick to the release, run as one step: what other methods do while
    the await of line 471 is pending is not part of it.
    [CallOnNewTransf] is one call of the callback of a drag that is in
    progress, between which other methods run. *)

Inductive Call :=
| CallOnLatestPositionsChanged
| CallOnToolsChanged (toolKeysChanged : list string) (changedAttribs : option (list string))
| CallClearAllPositions
| CallZeroAllPositions
| CallImport (filepath : option string) (positionsDict : option (gmap string PositionDict))
             (dialogAnswer : string)
| CallExport (filepath : option string) (doInclude : bool) (dialogAnswer : string)
| CallClearToolPos (toolKey : option string) (userPick : option nat)
| CallMoveTool (pickedActor : option nat) (userPick : option nat) (d : Drag)
| CallOnNewTransf (pickedKey : string) (pickedTool : Tool) (transf : Matrix4).

Definition run (env : Env) (c : Call) : M unit :=
  match c with
  | CallOnLatestPositionsChanged => _onLatestPositionsChanged env
  | CallOnToolsChanged ks attribs => _onToolsChanged env ks attribs
  | CallClearAllPositions => clearAllPositions env
  | CallZeroAllPositions => zeroAllPositions env
  | CallImport f d a => importPositionsSnapshot env f d a
  | CallExport f inc a => exportPositionsSnapshot f inc a
  | CallClearToolPos k pick => selectAndClearToolPos env k pick
  | CallMoveTool a pick d => selectAndMoveTool env a pick d
  | CallOnNewTransf k t W => onNewTransf env k t W
  end.

(** The panel after a sequence of calls, each against the session of its
    moment; a call that raises leaves its mutations behind and the next
    call goes on from there. *)
Fixpoint runAll (calls : list (Env * Call)) (p : Panel) : Panel :=
  match calls with
  | [] => p
  | (env, c) :: calls' => runAll calls' (run env c p).1
  end.

End SimulatedToolsPanel.

(** ** Vocabulary of the statements *)

Module Statements.
Import Transforms Devices Model SimulatedToolsPanel.

(** A matrix that has an inverse (for square matrices a right inverse is
    a left inverse as well). *)
Definition invertible (A : Matrix4) : Prop :=
  ∃ B, meq (matmul A B) eye4.

(** [preserves R m]: the panel that [m] leaves behind is [R]-related to
    the one it started on, whether [m] returns or raises. *)
Definition preserves {A} (R : relation Panel) (m : M A) : Prop :=
  ∀ p, R p (m p).1.

(** [same f]: the part [f] of the panel is left as it was. *)
Definition same {X} (f : Panel → X) : relation Panel :=
  λ p p', f p' = f p.

(** The one-shot flag, once set, stays set. *)
Definition restoredStays : relation Panel :=
  λ p p', _hasRestoredPositions p = true → _hasRestoredPositions p' = true.

(** Every pose that was cached is still cached, unchanged. *)
Definition keepsPoses : relation Panel :=
  λ p p', ∀ k pos,
    latestPositions (_positionsClient p) !! k = Some pos →
    latestPositions (_positionsClient p') !! k = Some pos.

(** What a rendering pass may do to an actor that is being dragged:
    nothing, or hide it. *)
Definition hiddenOrSame (o o' : option Actor) : Prop :=
  o' = o ∨ ∃ a, o = Some a ∧ visibility a = true ∧ o' = Some (setVisibility false a).

(** The moving set is left as it is, and the actor [ak], if it is in the
    set, is left alone or hidden. *)
Definition undisturbed (ak : string) : relation Panel :=
  λ p p',
    _currentlyMovingActors p' = _currentlyMovingActors p ∧
    (ak ∈ _currentlyMovingActors p → hiddenOrSame (_actors p !! ak) (_actors p' !! ak)).

(** The moving set is left as it is, and the actor [ak], if it is in the
    set, is left exactly as it is. *)
Definition untouched (ak : string) : relation Panel :=
  λ p p',
    _currentlyMovingActors p' = _currentlyMovingActors p ∧
    (ak ∈ _currentlyMovingActors p → _actors p' !! ak = _actors p !! ak).

(** The tool [t] is active and the cache holds a transform for it. *)
Definition posed (p : Panel) (t : Tool) : Prop :=
  isActive t = true ∧
  is_Some (latestPositions (_positionsClient p) !! trackerKey t ≫= transf).

(** The methods that may run while a drag is in progress without ending
    it or changing the set of tools: the refresh, the callback of the
    drag, and everything that only sends poses or writes files. *)
Definition duringDrag (c : Call) : Prop :=
  match c with
  | CallOnToolsChanged _ _ | CallMoveTool _ _ _ => False
  | _ => True
  end.

(** There is no visible actor under the key [ak]. *)
Definition invisibleAt (ak : string) (p : Panel) : Prop :=
  ∀ a, _actors p !! ak = Some a → visibility a = false.

(** The actor keys that [_onToolsChanged] looks for: the tracker and the
    tool key of every tool of the session. *)
Fixpoint trackerAndToolKeys (l : list (string * Tool)) : list string :=
  match l with
  | [] => []
  | (k, _) :: l' => (k +:+ "_tracker") :: (k +:+ "_tool") :: trackerAndToolKeys l'
  end.

(** [removeIfPresent] over a list of keys. *)
Fixpoint removeKeys (keys : list string) (didRemove : bool) : M bool :=
  match keys with
  | [] => ret didRemove
  | ak :: keys' => didRemove <- removeIfPresent ak didRemove ;; removeKeys keys' didRemove
  end.

(** The pose that the drag callback sends for the world transform [W] of
    an actor whose mesh sits at [offsetInv]^-1 in tracker space. *)
Definition dragCommand (env : Env) (t : Tool) (offsetInv : Matrix4) (reads : nat)
    (W : Matrix4) : Command :=
  mkCommand Sync (trackerKey t)
    (mkTimestampedToolPosition (wallclock env reads)
       (Some (concatenateTransforms [offsetInv; W])) None).

(** The command that clear-all sends for the tool [t]. *)
Definition clearCommand (env : Env) (reads : nat) (t : Tool) : Command :=
  mkCommand Sync (trackerKey t) (mkTimestampedToolPosition (wallclock env reads) None None).

(** The cached pose under [k] says "no transform". *)
Definition cleared (p : Panel) (k : string) : Prop :=
  ∃ pos, latestPositions (_positionsClient p) !! k = Some pos ∧ transf pos = None.

(** The cached pose under [k] is expressed relative to another tool. *)
Definition relative (p : Panel) (k : string) : Prop :=
  ∃ pos other, latestPositions (_positionsClient p) !! k = Some pos ∧ relativeTo pos = Some other.

(** The cached pose under [k] is the identity, in the world frame. *)
Definition zeroed (p : Panel) (k : string) : Prop :=
  ∃ t, latestPositions (_positionsClient p) !! k = Some (mkTimestampedToolPosition t (Some eye4) None).

(** What zero-all sends: identities in the world frame, over the blocking
    call, under tracker keys of the session whose pose was not relative. *)
Definition zeroCommand (env : Env) (p : Panel) (c : Command) : Prop :=
  cmdMode c = Sync ∧
  transf (cmdPosition c) = Some eye4 ∧
  relativeTo (cmdPosition c) = None ∧
  ¬ relative p (cmdKey c) ∧
  ∃ k t, (k, t) ∈ tools (session env) ∧ cmdKey c = trackerKey t.

(** The command that the import sends for the entry [e] of a snapshot. *)
Definition importCommand (env : Env) (reads : nat) (e : string * TimestampedToolPosition)
    : Command :=
  mkCommand Async e.1
    (mkTimestampedToolPosition (wallclock env reads) (transf e.2) (relativeTo e.2)).

(** Line 308: the cached pose under [k] exists and has a [relativeTo]. *)
Definition hasRelativePose (p : Panel) (k : string) : bool :=
  match latestPositions (_positionsClient p) !! k ≫= relativeTo with
  | Some _ => true
  | None => false
  end.

(** The tools that zero-all does not skip, in the order of the session. *)
Definition zeroedTools (env : Env) (p : Panel) : list (string * Tool) :=
  filter (λ kt, hasRelativePose p (trackerKey kt.2) = false) (tools (session env)).

(** The command that zero-all sends for the tool [t]. *)
Definition zeroCommandFor (env : Env) (reads : nat) (t : Tool) : Command :=
  mkCommand Sync (trackerKey t)
    (mkTimestampedToolPosition (wallclock env reads) (Some eye4) None).

(** Lines 171-177: the persisted pose has a transform and nothing is
    cached under its key. *)
Definition needsRestore (p : Panel) (kp : string * SimulatedToolPose) : bool :=
  match poseTransf kp.2, latestPositions (_positionsClient p) !! kp.1 with
  | Some _, None => true
  | _, _ => false
  end.

(** The entries of the configuration that the startup restore sends, in
    the order of [config.poses.items()]. *)
Definition toRestore (p : Panel) : list (string * SimulatedToolPose) :=
  filter (λ kp, needsRestore p kp = true) (map_to_list (configPoses p)).

(** The command that the startup restore sends for a persisted pose. *)
Definition restoreCommand (env : Env) (reads : nat) (kp : string * SimulatedToolPose)
    : Command :=
  mkCommand Sync kp.1
    (mkTimestampedToolPosition (wallclock env reads) (poseTransf kp.2) (poseRelativeTo kp.2)).

(** The entry that an export with the default filter writes for a cached
    pose: its dictionary when the pose has no [relativeTo], nothing
    otherwise. *)
Definition absoluteEntry (o : option TimestampedToolPosition) : option PositionDict :=
  match o with
  | Some pos =>
      match relativeTo pos with
      | None => Some (asDict pos)
      | Some _ => None
      end
  | None => None
  end.

End Statements.

(** ** A small session to run the methods on *)

Module Examples.
Import Transforms Devices Model SimulatedToolsPanel.

(** A pure translation. *)
Definition translation (x y z : Q) : Matrix4 :=
  mkMatrix4 (mkVec4 1 0 0 x) (mkVec4 0 1 0 y) (mkVec4 0 0 1 z) (mkVec4 0 0 0 1).

(** A coil: it has a tracker mesh and a tool mesh, both rendered. *)
Definition coil : Tool :=
  {| key := "coil"; trackerKey := "coil"; isActive := true; isSubjectTracker := false;
     doRenderTracker := true; doRenderTool := true;
     trackerStlFilepath := Some "coilTracker.stl"; toolStlFilepath := Some "coil.stl";
     toolToTrackerTransf := Some (translation 1 2 3);
     toolStlToToolTransf := translation 0 0 5;
     trackerStlToTrackerTransf := Some eye4;
     trackerSurf := "coilTrackerSurf"; toolSurf := "coilSurf";
     trackerColor := None; toolColor := Some "#2222ff";
     trackerOpacity := None; toolOpacity := Some (1 # 2)%Q |}.

(** A pointer that has been switched off. *)
Definition pointer : Tool :=
  {| key := "pointer"; trackerKey := "pointer"; isActive := false; isSubjectTracker := false;
     doRenderTracker := true; doRenderTool := true;
     trackerStlFilepath := Some "pointerTracker.stl"; toolStlFilepath := Some "pointer.stl";
     toolToTrackerTransf := Some eye4;
     toolStlToToolTransf := eye4;
     trackerStlToTrackerTransf := Some eye4;
     trackerSurf := "pointerTrackerSurf"; toolSurf := "pointerSurf";
     trackerColor := None; toolColor := None;
     trackerOpacity := None; toolOpacity := None |}.

(** A tool whose mesh offset is degenerate (it squashes the z axis). *)
Definition flat : Tool :=
  {| key := "flat"; trackerKey := "flat"; isActive := true; isSubjectTracker := false;
     doRenderTracker := true; doRenderTool := true;
     trackerStlFilepath := Some "flatTracker.stl"; toolStlFilepath := Some "flat.stl";
     toolToTrackerTransf := Some eye4;
     toolStlToToolTransf :=
       mkMatrix4 (mkVec4 1 0 0 0) (mkVec4 0 1 0 0) (mkVec4 0 0 0 0) (mkVec4 0 0 0 1);
     trackerStlToTrackerTransf := Some eye4;
     trackerSurf := "flatTrackerSurf"; toolSurf := "flatSurf";
     trackerColor := None; toolColor := None;
     trackerOpacity := None; toolOpacity := None |}.

(** The wall clock: one second per reading, starting at 100. *)
Definition clock (n : nat) : Q := inject_Z (100 + Z.of_nat n).

Definition sessionOf (l : list Tool) : Session :=
  {| tools := (λ t, (key t, t)) <$> l; trackerToMRITransf := None; skinSurf := None |}.

Definition envOf (l : list Tool) : Env :=
  {| session := sessionOf l; wallclock := clock |}.

(** The panel right after its initialisation: nothing drawn, nothing
    known, nothing restored yet. *)
Definition freshPanel : Panel :=
  {| _actors := ∅; _currentlyMovingActors := ∅;
     _positionsClient := mkPositionsClient ∅ [];
     _hasRestoredPositions := false; _hasInitialized := true; isInitializing := false;
     configPoses := ∅;
     _plotter := mkPlotter 0 ∅ 0;
     clockReads := 0; files := ∅ |}.

(** The panel [p] after the calls [l], all against the tools [ts]. *)
Definition after (ts : list Tool) (l : list Call) (p : Panel) : Panel :=
  runAll ((λ c, (envOf ts, c)) <$> l) p.

(** The coil, zeroed and drawn: its tracker mesh is actor 0 and its tool
    mesh is actor 1. *)
Definition shownCoil : Panel :=
  after [coil] [CallZeroAllPositions; CallOnLatestPositionsChanged] freshPanel.

(** The pointer while it was still switched on. *)
Definition activePointer : Tool :=
  {| key := "pointer"; trackerKey := "pointer"; isActive := true; isSubjectTracker := false;
     doRenderTracker := true; doRenderTool := true;
     trackerStlFilepath := Some "pointerTracker.stl"; toolStlFilepath := Some "pointer.stl";
     toolToTrackerTransf := Some eye4;
     toolStlToToolTransf := eye4;
     trackerStlToTrackerTransf := Some eye4;
     trackerSurf := "pointerTrackerSurf"; toolSurf := "pointerSurf";
     trackerColor := None; toolColor := None;
     trackerOpacity := None; toolOpacity := None |}.

(** Coil and pointer, zeroed and drawn: the actors 0 to 3. *)
Definition shownBoth : Panel :=
  after [coil; activePointer] [CallZeroAllPositions; CallOnLatestPositionsChanged] freshPanel.

(** The same while the tool mesh of the pointer is being dragged. *)
Definition draggingPointer : Panel :=
  withMoving (λ _, {[ "pointer_tool" ]}) shownBoth.

(** The coil being dragged by its tool mesh, its pose just cleared. *)
Definition draggingClearedCoil : Panel :=
  after [coil] [CallClearToolPos (Some "coil") None]
    (withMoving (λ _, {[ "coil_tool" ]}) shownCoil).

(** A panel that knows two poses: the coil in the world frame, the
    pointer relative to the coil. *)
Definition mixedPoses : Panel :=
  withClient (λ _, mkPositionsClient
    {[ "coil" := mkTimestampedToolPosition 1 (Some (translation 1 2 3)) None;
       "pointer" := mkTimestampedToolPosition 2 (Some (translation 0 0 1)) (Some "coil") ]}
    []) freshPanel.

(** The same for the tool with the degenerate offset. *)
Definition shownFlat : Panel :=
  after [flat] [CallZeroAllPositions; CallOnLatestPositionsChanged] freshPanel.

End Examples.
(** ** Further vocabulary *)

Module MoreStatements.
Import Transforms Devices Model SimulatedToolsPanel Statements.

(** The moving set has lost nothing. *)
Definition keepsMoving : relation Panel :=
  λ p p', _currentlyMovingActors p ⊆ _currentlyMovingActors p'.

(** *** The state changes of the rendering pass, one by one *)

(** Lines 243-255 and 271-276: [if actorKey not in self._actors:
    self._actors[actorKey] = self._plotter.addMesh(...)]. *)
Definition ensureActor (mesh : Mesh) (color : option string) (defaultMeshColor : string)
    (opacity : Q) (ak : string) (p : Panel) : Panel :=
  match _actors p !! ak with
  | Some _ => p
  | None =>
      let r := addMesh mesh color defaultMeshColor opacity ak p in
      match r.2 with
      | Returned actor => withActors (insert ak actor) r.1
      | Raised _ => r.1
      end
  end.

(** [setActorUserTransform(self._actors[ak], T)] *)
Definition transformActor (ak : string) (T : Matrix4) (p : Panel) : Panel :=
  match _actors p !! ak with
  | Some actor => withActors (insert ak (setActorUserTransform T actor)) p
  | None => p
  end.

(** [self._actors[ak].VisibilityOn()] / [VisibilityOff()] *)
Definition setVisible (ak : string) (b : bool) (p : Panel) : Panel :=
  match _actors p !! ak with
  | Some actor => withActors (insert ak (setVisibility b actor)) p
  | None => p
  end.

(** [self._plotter.render()] *)
Definition rendered (p : Panel) : Panel := (render p).1.

(** Lines 243-263 and 271-280 as one step: the actor is created when
    there is none, then it is given the transform [T pose] computed from
    the cached transform [pose] under [tk], and the scene is rendered. *)
Definition showBlock (mesh : Mesh) (color : option string) (defaultMeshColor : string)
    (opacity : Q) (ak tk : string) (T : Matrix4 → Matrix4) (p : Panel)
    : Panel * outcome bool :=
  let p1 := ensureActor mesh color defaultMeshColor opacity ak p in
  match latestPositions (_positionsClient p) !! tk with
  | None => (p1, Raised KeyError)
  | Some pos =>
      match transf pos with
      | None => (p1, Raised TypeError)
      | Some pose => (rendered (transformActor ak (T pose) p1), Returned true)
      end
  end.

(** Lines 282-288 as one step. *)
Definition reconciled (ak : string) (doShow : bool) (p : Panel) : Panel :=
  match _actors p !! ak with
  | Some actor =>
      if doShow && negb (visibility actor) then rendered (setVisible ak true p)
      else if negb doShow && visibility actor then rendered (setVisible ak false p)
      else p
  | None => p
  end.

(** *** Invariants of the actor table *)

(** Two states of the same actor: created once, by one [addMesh]. *)
Definition sameIdentity (a a' : Actor) : Prop :=
  actorId a' = actorId a ∧ actorName a' = actorName a ∧ actorMesh a' = actorMesh a ∧
  actorColor a' = actorColor a ∧ actorOpacity a' = actorOpacity a.

(** The actor [actor] is on display at [T]: it is visible, its user
    transform is [T], and it is the actor [old] that was under the key
    before or, when there was none, one made of [mesh], [color] and
    [opacity]. *)
Definition displayedAt (T : Matrix4) (mesh : Mesh) (color : string) (opacity : Q)
    (old : option Actor) (actor : Actor) : Prop :=
  visibility actor = true ∧ userTransform actor = Some T ∧
  match old with
  | Some o => sameIdentity o actor
  | None => actorMesh actor = mesh ∧ actorColor actor = color ∧ actorOpacity actor = opacity
  end.

(** Every actor of the table is still in it, and is the same actor. *)
Definition keepsIdentity : relation Panel :=
  λ p p', ∀ ak a, _actors p !! ak = Some a →
    ∃ a', _actors p' !! ak = Some a' ∧ sameIdentity a a'.

(** The table and the plotter agree: every actor of the table is in the
    scene and was named after its key, no two keys share an actor, and
    the scene holds no identity that is still to be given out. *)
Definition wellFormed (p : Panel) : Prop :=
  (∀ ak a, _actors p !! ak = Some a →
     actorId a ∈ sceneActors (_plotter p) ∧ actorName a = ak) ∧
  (∀ i, i ∈ sceneActors (_plotter p) → (i < nextActorId (_plotter p))%nat) ∧
  (∀ ak1 ak2 a1 a2, _actors p !! ak1 = Some a1 → _actors p !! ak2 = Some a2 →
     actorId a1 = actorId a2 → ak1 = ak2).

(** Well-formedness is not lost. *)
Definition keepsWellFormed : relation Panel :=
  λ p p', wellFormed p → wellFormed p'.

(** Well-formedness is not lost and no actor is removed or replaced. *)
Definition keepsTable : relation Panel :=
  λ p p', keepsWellFormed p p' ∧ keepsIdentity p p'.

(** The session has a skin surface to draw and a registration that
    cannot be inverted. *)
Definition singularRegistration (env : Env) : Prop :=
  ∃ R, trackerToMRITransf (session env) = Some R ∧ invertTransform R = None ∧
       is_Some (skinSurf (session env)).

(** Lines 190-197: what the mirroring leaves in the configuration under
    the tracker key [tk], given the cached transform and the entry that
    was there. *)
Definition mirrored (tk : string) (cached : option Matrix4) (old : option SimulatedToolPose)
    : option SimulatedToolPose :=
  match old with
  | Some pose => Some (mkSimulatedToolPose (poseKey pose) cached (poseRelativeTo pose))
  | None =>
      match cached with
      | Some _ => Some (mkSimulatedToolPose tk cached None)
      | None => None
      end
  end.

(** The tracker keys of the tools of the session. *)
Definition trackerKeys (env : Env) : list string :=
  (λ kt, trackerKey kt.2) <$> tools (session env).

(** The calls other than [_onToolsChanged]. *)
Definition keepsActors (c : Call) : Prop :=
  match c with
  | CallOnToolsChanged _ _ => False
  | _ => True
  end.

End MoreStatements.

(** ** A session with a subject *)

Module MoreExamples.
Import Transforms Devices Model SimulatedToolsPanel Examples.

(** The tracker on the subject's head: it has a tracker mesh and no tool
    mesh. *)
Definition headTracker : Tool :=
  {| key := "head"; trackerKey := "head"; isActive := true; isSubjectTracker := true;
     doRenderTracker := true; doRenderTool := false;
     trackerStlFilepath := Some "headTracker.stl"; toolStlFilepath := None;
     toolToTrackerTransf := None;
     toolStlToToolTransf := eye4;
     trackerStlToTrackerTransf := Some (translation 0 1 0);
     trackerSurf := "headTrackerSurf"; toolSurf := "";
     trackerColor := None; toolColor := None;
     trackerOpacity := None; toolOpacity := None |}.

(** The coil after its tool mesh has been switched off in the session. *)
Definition coilMeshOff : Tool :=
  {| key := "coil"; trackerKey := "coil"; isActive := true; isSubjectTracker := false;
     doRenderTracker := true; doRenderTool := false;
     trackerStlFilepath := Some "coilTracker.stl"; toolStlFilepath := Some "coil.stl";
     toolToTrackerTransf := Some (translation 1 2 3);
     toolStlToToolTransf := translation 0 0 5;
     trackerStlToTrackerTransf := Some eye4;
     trackerSurf := "coilTrackerSurf"; toolSurf := "coilSurf";
     trackerColor := None; toolColor := Some "#2222ff";
     trackerOpacity := None; toolOpacity := Some (1 # 2)%Q |}.

(** Head tracker and coil, with a registration and a skin surface. *)
Definition subjectEnv : Env :=
  {| session := {| tools := [("head", headTracker); ("coil", coil)];
                   trackerToMRITransf := Some (translation 0 0 10);
                   skinSurf := Some "skinSurf" |};
     wallclock := clock |}.

(** The same with a registration that squashes the z axis. *)
Definition singularEnv : Env :=
  {| session := {| tools := [("head", headTracker); ("coil", coil)];
                   trackerToMRITransf :=
                     Some (mkMatrix4 (mkVec4 1 0 0 0) (mkVec4 0 1 0 0)
                                     (mkVec4 0 0 0 0) (mkVec4 0 0 0 1));
                   skinSurf := Some "skinSurf" |};
     wallclock := clock |}.

(** Head tracker and coil zeroed, nothing drawn yet. *)
Definition zeroedSubject : Panel :=
  runAll [(subjectEnv, CallZeroAllPositions)] freshPanel.

(** The same, drawn: the head tracker is actor 0, the skin surface actor
    1, the coil's meshes are the actors 2 and 3. *)
Definition shownSubject : Panel :=
  runAll [(subjectEnv, CallOnLatestPositionsChanged)] zeroedSubject.

(** The coil zeroed, nothing drawn yet. *)
Definition zeroedCoil : Panel :=
  after [coil] [CallZeroAllPositions] freshPanel.

End MoreExamples.
(** * Facts about the transform algebra *)

Import Transforms Devices Model SimulatedToolsPanel Statements.

#[local] Set Warnings "-clear-no-such-hyp".

Section TransformFacts.
Import Transforms.

Ltac mat_destruct :=
  repeat match goal with
  | M : Matrix4 |- _ => destruct M as [[? ? ? ?] [? ? ? ?] [? ? ? ?] [? ? ? ?]]
  end.

Ltac mat_unfold :=
  cbv [meq veq matmul vmul dot col0 col1 col2 col3 mscale vscale
       adjugate det up01 up02 up03 up12 up13 up23
       lo01 lo02 lo03 lo12 lo13 lo23 eye4 row0 row1 row2 row3 vx vy vz vw] in *.

Ltac split4 := split; [|split; [|split]].

Ltac mat_ring := mat_destruct; mat_unfold; repeat split; ring.

Global Instance veq_equiv : Equivalence veq.
Proof.
  split.
  - intros u. unfold veq. repeat split; reflexivity.
  - intros u v (H1 & H2 & H3 & H4). unfold veq. repeat split; symmetry; assumption.
  - intros u v w (H1 & H2 & H3 & H4) (K1 & K2 & K3 & K4). unfold veq.
    repeat split; etransitivity; eassumption.
Qed.

Global Instance meq_equiv : Equivalence meq.
Proof.
  split.
  - intros A. unfold meq. split4; reflexivity.
  - intros A B (H1 & H2 & H3 & H4). unfold meq. split4; symmetry; assumption.
  - intros A B C (H1 & H2 & H3 & H4) (K1 & K2 & K3 & K4). unfold meq.
    split4; etransitivity; eassumption.
Qed.

Global Instance dot_proper : Proper (veq ==> veq ==> Qeq) dot.
Proof.
  intros u u' (H1 & H2 & H3 & H4) v v' (K1 & K2 & K3 & K4). unfold dot.
  rewrite H1, H2, H3, H4, K1, K2, K3, K4. reflexivity.
Qed.

Lemma meq_cols A B :
  meq A B → veq (col0 A) (col0 B) ∧ veq (col1 A) (col1 B) ∧
            veq (col2 A) (col2 B) ∧ veq (col3 A) (col3 B).
Proof.
  intros ((?&?&?&?) & (?&?&?&?) & (?&?&?&?) & (?&?&?&?)).
  unfold veq, col0, col1, col2, col3; simpl. tauto.
Qed.

Global Instance vmul_proper : Proper (veq ==> meq ==> veq) vmul.
Proof.
  intros u u' Hu B B' HB. apply meq_cols in HB as (H0 & H1 & H2 & H3).
  unfold vmul, veq; simpl. rewrite Hu, H0, H1, H2, H3. split4; reflexivity.
Qed.

Global Instance matmul_proper : Proper (meq ==> meq ==> meq) matmul.
Proof.
  intros A A' (H0 & H1 & H2 & H3) B B' HB. unfold matmul, meq; simpl.
  rewrite H0, H1, H2, H3, HB. split4; reflexivity.
Qed.

Global Instance mscale_proper : Proper (Qeq ==> meq ==> meq) mscale.
Proof.
  intros c c' Hc A A' ((?&?&?&?) & (?&?&?&?) & (?&?&?&?) & (?&?&?&?)).
  unfold mscale, vscale, meq, veq; simpl.
  repeat split; apply Qmult_comp; assumption.
Qed.

Lemma matmul_assoc A B C : meq (matmul (matmul A B) C) (matmul A (matmul B C)).
Proof. mat_ring. Qed.

Lemma matmul_eye4_l A : meq (matmul eye4 A) A.
Proof. mat_ring. Qed.

Lemma matmul_eye4_r A : meq (matmul A eye4) A.
Proof. mat_ring. Qed.

Lemma matmul_adjugate_l M : meq (matmul (adjugate M) M) (mscale (det M) eye4).
Proof. mat_ring. Qed.

Lemma matmul_adjugate_r M : meq (matmul M (adjugate M)) (mscale (det M) eye4).
Proof. mat_ring. Qed.

Lemma matmul_mscale_l c A B : meq (matmul (mscale c A) B) (mscale c (matmul A B)).
Proof. mat_ring. Qed.

Lemma matmul_mscale_r c A B : meq (matmul A (mscale c B)) (mscale c (matmul A B)).
Proof. mat_ring. Qed.

Lemma mscale_mscale c d A : meq (mscale c (mscale d A)) (mscale (c * d) A).
Proof. mat_ring. Qed.

Lemma mscale_1 A : meq (mscale 1 A) A.
Proof. mat_ring. Qed.

Lemma det_matmul A B : (det (matmul A B) == det A * det B)%Q.
Proof. mat_destruct. mat_unfold. ring. Qed.

Lemma det_eye4 : (det eye4 == 1)%Q.
Proof. reflexivity. Qed.

Lemma det_meq A B : meq A B → (det A == det B)%Q.
Proof.
  intros ((?&?&?&?) & (?&?&?&?) & (?&?&?&?) & (?&?&?&?)).
  unfold det, up01, up02, up03, up12, up13, up23, lo01, lo02, lo03, lo12, lo13, lo23.
  repeat match goal with H : (_ == _)%Q |- _ => rewrite H; clear H end.
  reflexivity.
Qed.

(** [invertTransform] succeeds exactly on the matrices whose determinant
    is not zero, and then returns the scaled adjugate. *)
Lemma invertTransform_Some M Mi :
  invertTransform M = Some Mi ↔
  ¬ (det M == 0)%Q ∧ Mi = mscale (/ det M) (adjugate M).
Proof.
  unfold invertTransform. destruct (Qeq_bool (det M) 0) eqn:E.
  - apply Qeq_bool_eq in E. split; [discriminate | intros [H _]; contradiction].
  - apply Qeq_bool_neq in E. split.
    + intros [= <-]. auto.
    + intros [_ ->]. reflexivity.
Qed.

Lemma invertTransform_l M Mi : invertTransform M = Some Mi → meq (matmul Mi M) eye4.
Proof.
  intros [Hd ->]%invertTransform_Some.
  rewrite matmul_mscale_l, matmul_adjugate_l, mscale_mscale.
  assert (/ det M * det M == 1)%Q as -> by (field; exact Hd).
  apply mscale_1.
Qed.

Lemma invertTransform_r M Mi : invertTransform M = Some Mi → meq (matmul M Mi) eye4.
Proof.
  intros [Hd ->]%invertTransform_Some.
  rewrite matmul_mscale_r, matmul_adjugate_r, mscale_mscale.
  assert (/ det M * det M == 1)%Q as -> by (field; exact Hd).
  apply mscale_1.
Qed.

(** A matrix with a right inverse is one that [invertTransform] accepts. *)
Lemma invertible_invertTransform M B :
  meq (matmul M B) eye4 → ∃ Mi, invertTransform M = Some Mi.
Proof.
  intros H. exists (mscale (/ det M) (adjugate M)).
  apply invertTransform_Some. split; [|reflexivity].
  intros Hz. apply det_meq in H. rewrite det_matmul, Hz, det_eye4 in H.
  revert H. assert (0 * det B == 0)%Q as -> by ring. discriminate.
Qed.

(** The cancellation behind the drag: undoing an offset and putting it
    back gives the transform one started from. *)
Lemma concatenate_offset_cancel O Oi W :
  invertTransform O = Some Oi →
  meq (concatenateTransforms [O; concatenateTransforms [Oi; W]]) W.
Proof.
  intros H. simpl. rewrite <- matmul_assoc, (invertTransform_r _ _ H).
  apply matmul_eye4_l.
Qed.

End TransformFacts.

(** * Reasoning about method bodies *)

Section Preservation.
Import Transforms Devices Model SimulatedToolsPanel Statements.

Context (R : relation Panel) `{!PreOrder R}.

Lemma preserves_ret {A} (a : A) : preserves R (ret a).
Proof. intros p. reflexivity. Qed.

Lemma preserves_raise {A} (e : exn) : preserves R (raise e : M A).
Proof. intros p. reflexivity. Qed.

Lemma preserves_gets {A} (f : Panel → A) : preserves R (gets f).
Proof. intros p. reflexivity. Qed.

Lemma preserves_modify (f : Panel → Panel) :
  (∀ p, R p (f p)) → preserves R (modify f).
Proof. intros H p. apply H. Qed.

Lemma preserves_bind {A B} (m : M A) (f : A → M B) :
  preserves R m → (∀ a, preserves R (f a)) → preserves R (bind m f).
Proof.
  intros Hm Hf p. unfold bind. specialize (Hm p).
  destruct (m p) as [p' [a|e]]; simpl in *; [|done].
  etransitivity; [exact Hm | apply Hf].
Qed.

Lemma preserves_forEach {A} (l : list A) (body : A → M unit) :
  (∀ x, x ∈ l → preserves R (body x)) → preserves R (forEach l body).
Proof.
  induction l as [|x l IH]; intros H; simpl.
  - apply preserves_ret.
  - apply preserves_bind; [apply H; left | intros _; apply IH].
    intros y Hy. apply H. by right.
Qed.

Lemma preserves_tryExcept {A} (body : M A) (e : exn) (handler : M A) :
  preserves R body → preserves R handler → preserves R (tryExcept body e handler).
Proof.
  intros Hb Hh p. unfold tryExcept. specialize (Hb p).
  destruct (body p) as [p' [a|e']]; simpl in *; [done|].
  destruct (decide (e' = e)); simpl; [|done].
  etransitivity; [exact Hb | apply Hh].
Qed.

End Preservation.

(** What a loop has done for one of its elements, when it ran to its end. *)
Section Loops.
Import Transforms Devices Model SimulatedToolsPanel Statements.

Lemma bind_Returned {A B} (m : M A) (f : A → M B) p p' b :
  bind m f p = (p', Returned b) →
  ∃ p1 a, m p = (p1, Returned a) ∧ f a p1 = (p', Returned b).
Proof.
  unfold bind. destruct (m p) as [p1 [a|e]]; [eauto | discriminate].
Qed.

Lemma bind_assoc {A B C} (m : M A) (f : A → M B) (g : B → M C) p :
  bind (bind m f) g p = bind m (λ a, bind (f a) g) p.
Proof. unfold bind. destruct (m p) as [p1 [a|e]]; reflexivity. Qed.

Lemma bind_ext {A B} (m : M A) (f g : A → M B) p :
  (∀ a q, f a q = g a q) → bind m f p = bind m g p.
Proof. intros H. unfold bind. destruct (m p) as [p1 [a|e]]; [apply H | reflexivity]. Qed.

Lemma forEach_app {A} (l1 l2 : list A) (body : A → M unit) p :
  forEach (l1 ++ l2) body p = (forEach l1 body ;; forEach l2 body) p.
Proof.
  revert p. induction l1 as [|x l1 IH]; intros p; simpl.
  - reflexivity.
  - rewrite bind_assoc. apply bind_ext. intros _ q. apply IH.
Qed.

Lemma forEach_cons {A} (x : A) (l : list A) (body : A → M unit) p :
  forEach (x :: l) body p =
    match body x p with
    | (p1, Returned _) => forEach l body p1
    | (p1, Raised e) => (p1, Raised e)
    end.
Proof. reflexivity. Qed.

Lemma forEach_Returned_app {A} (l1 l2 : list A) (body : A → M unit) p p' :
  forEach (l1 ++ l2) body p = (p', Returned tt) →
  ∃ p1, forEach l1 body p = (p1, Returned tt) ∧ forEach l2 body p1 = (p', Returned tt).
Proof.
  rewrite forEach_app. intros (p1 & [] & H1 & H2)%bind_Returned. eauto.
Qed.

Lemma forEach_Returned_cons {A} (x : A) (l : list A) (body : A → M unit) p p' :
  forEach (x :: l) body p = (p', Returned tt) →
  ∃ p1, body x p = (p1, Returned tt) ∧ forEach l body p1 = (p', Returned tt).
Proof.
  simpl. intros (p1 & [] & H1 & H2)%bind_Returned. eauto.
Qed.

(** A loop whose body never raises does not raise. *)
Lemma forEach_returns {A} (l : list A) (body : A → M unit) :
  (∀ x p, x ∈ l → (body x p).2 = Returned tt) →
  ∀ p, (forEach l body p).2 = Returned tt.
Proof.
  induction l as [|x l IH]; intros H p; simpl; [reflexivity|].
  unfold bind. pose proof (H x p (list_elem_of_here _ _)) as Hx.
  destruct (body x p) as [p1 [[]|e]]; simpl in *; [|discriminate].
  apply IH. intros y q Hy. apply H. by right.
Qed.

End Loops.
(** * The drag callback *)

Section Drag.
Import Transforms Devices Model SimulatedToolsPanel Statements.

Lemma onNewTransf_tool env pickedKey pickedTool toolToTracker Oinv W p :
  endswith pickedKey "_tool" = true →
  toolToTrackerTransf pickedTool = Some toolToTracker →
  invertTransform (concatenateTransforms [toolStlToToolTransf pickedTool; toolToTracker])
    = Some Oinv →
  onNewTransf env pickedKey pickedTool W p =
    (withClient (recordNewPosition Sync (trackerKey pickedTool)
                   (mkTimestampedToolPosition (wallclock env (clockReads p))
                      (Some (concatenateTransforms [Oinv; W])) None))
       (withClockReads (S (clockReads p)) p),
     Returned tt).
Proof.
  intros Hk Ht Hi. unfold onNewTransf. rewrite Hk, Ht, Hi. reflexivity.
Qed.

Lemma drag_tool_forEach env pickedKey pickedTool toolToTracker Oinv Ws p :
  endswith pickedKey "_tool" = true →
  toolToTrackerTransf pickedTool = Some toolToTracker →
  invertTransform (concatenateTransforms [toolStlToToolTransf pickedTool; toolToTracker])
    = Some Oinv →
  ∃ p', forEach Ws (onNewTransf env pickedKey pickedTool) p = (p', Returned tt) ∧
    clockReads p' = clockReads p + length Ws ∧
    sentCommands (_positionsClient p') =
      (sentCommands (_positionsClient p)
       ++ imap (λ i W, dragCommand env pickedTool Oinv (clockReads p + i) W) Ws)%list ∧
    (∀ W, last Ws = Some W →
       latestPositions (_positionsClient p') !! trackerKey pickedTool =
         Some (cmdPosition (dragCommand env pickedTool Oinv
                              (clockReads p + pred (length Ws)) W))).
Proof.
  intros Hk Ht Hi. revert p. induction Ws as [|W Ws IH]; intros p.
  - exists p. simpl. rewrite Nat.add_0_r, app_nil_r. done.
  - simpl forEach. unfold bind.
    rewrite (onNewTransf_tool _ _ _ _ _ _ _ Hk Ht Hi).
    set (p1 := withClient _ _).
    destruct (IH p1) as (p' & Hrun & Hclk & Hcmds & Hlast).
    exists p'. split; [exact Hrun|]. subst p1. simpl in *.
    split; [lia|]. split.
    + rewrite Hcmds, <- app_assoc. f_equal. simpl. f_equal.
      * unfold dragCommand. by rewrite Nat.add_0_r.
      * apply imap_ext. intros i V _. simpl. f_equal. lia.
    + intros V HV. destruct Ws as [|W' Ws].
      * simpl in HV. injection HV as <-. injection Hrun as <-. simpl.
        rewrite lookup_insert_eq. unfold dragCommand. simpl. by rewrite Nat.add_0_r.
      * rewrite (Hlast V) by exact HV. simpl. do 3 f_equal. lia.
Qed.

(** C1. During the drag of a tool-mesh actor ([pickedKey] ends in
    "_tool"), whose tool has the invertible offset
    O = compose([toolStlToToolTransf, toolToTrackerTransf]), every
    intermediate world transform W that the plotter delivers is sent to
    the positions client, over the blocking call and under the tool's
    tracker key, as the pose compose([invert(O), W]), stamped with the
    wall-clock reading of that moment; the last one sent is the cached
    pose afterwards; and composing O with the committed pose gives W back
    (exactly, over the rationals). *)
Theorem drag_tool_commits_inverse_offset
    env pickedKey pickedTool toolToTracker O d p :
  endswith pickedKey "_tool" = true →
  toolToTrackerTransf pickedTool = Some toolToTracker →
  O = concatenateTransforms [toolStlToToolTransf pickedTool; toolToTracker] →
  invertible O →
  ∃ Oinv, invertTransform O = Some Oinv ∧
    let p' := (interactivelyMoveActor (onNewTransf env pickedKey pickedTool) d p).1 in
    ∀ i W, intermediate d !! i = Some W →
      let committed := concatenateTransforms [Oinv; W] in
      sentCommands (_positionsClient p') !! (length (sentCommands (_positionsClient p)) + i)
        = Some (mkCommand Sync (trackerKey pickedTool)
                  (mkTimestampedToolPosition (wallclock env (clockReads p + i))
                     (Some committed) None)) ∧
      (S i = length (intermediate d) →
         latestPositions (_positionsClient p') !! trackerKey pickedTool
           = Some (mkTimestampedToolPosition (wallclock env (clockReads p + i))
                     (Some committed) None)) ∧
      meq (concatenateTransforms [O; committed]) W.
Proof.
  intros Hk Ht -> [B HB].
  destruct (invertible_invertTransform _ _ HB) as [Oinv Hi].
  exists Oinv. split; [exact Hi|]. intros p' i W HW committed.
  destruct (drag_tool_forEach env pickedKey pickedTool toolToTracker Oinv
              (intermediate d) p Hk Ht Hi) as (q & Hrun & Hclk & Hcmds & Hlast).
  assert (p' = q) as ->.
  { subst p'. unfold interactivelyMoveActor, bind. rewrite Hrun.
    by destruct (dragEnd d). }
  split; [|split].
  - rewrite Hcmds, lookup_app_r by lia.
    replace (_ + i - _) with i by lia.
    rewrite list_lookup_imap, HW. reflexivity.
  - intros Hlen. rewrite (Hlast W).
    + unfold dragCommand. simpl. do 3 f_equal. lia.
    + rewrite last_lookup. rewrite <- Hlen. exact HW.
  - by apply concatenate_offset_cancel.
Qed.

End Drag.
Section DragExamples.
Import Transforms Devices Model SimulatedToolsPanel Statements Examples.

Lemma drag_tool_commits_inverse_offset_witness :
  let O := concatenateTransforms [toolStlToToolTransf coil; translation 1 2 3] in
  let d := mkDrag [translation 4 4 4; translation 5 6 7] DragCompleted in
  endswith "coil_tool" "_tool" = true ∧
  invertible O ∧
  ∃ Oinv, invertTransform O = Some Oinv ∧
    let p' := (interactivelyMoveActor (onNewTransf (envOf [coil]) "coil_tool" coil) d
                 freshPanel).1 in
    ∀ i W, intermediate d !! i = Some W →
      let committed := concatenateTransforms [Oinv; W] in
      sentCommands (_positionsClient p')
        !! (length (sentCommands (_positionsClient freshPanel)) + i)
        = Some (mkCommand Sync (trackerKey coil)
                  (mkTimestampedToolPosition (wallclock (envOf [coil]) (clockReads freshPanel + i))
                     (Some committed) None)) ∧
      (S i = length (intermediate d) →
         latestPositions (_positionsClient p') !! trackerKey coil
           = Some (mkTimestampedToolPosition
                     (wallclock (envOf [coil]) (clockReads freshPanel + i))
                     (Some committed) None)) ∧
      meq (concatenateTransforms [O; committed]) W.
Proof.
  intros O d.
  assert (HO : invertible O).
  { exists (translation (-1) (-2) (-8)). vm_compute. repeat split. }
  split; [reflexivity|]. split; [exact HO|].
  exact (drag_tool_commits_inverse_offset (envOf [coil]) "coil_tool" coil
           (translation 1 2 3) O d freshPanel eq_refl eq_refl eq_refl HO).
Defined.
End DragExamples.
(** * Clear-all and zero-all *)

Section ClearZero.
Import Transforms Devices Model SimulatedToolsPanel Statements.

Lemma clearAll_loop env (l : list (string * Tool)) p :
  ∃ p',
    forEach l (λ '(k, t),
      now <- timeNow env ;;
      recordNewPosition_sync (trackerKey t) (mkTimestampedToolPosition now None None)) p
      = (p', Returned tt) ∧
    clockReads p' = clockReads p + length l ∧
    sentCommands (_positionsClient p') =
      (sentCommands (_positionsClient p)
       ++ imap (λ i kt, clearCommand env (clockReads p + i) kt.2) l)%list ∧
    (∀ tk, cleared p tk ∨ tk ∈ (trackerKey ∘ snd) <$> l → cleared p' tk).
Proof.
  revert p. induction l as [|[k t] l IH]; intros p.
  - exists p. simpl. rewrite Nat.add_0_r, app_nil_r. split_and!; try done.
    intros tk [H|H]; [done|]. by apply elem_of_nil in H.
  - simpl forEach. unfold bind at 1. unfold bind at 1. cbn [timeNow recordNewPosition_sync modify].
    set (p1 := withClient _ _).
    destruct (IH p1) as (p' & Hrun & Hclk & Hcmds & Hcl).
    exists p'. split; [exact Hrun|]. subst p1. simpl in *. split; [lia|]. split.
    + rewrite Hcmds, <- app_assoc. f_equal. simpl. f_equal.
      * unfold clearCommand. by rewrite Nat.add_0_r.
      * apply imap_ext. intros i kt _. simpl. f_equal. lia.
    + intros tk Htk. apply Hcl. unfold cleared. simpl.
      destruct (decide (tk = trackerKey t)) as [->|Hne].
      * left. eexists. rewrite lookup_insert_eq. done.
      * destruct Htk as [(pos & Hpos & Hn)|Htk].
        -- left. exists pos. by rewrite lookup_insert_ne.
        -- apply elem_of_cons in Htk as [Htk|Htk]; [done|]. by right.
Qed.

(** C9. Clear-all never raises and sends, for every tool of the session
    and in their order, one pose without transform over the blocking
    (synchronous) call, under the tool's tracker key; afterwards the
    cached pose of each of these keys has no transform, so that both
    forms of [getLatestTransf] return None for it. *)
Theorem clearAllPositions_clears_every_tool env p :
  let p' := (clearAllPositions env p).1 in
  (clearAllPositions env p).2 = Returned tt ∧
  sentCommands (_positionsClient p') =
    (sentCommands (_positionsClient p)
     ++ imap (λ i kt, clearCommand env (clockReads p + i) kt.2) (tools (session env)))%list ∧
  ∀ k t, (k, t) ∈ tools (session env) →
    cleared p' (trackerKey t) ∧
    getLatestTransf (trackerKey t) p' = (p', Returned None) ∧
    getLatestTransfOrNone (trackerKey t) p' = (p', Returned None).
Proof.
  intros p'. subst p'. unfold clearAllPositions.
  destruct (clearAll_loop env (tools (session env)) p) as (p' & Hrun & _ & Hcmds & Hcl).
  rewrite Hrun. simpl. split; [done|]. split; [exact Hcmds|].
  intros k t Hkt.
  assert (cleared p' (trackerKey t)) as Hc.
  { apply Hcl. right. apply list_elem_of_fmap. by exists (k, t). }
  split; [exact Hc|]. destruct Hc as (pos & Hpos & Hn).
  unfold getLatestTransf, getLatestTransfOrNone, gets. rewrite Hpos. simpl.
  by rewrite Hn.
Qed.

Lemma relative_bind p tk :
  relative p tk ↔ is_Some (latestPositions (_positionsClient p) !! tk ≫= relativeTo).
Proof.
  unfold relative. split.
  - intros (pos & other & -> & H). simpl. by rewrite H.
  - intros [other H]. destruct (latestPositions _ !! tk) as [pos|]; [|done].
    simpl in H. eauto.
Qed.

Lemma zeroAll_loop env (l : list (string * Tool)) p :
  l ⊆ tools (session env) →
  ∃ p' new,
    forEach l (λ '(k, t),
      pos <- gets (λ p, latestPositions (_positionsClient p) !! trackerKey t) ;;
      match pos ≫= relativeTo with
      | Some _ => ret tt
      | None =>
          now <- timeNow env ;;
          recordNewPosition_sync (trackerKey t)
            (mkTimestampedToolPosition now (Some eye4) None)
      end) p = (p', Returned tt) ∧
    sentCommands (_positionsClient p') = (sentCommands (_positionsClient p) ++ new)%list ∧
    Forall (zeroCommand env p) new ∧
    (∀ tk, relative p tk →
       latestPositions (_positionsClient p') !! tk = latestPositions (_positionsClient p) !! tk) ∧
    (∀ tk, ¬ relative p tk → ¬ relative p' tk) ∧
    (∀ tk, ¬ relative p tk → zeroed p tk ∨ tk ∈ (trackerKey ∘ snd) <$> l → zeroed p' tk).
Proof.
  revert p. induction l as [|[k t] l IH]; intros p Hsub.
  - exists p, []. rewrite app_nil_r. split_and!; try done.
    intros tk _ [H|H]; [done|]. by apply elem_of_nil in H.
  - assert (l ⊆ tools (session env)) as Hsub' by set_solver.
    assert ((k, t) ∈ tools (session env)) as Hkt by set_solver.
    simpl forEach. unfold bind at 1. unfold bind at 1. cbn [gets].
    destruct (latestPositions (_positionsClient p) !! trackerKey t ≫= relativeTo)
      as [other|] eqn:Hrel.
    + (* the pose is relative: the tool is skipped *)
      cbn [ret]. destruct (IH p Hsub') as (p' & new & Hrun & Hcmds & Hnew & Hkeep & Hnrel & Hz).
      exists p', new. split_and!; try done.
      intros tk Hn [H|H]; [by apply Hz; auto|].
      apply elem_of_cons in H as [->|H]; [|by apply Hz; auto].
      exfalso. apply Hn, relative_bind. simpl. by rewrite Hrel.
    + unfold bind at 1. cbn [timeNow recordNewPosition_sync modify].
      set (pos := mkTimestampedToolPosition _ _ _).
      set (p1 := withClient _ _).
      assert (∀ tk, relative p1 tk ↔ relative p tk) as Hiff.
      { intros tk. rewrite !relative_bind. subst p1. simpl.
        destruct (decide (tk = trackerKey t)) as [->|Hne].
        - rewrite lookup_insert_eq, Hrel. simpl. split; intros [? ?]; done.
        - by rewrite lookup_insert_ne. }
      destruct (IH p1 Hsub') as (p' & new & Hrun & Hcmds & Hnew & Hkeep & Hnrel & Hz).
      exists p', (mkCommand Sync (trackerKey t) pos :: new).
      split; [exact Hrun|]. split_and!.
      * rewrite Hcmds. subst p1. simpl. by rewrite <- app_assoc.
      * constructor.
        -- unfold zeroCommand. simpl. split_and!; try done.
           ++ rewrite relative_bind, Hrel. by intros [? ?].
           ++ eauto.
        -- eapply Forall_impl; [exact Hnew|]. intros c (?&?&?&Hn&?).
           unfold zeroCommand. split_and!; try done. by rewrite <- Hiff.
      * intros tk Hr. rewrite Hkeep by (by apply Hiff). subst p1. simpl.
        apply lookup_insert_ne. intros <-. apply relative_bind in Hr.
        rewrite Hrel in Hr. by destruct Hr.
      * intros tk Hn. apply Hnrel. by rewrite Hiff.
      * intros tk Hn Htk. apply Hz; [by rewrite Hiff|].
        destruct (decide (tk = trackerKey t)) as [->|Hne].
        -- left. eexists. subst p1. simpl. by rewrite lookup_insert_eq.
        -- destruct Htk as [[t0 Ht0]|Htk].
           ++ left. exists t0. subst p1. simpl. by rewrite lookup_insert_ne.
           ++ apply elem_of_cons in Htk as [Htk|Htk]; [done|]. by right.
Qed.

Lemma hasRelativePose_relative p tk : hasRelativePose p tk = true ↔ relative p tk.
Proof.
  rewrite relative_bind. unfold hasRelativePose.
  destruct (latestPositions (_positionsClient p) !! tk ≫= relativeTo); split;
    first [done | by intros [? ?] | by eexists].
Qed.

(** What the loop of zero-all sends: one identity per tool that is not
    skipped, in the order of the loop. *)
Lemma zeroAll_loop_commands env (l : list (string * Tool)) p :
  let body := λ '(k, t),
    pos <- gets (λ p, latestPositions (_positionsClient p) !! trackerKey t) ;;
    match pos ≫= relativeTo with
    | Some _ => ret tt
    | None =>
        now <- timeNow env ;;
        recordNewPosition_sync (trackerKey t)
          (mkTimestampedToolPosition now (Some eye4) None)
    end in
  sentCommands (_positionsClient (forEach l body p).1) =
    (sentCommands (_positionsClient p)
     ++ imap (λ i kt, zeroCommandFor env (clockReads p + i) kt.2)
          (filter (λ kt, hasRelativePose p (trackerKey kt.2) = false) l))%list.
Proof.
  intros body. revert p. induction l as [|[k t] l IH]; intros p.
  - simpl. by rewrite app_nil_r.
  - rewrite forEach_cons. unfold body at 1. unfold bind at 1. cbn [gets].
    rewrite filter_cons. cbn [snd].
    destruct (latestPositions (_positionsClient p) !! trackerKey t ≫= relativeTo)
      as [other|] eqn:Hrel.
    + assert (hasRelativePose p (trackerKey t) = true) as Hh
        by (unfold hasRelativePose; by rewrite Hrel).
      cbn [ret]. rewrite decide_False by (by rewrite Hh). apply IH.
    + assert (hasRelativePose p (trackerKey t) = false) as Hh
        by (unfold hasRelativePose; by rewrite Hrel).
      rewrite decide_True by done.
      unfold bind at 1. cbn [timeNow recordNewPosition_sync modify].
      set (p1 := withClient _ _).
      assert (∀ tk, hasRelativePose p1 tk = hasRelativePose p tk) as Hsame.
      { intros tk. unfold hasRelativePose. subst p1. simpl.
        destruct (decide (tk = trackerKey t)) as [->|Hne].
        - by rewrite lookup_insert_eq, Hrel.
        - by rewrite lookup_insert_ne. }
      rewrite IH. subst p1. simpl. rewrite <- app_assoc. f_equal. simpl.
      f_equal.
      * unfold zeroCommandFor. by rewrite Nat.add_0_r.
      * erewrite (list_filter_iff _ (λ kt, hasRelativePose p (trackerKey kt.2) = false)).
        -- apply imap_ext. intros i kt _. simpl. f_equal. lia.
        -- intros kt. by rewrite Hsame.
Qed.

(** C3. Zero-all never raises.  It sends one identity transform in the
    world frame, over the blocking call and stamped with the wall-clock
    reading of its moment, for every tool of the session whose cached
    pose is absent or has no [relativeTo], in the order of the session,
    and nothing else (the method does not read [isActive], so the active
    tools are among them); the cached pose of each of these tools is the
    identity afterwards.  Every tool whose cached pose has a [relativeTo]
    is skipped: no command is sent under its key and its cached pose is
    left as it was. *)
Theorem zeroAllPositions_zeroes_absolute_skips_relative env p :
  let p' := (zeroAllPositions env p).1 in
  (zeroAllPositions env p).2 = Returned tt ∧
  sentCommands (_positionsClient p') =
    (sentCommands (_positionsClient p)
     ++ imap (λ i kt, zeroCommandFor env (clockReads p + i) kt.2) (zeroedTools env p))%list ∧
  (∀ k t, (k, t) ∈ tools (session env) →
     ((k, t) ∈ zeroedTools env p ↔ ¬ relative p (trackerKey t)) ∧
     (isActive t = true → ¬ relative p (trackerKey t) → zeroed p' (trackerKey t)) ∧
     (¬ relative p (trackerKey t) → zeroed p' (trackerKey t)) ∧
     (relative p (trackerKey t) →
        latestPositions (_positionsClient p') !! trackerKey t
          = latestPositions (_positionsClient p) !! trackerKey t)) ∧
  ∃ new,
    sentCommands (_positionsClient p') = (sentCommands (_positionsClient p) ++ new)%list ∧
    Forall (zeroCommand env p) new.
Proof.
  intros p'. subst p'.
  pose proof (zeroAll_loop_commands env (tools (session env)) p) as Hexact.
  cbv zeta in Hexact. fold (zeroAllPositions env) in Hexact.
  unfold zeroAllPositions in *.
  destruct (zeroAll_loop env (tools (session env)) p) as
    (p' & new & Hrun & Hcmds & Hnew & Hkeep & _ & Hz); [done|].
  rewrite Hrun in Hexact |- *. simpl in Hexact |- *.
  split; [done|]. split; [exact Hexact|]. split; [|by exists new].
  intros k t Hkt.
  assert (¬ relative p (trackerKey t) → zeroed p' (trackerKey t)) as H.
  { intros Hn. apply Hz; [done|]. right. apply list_elem_of_fmap. by exists (k, t). }
  split_and!; auto.
  unfold zeroedTools. rewrite list_elem_of_filter. simpl.
  rewrite <- hasRelativePose_relative. destruct (hasRelativePose p (trackerKey t)); naive_solver.
Qed.

End ClearZero.
(** * Snapshots *)

Section Snapshots.
Import Transforms Devices Model SimulatedToolsPanel Statements.

Lemma ofRowMajor_toRowMajor A : ofRowMajor (toRowMajor A) = Some A.
Proof. by destruct A as [[] [] [] []]. Qed.

(** The dictionary form loses nothing. *)
Lemma fromDict_asDict pos : fromDict (asDict pos) = Some pos.
Proof.
  destruct pos as [t [A|] r]; [|done].
  unfold fromDict, asDict. cbn [dictTransf transf fmap option_fmap option_map].
  by rewrite ofRowMajor_toRowMajor.
Qed.

Lemma convertEntries_asDict (l : list (string * TimestampedToolPosition)) :
  convertEntries (prod_map id asDict <$> l) = Some l.
Proof.
  induction l as [|[k pos] l IH]; [done|].
  rewrite fmap_cons. cbn [convertEntries prod_map fst snd id].
  by rewrite fromDict_asDict, IH.
Qed.

(** The entries of an exported map, in the order the import walks them. *)
Lemma map_to_list_asDict (m : gmap string TimestampedToolPosition) :
  ∃ l, map_to_list (asDict <$> m) = prod_map id asDict <$> l ∧
       l ≡ₚ map_to_list m.
Proof.
  exists (map_to_list m). split; [apply map_to_list_fmap | done].
Qed.

Lemma dropRelative_fold (ks : list string) (m : gmap string PositionDict) k :
  foldl (λ m k,
           match m !! k with
           | Some tsPosDict =>
               match dictRelativeTo tsPosDict with
               | Some _ => delete k m
               | None => m
               end
           | None => m
           end) m ks !! k
  = match m !! k with
    | Some d =>
        match dictRelativeTo d with
        | Some _ => if decide (k ∈ ks) then None else Some d
        | None => Some d
        end
    | None => None
    end.
Proof.
  revert m. induction ks as [|k0 ks IH]; intros m; simpl.
  - destruct (m !! k) as [d|]; [|done]. by destruct (dictRelativeTo d).
  - rewrite IH. clear IH.
    destruct (decide (k = k0)) as [->|Hne].
    + destruct (m !! k0) as [d|] eqn:Hd.
      * destruct (dictRelativeTo d) eqn:Hr.
        -- rewrite lookup_delete_eq. rewrite decide_True by left. done.
        -- by rewrite Hd, Hr.
      * by rewrite Hd.
    + assert (match m !! k0 with
              | Some tsPosDict =>
                  match dictRelativeTo tsPosDict with
                  | Some _ => delete k0 m
                  | None => m
                  end
              | None => m
              end !! k = m !! k) as ->.
      { destruct (m !! k0) as [d0|]; [|done].
        destruct (dictRelativeTo d0); [|done]. by rewrite lookup_delete_ne. }
      destruct (m !! k) as [d|]; [|done]. destruct (dictRelativeTo d); [|done].
      destruct (decide (k ∈ ks)) as [Hin|Hnin].
      * rewrite decide_True; [done | by right].
      * rewrite decide_False; [done|]. intros [?|?]%elem_of_cons; done.
Qed.

Lemma dropRelative_lookup (m : gmap string PositionDict) k :
  dropRelative m !! k =
    match m !! k with
    | Some d => match dictRelativeTo d with Some _ => None | None => Some d end
    | None => None
    end.
Proof.
  unfold dropRelative. rewrite dropRelative_fold.
  destruct (m !! k) as [d|] eqn:Hd; [|done].
  destruct (dictRelativeTo d); [|done].
  rewrite decide_True; [done|].
  apply list_elem_of_fmap. exists (k, d). split; [done|]. by apply elem_of_map_to_list.
Qed.

Lemma length_nonzero_eqb (f : string) : f ≠ "" → Nat.eqb (String.length f) 0 = false.
Proof. destruct f; [done|]. intros _. reflexivity. Qed.

(** C7. With the flag [doIncludeToolsWithRelativePositions] at its
    default (False) and a file path chosen, the export writes a snapshot
    that holds, for every key, the dictionary of the cached pose when that
    pose has no [relativeTo], and nothing when the pose has one (or when
    there is no cached pose): the entries with a [relativeTo] are exactly
    the ones left out. *)
Theorem exportPositionsSnapshot_default_keeps_absolute filepath dialogAnswer p :
  default dialogAnswer filepath ≠ "" →
  ∃ snapshot,
    exportPositionsSnapshot filepath doIncludeToolsWithRelativePositions_default dialogAnswer p
      = (withFiles (insert (default dialogAnswer filepath) snapshot) p, Returned tt) ∧
    ∀ k, snapshot !! k = absoluteEntry (latestPositions (_positionsClient p) !! k).
Proof.
  intros Hf. exists (dropRelative (asDict <$> latestPositions (_positionsClient p))).
  split.
  - unfold exportPositionsSnapshot. by rewrite length_nonzero_eqb.
  - intros k. rewrite dropRelative_lookup, lookup_fmap.
    by destruct (latestPositions (_positionsClient p) !! k) as [pos|].
Qed.

Lemma export_all filepath dialogAnswer p :
  default dialogAnswer filepath ≠ "" →
  exportPositionsSnapshot filepath true dialogAnswer p
    = (withFiles (insert (default dialogAnswer filepath)
                    (asDict <$> latestPositions (_positionsClient p))) p, Returned tt).
Proof. intros Hf. unfold exportPositionsSnapshot. by rewrite length_nonzero_eqb. Qed.

Lemma import_loop env (entries : list (string * TimestampedToolPosition)) p :
  NoDup entries.*1 →
  ∃ p',
    forEach entries (λ '(k, tsPos),
      now <- timeNow env ;;
      recordNewPosition_async k
        (mkTimestampedToolPosition now (transf tsPos) (relativeTo tsPos))) p
      = (p', Returned tt) ∧
    clockReads p' = clockReads p + length entries ∧
    sentCommands (_positionsClient p') =
      (sentCommands (_positionsClient p)
       ++ imap (λ i e, importCommand env (clockReads p + i) e) entries)%list ∧
    (∀ i k pos, entries !! i = Some (k, pos) →
       latestPositions (_positionsClient p') !! k =
         Some (mkTimestampedToolPosition (wallclock env (clockReads p + i))
                 (transf pos) (relativeTo pos))) ∧
    (∀ k, k ∉ entries.*1 →
       latestPositions (_positionsClient p') !! k = latestPositions (_positionsClient p) !! k).
Proof.
  revert p. induction entries as [|[k0 pos0] l IH]; intros p Hnd.
  - exists p. simpl. rewrite Nat.add_0_r, app_nil_r. split_and!; done.
  - apply NoDup_cons in Hnd as [Hk0 Hnd]. simpl in Hk0.
    simpl forEach. unfold bind at 1. unfold bind at 1.
    cbn [timeNow recordNewPosition_async modify].
    set (p1 := withClient _ _).
    destruct (IH p1 Hnd) as (p' & Hrun & Hclk & Hcmds & Hin & Hout).
    exists p'. split; [exact Hrun|]. subst p1. simpl in *. split; [lia|]. split_and!.
    + rewrite Hcmds, <- app_assoc. f_equal. simpl. f_equal.
      * unfold importCommand. simpl. by rewrite Nat.add_0_r.
      * apply imap_ext. intros i e _. simpl. f_equal. lia.
    + intros [|i] k pos Hi; simpl in Hi.
      * injection Hi as -> ->. rewrite Hout by done.
        rewrite lookup_insert_eq. by rewrite Nat.add_0_r.
      * rewrite (Hin i k pos Hi). do 3 f_equal. lia.
    + intros k Hk. apply not_elem_of_cons in Hk as [Hne Hk].
      rewrite Hout by done. by rewrite lookup_insert_ne.
Qed.

(** C8. A snapshot exported with the relative-pose filter switched off
    and then imported (into any panel that sees the file) is sent back
    pose by pose: the import does not raise; it sends, over the awaited
    call and in the order of the snapshot, one pose per key that had a
    cached pose at export time, with the transform and the [relativeTo]
    of that pose and the wall-clock reading of its moment as time, and
    nothing else; afterwards the pose cached under each of these keys is
    the one that was sent for it, and the keys without a pose at export
    time are left as they were. *)
Theorem export_then_import_round_trip env filepath p q :
  filepath ≠ "" →
  files q !! filepath = files (exportPositionsSnapshot (Some filepath) true "" p).1 !! filepath →
  let r := importPositionsSnapshot env (Some filepath) None "" q in
  r.2 = Returned tt ∧
  sentCommands (_positionsClient r.1) =
    (sentCommands (_positionsClient q)
     ++ imap (λ i e, importCommand env (clockReads q + i) e)
          (map_to_list (latestPositions (_positionsClient p))))%list ∧
  ∀ k,
    match latestPositions (_positionsClient p) !! k with
    | Some pos =>
        ∃ i, clockReads q ≤ i < clockReads r.1 ∧
          latestPositions (_positionsClient r.1) !! k =
            Some (mkTimestampedToolPosition (wallclock env i) (transf pos) (relativeTo pos))
    | None =>
        latestPositions (_positionsClient r.1) !! k = latestPositions (_positionsClient q) !! k
    end.
Proof.
  intros Hf Hfile r. rewrite export_all in Hfile by done. simpl in Hfile.
  rewrite lookup_insert_eq in Hfile.
  set (l := map_to_list (latestPositions (_positionsClient p))).
  assert (NoDup l.*1) as Hnd by apply NoDup_fst_map_to_list.
  destruct (import_loop env l q Hnd) as (q' & Hrun & Hclk & Hcmds & Hin & Hout).
  assert (r = (q', Returned tt)) as ->.
  { subst r. unfold importPositionsSnapshot.
    change (default "" (Some filepath)) with filepath.
    rewrite length_nonzero_eqb by done. unfold bind, gets. cbv beta iota.
    change (default "" (Some filepath)) with filepath. rewrite Hfile.
    unfold importEntries. rewrite map_to_list_fmap. fold l.
    rewrite convertEntries_asDict. exact Hrun. }
  simpl. split; [done|]. split; [exact Hcmds|]. intros k.
  destruct (latestPositions (_positionsClient p) !! k) as [pos|] eqn:Hk.
  - assert ((k, pos) ∈ l) as Hel by (by apply elem_of_map_to_list).
    apply list_elem_of_lookup in Hel as [i Hi].
    exists (clockReads q + i). split.
    + apply lookup_lt_Some in Hi. lia.
    + by apply (Hin i k pos).
  - apply Hout. intros ((k' & pos) & -> & Hel)%list_elem_of_fmap.
    apply elem_of_map_to_list in Hel. simpl in *. congruence.
Qed.

End Snapshots.
Section SnapshotExamples.
Import Examples.

Lemma exportPositionsSnapshot_default_keeps_absolute_witness :
  default "" (Some "snapshot.json") ≠ "" ∧
  ∃ snapshot,
    exportPositionsSnapshot (Some "snapshot.json")
      doIncludeToolsWithRelativePositions_default "" mixedPoses
      = (withFiles (insert (default "" (Some "snapshot.json")) snapshot) mixedPoses,
         Returned tt) ∧
    ∀ k, snapshot !! k = absoluteEntry (latestPositions (_positionsClient mixedPoses) !! k).
Proof.
  assert (H : default "" (Some "snapshot.json") ≠ "") by discriminate.
  split; [exact H|].
  exact (exportPositionsSnapshot_default_keeps_absolute (Some "snapshot.json") "" mixedPoses H).
Defined.

Lemma export_then_import_round_trip_witness :
  let env := envOf [coil; pointer] in
  let q := (exportPositionsSnapshot (Some "snapshot.json") true "" mixedPoses).1 in
  "snapshot.json" ≠ "" ∧
  let r := importPositionsSnapshot env (Some "snapshot.json") None "" q in
  r.2 = Returned tt ∧
  sentCommands (_positionsClient r.1) =
    (sentCommands (_positionsClient q)
     ++ imap (λ i e, importCommand env (clockReads q + i) e)
          (map_to_list (latestPositions (_positionsClient mixedPoses))))%list ∧
  ∀ k,
    match latestPositions (_positionsClient mixedPoses) !! k with
    | Some pos =>
        ∃ i, clockReads q ≤ i < clockReads r.1 ∧
          latestPositions (_positionsClient r.1) !! k =
            Some (mkTimestampedToolPosition (wallclock env i) (transf pos) (relativeTo pos))
    | None =>
        latestPositions (_positionsClient r.1) !! k = latestPositions (_positionsClient q) !! k
    end.
Proof.
  intros env q.
  assert (H : "snapshot.json" ≠ "") by discriminate.
  split; [exact H|].
  exact (export_then_import_round_trip env "snapshot.json" mixedPoses q H eq_refl).
Defined.

(** The round trip of the two poses: two commands over the awaited call,
    the pointer's with its [relativeTo]. *)
Example round_trip_scenario :
  let env := envOf [coil; pointer] in
  let q := (exportPositionsSnapshot (Some "snapshot.json") true "" mixedPoses).1 in
  let r := importPositionsSnapshot env (Some "snapshot.json") None "" q in
  (λ c, (cmdMode c, cmdKey c, relativeTo (cmdPosition c)))
    <$> sentCommands (_positionsClient r.1)
  = [(Async, "coil", None); (Async, "pointer", Some "coil")].
Proof. by vm_compute. Qed.

(** The scenario of the specification: zero-all leaves the pose of the
    pointer, which is relative to the coil, as it is and makes the pose of
    the coil the identity. *)
Example zeroAll_scenario :
  let p' := (zeroAllPositions (envOf [coil; pointer]) mixedPoses).1 in
  latestPositions (_positionsClient p') !! "pointer"
    = Some (mkTimestampedToolPosition 2 (Some (translation 0 0 1)) (Some "coil")) ∧
  latestPositions (_positionsClient p') !! "coil"
    = Some (mkTimestampedToolPosition (clock 0) (Some eye4) None).
Proof. split; by vm_compute. Qed.

(** The scenario of the specification: after clear-all on three tools
    the latest transform of each is None. *)
Example clearAll_scenario :
  let env := envOf [coil; pointer; flat] in
  let p' := (clearAllPositions env mixedPoses).1 in
  (getLatestTransf "coil" p').2 = Returned None ∧
  (getLatestTransf "pointer" p').2 = Returned None ∧
  (getLatestTransf "flat" p').2 = Returned None.
Proof. split_and!; by vm_compute. Qed.

(** The default export of the two poses holds the coil only. *)
Example export_scenario :
  let p' := (exportPositionsSnapshot (Some "snapshot.json")
               doIncludeToolsWithRelativePositions_default "" mixedPoses).1 in
  dom <$> files p' !! "snapshot.json" = Some ({[ "coil" ]} : gset string).
Proof. by vm_compute. Qed.
End SnapshotExamples.
(** * Frames of the methods *)

Section Frames.
Import Transforms Devices Model SimulatedToolsPanel Statements.

Global Instance same_preorder {X} (f : Panel → X) : PreOrder (same f).
Proof.
  split.
  - intros p. reflexivity.
  - intros p q r H1 H2. unfold same in *. congruence.
Qed.

Global Instance restoredStays_preorder : PreOrder restoredStays.
Proof. split; unfold restoredStays; [intros p | intros p q r]; auto. Qed.

End Frames.

(** The statements of a method body, one by one: each keeps whatever
    relation its own state change keeps. *)
Ltac preserves_prim :=
  let p := fresh "p" in
  intros p;
  unfold timeNow, getLatestTransf, getLatestTransfOrNone, recordNewPosition_sync,
    recordNewPosition_async, render, addMesh, remove_actor, actorsGet, actorsSet,
    sessionTool, SimulatedToolsPanel.modify, SimulatedToolsPanel.gets,
    SimulatedToolsPanel.ret, SimulatedToolsPanel.raise;
  unfold same, restoredStays;
  repeat case_match; simpl;
  first [ reflexivity | done
        | by rewrite lookup_insert_ne | by rewrite lookup_delete_ne ].

Ltac preserves_step :=
  first
    [ apply preserves_ret; apply _
    | apply preserves_raise; apply _
    | apply preserves_gets; apply _
    | apply preserves_bind; [apply _ | | intros ?]
    | apply preserves_tryExcept; [apply _ | | ]
    | apply preserves_forEach; [apply _ | intros ? ?]
    | match goal with
      | |- preserves _ (match ?x with _ => _ end) => destruct x eqn:?
      | |- preserves _ (if ?x then _ else _) => destruct x eqn:?
      end ].

Ltac preserves_tac := repeat preserves_step; try preserves_prim.

Section FramesOfRefresh.

Lemma refreshActors_same_client env : preserves (same _positionsClient) (refreshActors env).
Proof.
  unfold refreshActors, refreshTool, refreshActor, hideActor, showToolOrTracker,
    showSubject, reconcileVisibility.
  preserves_tac.
Qed.

Lemma mirrorPositions_same_client env : preserves (same _positionsClient) (mirrorPositions env).
Proof. unfold mirrorPositions. preserves_tac. Qed.

End FramesOfRefresh.
(** * The startup restore *)

Section Restore.

Global Instance keepsPoses_preorder : PreOrder keepsPoses.
Proof. split; unfold keepsPoses; [intros p | intros p q r]; auto. Qed.

(** One round of the restore loop: a persisted pose is sent exactly when
    it has a transform and nothing is cached under its key. *)
Lemma restore_round env (trackerKey : string) (pose : SimulatedToolPose) p :
  (match poseTransf pose with
   | None => ret tt
   | Some T =>
       tryExcept (getLatestTransf trackerKey ;; ret tt) KeyError
         (t <- timeNow env ;;
          recordNewPosition_sync trackerKey
            (mkTimestampedToolPosition t (Some T) (poseRelativeTo pose)))
   end) p
  = match poseTransf pose, latestPositions (_positionsClient p) !! trackerKey with
    | Some T, None =>
        (withClient (recordNewPosition Sync trackerKey
                       (mkTimestampedToolPosition (wallclock env (clockReads p)) (Some T)
                          (poseRelativeTo pose)))
           (withClockReads (S (clockReads p)) p), Returned tt)
    | _, _ => (p, Returned tt)
    end.
Proof.
  destruct (poseTransf pose) as [T|]; [|done].
  unfold tryExcept, bind, getLatestTransf.
  by destruct (latestPositions (_positionsClient p) !! trackerKey).
Qed.

Lemma restore_loop env (l : list (string * SimulatedToolPose)) p :
  NoDup l.*1 →
  ∃ p',
    forEach l (λ '(trackerKey, pose),
      match poseTransf pose with
      | None => ret tt
      | Some T =>
          tryExcept (getLatestTransf trackerKey ;; ret tt) KeyError
            (t <- timeNow env ;;
             recordNewPosition_sync trackerKey
               (mkTimestampedToolPosition t (Some T) (poseRelativeTo pose)))
      end) p = (p', Returned tt) ∧
    keepsPoses p p' ∧
    (∀ k pose T, (k, pose) ∈ l → poseTransf pose = Some T →
       latestPositions (_positionsClient p) !! k = None →
       ∃ t, latestPositions (_positionsClient p') !! k
              = Some (mkTimestampedToolPosition t (Some T) (poseRelativeTo pose))) ∧
    (∀ k, k ∉ l.*1 →
       latestPositions (_positionsClient p') !! k = latestPositions (_positionsClient p) !! k).
Proof.
  revert p. induction l as [|[k0 pose0] l IH]; intros p Hnd.
  - exists p. split_and!; try done. intros k pose T H. by apply elem_of_nil in H.
  - apply NoDup_cons in Hnd as [Hk0 Hnd]. simpl in Hk0.
    simpl forEach. unfold bind at 1. rewrite restore_round.
    destruct (poseTransf pose0) as [T0|] eqn:HT0;
      [destruct (latestPositions (_positionsClient p) !! k0) eqn:Hc0|].
    + (* something is cached already: nothing is sent *)
      destruct (IH p Hnd) as (p' & Hrun & Hkeep & Hnew & Hout).
      exists p'. split_and!; try done.
      * intros k pose T [Heq|Hin]%elem_of_cons HT Hc; [|by eapply Hnew].
        injection Heq as -> ->. by rewrite Hc0 in Hc.
      * intros k [? ?]%not_elem_of_cons. by apply Hout.
    + set (p1 := withClient _ _).
      destruct (IH p1 Hnd) as (p' & Hrun & Hkeep & Hnew & Hout).
      exists p'. split; [exact Hrun|]. split_and!.
      * intros k pos Hk. apply Hkeep. subst p1. simpl.
        rewrite lookup_insert_ne; [done | congruence].
      * intros k pose T [Heq|Hin]%elem_of_cons HT Hc.
        -- injection Heq as -> ->. eexists. rewrite Hout by done.
           subst p1. simpl. rewrite lookup_insert_eq. rewrite HT0 in HT.
           by injection HT as ->.
        -- eapply Hnew; [done..|]. subst p1. simpl.
           rewrite lookup_insert_ne; [done|]. intros <-. apply Hk0.
           apply list_elem_of_fmap. by exists (k0, pose).
      * intros k [? ?]%not_elem_of_cons. rewrite Hout by done.
        subst p1. simpl. by rewrite lookup_insert_ne.
    + destruct (IH p Hnd) as (p' & Hrun & Hkeep & Hnew & Hout).
      exists p'. split_and!; try done.
      * intros k pose T [Heq|Hin]%elem_of_cons HT Hc; [|by eapply Hnew].
        injection Heq as -> ->. by rewrite HT0 in HT.
      * intros k [? ?]%not_elem_of_cons. by apply Hout.
Qed.

Lemma restorePositions_spec env p :
  ∃ p',
    restorePositions env p = (p', Returned tt) ∧
    _hasRestoredPositions p' = _hasRestoredPositions p ∧
    keepsPoses p p' ∧
    (∀ k pose T, configPoses p !! k = Some pose → poseTransf pose = Some T →
       latestPositions (_positionsClient p) !! k = None →
       ∃ t, latestPositions (_positionsClient p') !! k
              = Some (mkTimestampedToolPosition t (Some T) (poseRelativeTo pose))).
Proof.
  unfold restorePositions, bind at 1, gets.
  destruct (restore_loop env (map_to_list (configPoses p)) p) as (p' & Hrun & Hkeep & Hnew & _).
  { apply NoDup_fst_map_to_list. }
  exists p'. split; [exact Hrun|]. split_and!; try done.
  - match type of Hrun with
    | ?m p = _ => assert (preserves (same _hasRestoredPositions) m) as H
    end.
    { apply preserves_forEach; [apply _|]. intros [k pose] _. preserves_tac. }
    specialize (H p). by rewrite Hrun in H.
  - intros k pose T Hk. apply Hnew. by apply elem_of_map_to_list.
Qed.






Lemma onLatestPositionsChanged_unfold env p :
  _onLatestPositionsChanged env p =
    if _hasRestoredPositions p then (mirrorPositions env ;; refreshActors env) p
    else (mirrorPositions env ;; refreshActors env)
           (withRestored true (restorePositions env p).1).
Proof.
  unfold _onLatestPositionsChanged, bind at 1, gets.
  destruct (_hasRestoredPositions p); simpl negb; cbv iota.
  - reflexivity.
  - destruct (restorePositions_spec env p) as (p1 & Hrun & _).
    unfold bind at 1. unfold bind at 1. rewrite Hrun. reflexivity.
Qed.

Lemma mirror_refresh_same_client env :
  preserves (same _positionsClient) (mirrorPositions env ;; refreshActors env).
Proof.
  apply preserves_bind; [apply _ | apply mirrorPositions_same_client | intros _].
  apply refreshActors_same_client.
Qed.


Lemma filter_ext_elem {A} (P1 P2 : A → Prop) `{∀ x, Decision (P1 x)} `{∀ x, Decision (P2 x)}
    (l : list A) :
  (∀ x, x ∈ l → P1 x ↔ P2 x) → filter P1 l = filter P2 l.
Proof.
  induction l as [|x l IH]; intros Hiff; [done|].
  rewrite !filter_cons. rewrite IH by (intros y Hy; apply Hiff; by right).
  destruct (decide (P1 x)) as [H1|H1], (decide (P2 x)) as [H2|H2]; try done;
    exfalso; apply (Hiff x (list_elem_of_here _ _)) in H1 || apply (Hiff x (list_elem_of_here _ _)) in H2; done.
Qed.

(** What the restore loop sends: one pose per persisted entry that has a
    transform and no cached pose under its key, in the order of the
    loop. *)
Lemma restore_loop_commands env (l : list (string * SimulatedToolPose)) p :
  NoDup l.*1 →
  let body := λ '(trackerKey, pose),
    match poseTransf pose with
    | None => ret tt
    | Some T =>
        tryExcept (getLatestTransf trackerKey ;; ret tt) KeyError
          (t <- timeNow env ;;
           recordNewPosition_sync trackerKey
             (mkTimestampedToolPosition t (Some T) (poseRelativeTo pose)))
    end in
  sentCommands (_positionsClient (forEach l body p).1) =
    (sentCommands (_positionsClient p)
     ++ imap (λ i kp, restoreCommand env (clockReads p + i) kp)
          (filter (λ kp, needsRestore p kp = true) l))%list.
Proof.
  intros Hnd body. revert p. induction l as [|[k0 pose0] l IH]; intros p.
  - simpl. by rewrite app_nil_r.
  - apply NoDup_cons in Hnd as [Hk0 Hnd]. simpl in Hk0.
    rewrite forEach_cons. unfold body at 1. rewrite restore_round.
    rewrite filter_cons.
    destruct (poseTransf pose0) as [T0|] eqn:HT0;
      [destruct (latestPositions (_positionsClient p) !! k0) eqn:Hc0|].
    + assert (needsRestore p (k0, pose0) = false) as Hn
        by (unfold needsRestore; simpl; by rewrite HT0, Hc0).
      rewrite decide_False by (by rewrite Hn). by apply IH.
    + assert (needsRestore p (k0, pose0) = true) as Hn
        by (unfold needsRestore; simpl; by rewrite HT0, Hc0).
      rewrite decide_True by done.
      set (p1 := withClient _ _).
      rewrite (IH Hnd p1). subst p1. simpl. rewrite <- app_assoc. f_equal. simpl.
      f_equal.
      * unfold restoreCommand. simpl. by rewrite Nat.add_0_r, HT0.
      * rewrite (filter_ext_elem _ (λ kp, needsRestore p kp = true)).
        -- apply imap_ext. intros i kp _. simpl. f_equal. lia.
        -- intros [k pose] Hin. unfold needsRestore. simpl.
           rewrite lookup_insert_ne; [done|]. intros <-. apply Hk0.
           apply list_elem_of_fmap. by exists (k0, pose).
    + assert (needsRestore p (k0, pose0) = false) as Hn
        by (unfold needsRestore; simpl; by rewrite HT0).
      rewrite decide_False by (by rewrite Hn). by apply IH.
Qed.

Lemma restorePositions_commands env p :
  sentCommands (_positionsClient (restorePositions env p).1) =
    (sentCommands (_positionsClient p)
     ++ imap (λ i kp, restoreCommand env (clockReads p + i) kp) (toRestore p))%list.
Proof.
  unfold restorePositions, bind at 1, gets. cbv beta iota.
  apply (restore_loop_commands env (map_to_list (configPoses p)) p).
  apply NoDup_fst_map_to_list.
Qed.


End Restore.
Section RestoreExamples.
Import Examples.

(** A restore at work: the configuration holds a pose for the coil, which
    the cache knows already, and one for the flat tool, which it does
    not.  The first run sends the pose of the flat tool and nothing else,
    and leaves the pose of the coil as it is; a second run sends
    nothing. *)
Example restore_scenario :
  let env := envOf [coil; flat] in
  let p := withConfigPoses (λ _,
             {[ "coil" := mkSimulatedToolPose "coil" (Some (translation 9 9 9)) None;
                "flat" := mkSimulatedToolPose "flat" (Some (translation 0 0 2)) None ]})
             mixedPoses in
  let p' := (_onLatestPositionsChanged env p).1 in
  let p'' := (_onLatestPositionsChanged env p').1 in
  toRestore p = [("flat", mkSimulatedToolPose "flat" (Some (translation 0 0 2)) None)] ∧
  sentCommands (_positionsClient p') =
    [mkCommand Sync "flat"
       (mkTimestampedToolPosition (clock 0) (Some (translation 0 0 2)) None)] ∧
  latestPositions (_positionsClient p') !! "coil"
    = latestPositions (_positionsClient p) !! "coil" ∧
  _hasRestoredPositions p' = true ∧
  sentCommands (_positionsClient p'') = sentCommands (_positionsClient p').
Proof. split_and!; by vm_compute. Qed.

End RestoreExamples.
Section ZeroExamples.
Import Examples.

(** The scenario of the specification, seen from the server: zero-all
    sends one identity, for the coil; the pointer, whose pose is relative
    to the coil, gets no command. *)
Example zeroAll_commands_scenario :
  let env := envOf [coil; pointer] in
  zeroedTools env mixedPoses = [("coil", coil)] ∧
  sentCommands (_positionsClient (zeroAllPositions env mixedPoses).1)
    = [zeroCommandFor env 0 coil].
Proof. split; by vm_compute. Qed.

End ZeroExamples.
(** * The drag session and the moving set *)

Section DragSession.
Import Examples.

Lemma drag_same_moving env pickedKey pickedTool d :
  preserves (same _currentlyMovingActors)
    (interactivelyMoveActor (onNewTransf env pickedKey pickedTool) d).
Proof. unfold interactivelyMoveActor, onNewTransf. preserves_tac. Qed.

Lemma toolOfActorKey_pure env pickedKey p : (toolOfActorKey env pickedKey p).1 = p.
Proof.
  unfold toolOfActorKey, sessionTool.
  repeat case_match; reflexivity.
Qed.

(** C4, as the code has it.  When [selectAndMoveTool] returns normally
    after a drag (the awaited interactive move has returned, line 473
    has run), the key of the actor that was dragged is not in the moving
    set. *)
Theorem selectAndMoveTool_normal_exit_clears_moving env pickedActor userPick d p p' :
  selectAndMoveTool env pickedActor userPick d p = (p', Returned tt) →
  ∀ pickedKey rest,
    keysOfActor (_actors p)
      (match pickedActor with None => userPick | Some a => Some a end) = pickedKey :: rest →
    pickedKey ∉ _currentlyMovingActors p'.
Proof.
  unfold selectAndMoveTool. unfold bind at 1. unfold gets at 1. cbv beta iota.
  destruct (keysOfActor _ _) as [|pickedKey rest] eqn:Hkeys.
  { intros _ ? ? [=]. }
  unfold bind at 1. pose proof (toolOfActorKey_pure env pickedKey p) as Hpure.
  destruct (toolOfActorKey env pickedKey p) as [p0 [pickedTool|e]]; [|done].
  simpl in Hpure. subst p0.
  unfold bind at 1. unfold gets at 1. cbv beta iota.
  destruct (decide (pickedKey ∈ _currentlyMovingActors p)) as [Hin|Hnin]; [done|].
  unfold bind at 1. unfold modify at 1. cbv beta iota.
  unfold bind at 1.
  destruct (interactivelyMoveActor _ d _) as [p1 [[]|e]]; [|done].
  unfold bind at 1. unfold gets at 1. cbv beta iota.
  destruct (decide (pickedKey ∈ _currentlyMovingActors p1)) as [Hin1|Hnin1]; [|done].
  unfold modify. intros [= <-] k rest' [= <- _]. simpl. set_solver.
Qed.

End DragSession.
Section DragSessionExamples.
Import Examples.

(** C4 fails on the code: a drag that is cancelled at the await of line
    471 ends with the dragged actor still in the moving set. *)
Lemma drag_exit_leaves_actor_moving :
  let r := selectAndMoveTool (envOf [coil]) (Some 1) None
             (mkDrag [translation 4 4 4] DragCancelled) shownCoil in
  r.2 = Raised CancelledError ∧
  keysOfActor (_actors shownCoil) (Some 1) = ["coil_tool"] ∧
  ("coil_tool" ∉ _currentlyMovingActors shownCoil) ∧
  "coil_tool" ∈ _currentlyMovingActors r.1.
Proof.
  split_and!.
  - by vm_compute.
  - by vm_compute.
  - apply (bool_decide_unpack _). by vm_compute.
  - apply (bool_decide_unpack _). by vm_compute.
Qed.

Lemma selectAndMoveTool_normal_exit_clears_moving_witness :
  let r := selectAndMoveTool (envOf [coil]) (Some 1) None
             (mkDrag [translation 4 4 4; translation 5 6 7] DragCompleted) shownCoil in
  r.2 = Returned tt ∧
  keysOfActor (_actors shownCoil) (Some 1) = ["coil_tool"] ∧
  ∀ pickedKey rest,
    keysOfActor (_actors shownCoil) (Some 1) = pickedKey :: rest →
    pickedKey ∉ _currentlyMovingActors r.1.
Proof.
  intros r.
  assert (Hr : r = (r.1, Returned tt)) by (by vm_compute).
  split; [by rewrite Hr|]. split; [by vm_compute|].
  exact (selectAndMoveTool_normal_exit_clears_moving (envOf [coil]) (Some 1) None
           (mkDrag [translation 4 4 4; translation 5 6 7] DragCompleted) shownCoil r.1 Hr).
Defined.
End DragSessionExamples.
(** * Actor keys *)

Section ActorKeys.

Lemma string_app_cons c (s1 s2 : string) : String c s1 +:+ s2 = String c (s1 +:+ s2).
Proof. reflexivity. Qed.

Lemma list_ascii_of_string_app (s1 s2 : string) :
  String.list_ascii_of_string (s1 +:+ s2)
  = (String.list_ascii_of_string s1 ++ String.list_ascii_of_string s2)%list.
Proof.
  induction s1 as [|c s1 IH]; [done|].
  rewrite string_app_cons. simpl. by rewrite IH.
Qed.

Lemma string_app_assoc (s1 s2 s3 : string) : (s1 +:+ s2) +:+ s3 = s1 +:+ (s2 +:+ s3).
Proof.
  induction s1 as [|c s1 IH]; [done|].
  rewrite !string_app_cons. by rewrite IH.
Qed.

Lemma list_ascii_of_string_inj (s1 s2 : string) :
  String.list_ascii_of_string s1 = String.list_ascii_of_string s2 → s1 = s2.
Proof.
  intros H. rewrite <- (String.string_of_list_ascii_of_string s1), H.
  apply String.string_of_list_ascii_of_string.
Qed.

(** Two keys with the same suffix come from the same tool key. *)
Lemma string_app_inj_l (k k' s : string) : k +:+ s = k' +:+ s → k = k'.
Proof.
  intros H. apply (f_equal String.list_ascii_of_string) in H.
  rewrite !list_ascii_of_string_app in H.
  apply app_inj_2 in H as [H _]; [|done]. by apply list_ascii_of_string_inj.
Qed.

(** Two suffixes that end in different characters give different keys. *)
Lemma string_app_last_ne (k k' s s' : string) :
  head (reverse (String.list_ascii_of_string s)) ≠ head (reverse (String.list_ascii_of_string s')) →
  s ≠ "" → s' ≠ "" →
  k +:+ s ≠ k' +:+ s'.
Proof.
  intros Hne Hs Hs' H. apply Hne. apply (f_equal String.list_ascii_of_string) in H.
  rewrite !list_ascii_of_string_app in H. apply (f_equal reverse) in H.
  rewrite !reverse_app in H.
  destruct (reverse (String.list_ascii_of_string s)) as [|c l] eqn:E.
  { apply (f_equal reverse) in E. rewrite reverse_involutive in E.
    destruct s; [done | discriminate]. }
  destruct (reverse (String.list_ascii_of_string s')) as [|c' l'] eqn:E'.
  { apply (f_equal reverse) in E'. rewrite reverse_involutive in E'.
    destruct s'; [done | discriminate]. }
  simpl in *. by injection H as -> _.
Qed.

Lemma tag_key (k : string) (a : ToolOrTracker) :
  (k +:+ "_") +:+ tag a = k +:+ match a with tracker => "_tracker" | tool => "_tool" end.
Proof. rewrite string_app_assoc. by destruct a. Qed.

Lemma elem_of_actorKeysForTool ak k t :
  ak ∈ actorKeysForTool k t ↔
  ak = k +:+ "_tracker" ∨ ak = k +:+ "_tool" ∨
  (isSubjectTracker t = true ∧ ak = k +:+ "_subject").
Proof.
  unfold actorKeysForTool. destruct (isSubjectTracker t); set_solver.
Qed.

(** The actor keys of two tools with different keys are different. *)
Lemma actorKeysForTool_disjoint k t k' t' ak :
  k ≠ k' → ak ∈ actorKeysForTool k t → ak ∉ actorKeysForTool k' t'.
Proof.
  intros Hne Hin Hin'.
  apply elem_of_actorKeysForTool in Hin as [->|[->|[_ ->]]];
    apply elem_of_actorKeysForTool in Hin' as [H|[H|[_ H]]];
    first [ by apply string_app_inj_l in H
          | by apply string_app_last_ne in H ].
Qed.

End ActorKeys.
(** * What a refresh does to the actors *)

Section RefreshFrames.

Lemma refreshActor_other_actor env k t actorKey ak :
  actorKey ≠ ak →
  preserves (same (λ p, _actors p !! ak)) (refreshActor env k t actorKey).
Proof.
  intros Hne.
  unfold refreshActor, showToolOrTracker, showSubject, reconcileVisibility.
  preserves_tac.
Qed.

Lemma hideActor_other_actor actorKey ak :
  actorKey ≠ ak → preserves (same (λ p, _actors p !! ak)) (hideActor actorKey).
Proof. intros Hne. unfold hideActor. preserves_tac. Qed.

(** The rendering of a tool touches the actors of that tool only. *)
Lemma refreshTool_other_actor env k t ak :
  ak ∉ actorKeysForTool k t →
  preserves (same (λ p, _actors p !! ak)) (refreshTool env (k, t)).
Proof.
  intros Hnin. unfold refreshTool.
  apply preserves_bind; [apply _ | preserves_tac | intros latest].
  assert (∀ actorKey, actorKey ∈ actorKeysForTool k t → actorKey ≠ ak) as Hne.
  { intros actorKey Hin ->. done. }
  destruct (isActive t), latest;
    (apply preserves_forEach; [apply _ | intros actorKey Hin]);
    first [ apply refreshActor_other_actor | apply hideActor_other_actor ]; auto.
Qed.

Lemma refreshActor_same_moving env k t actorKey :
  preserves (same _currentlyMovingActors) (refreshActor env k t actorKey).
Proof.
  unfold refreshActor, showToolOrTracker, showSubject, reconcileVisibility.
  preserves_tac.
Qed.

Global Instance undisturbed_preorder ak : PreOrder (undisturbed ak).
Proof.
  split.
  - intros p. split; [done|]. intros _. by left.
  - intros p q r [Hm1 H1] [Hm2 H2]. split; [congruence|].
    intros Hin. specialize (H1 Hin). rewrite <- Hm1 in Hin. specialize (H2 Hin).
    destruct H2 as [->|(a & Ha & Hv & ->)]; [done|].
    destruct H1 as [<-|(a0 & Ha0 & Hv0 & Hq)].
    + right. eauto.
    + rewrite Hq in Ha. injection Ha as <-. simpl in Hv. discriminate.
Qed.

(** A relation that leaves the moving set and the actor alone keeps the
    actor undisturbed. *)
Lemma undisturbed_of_same ak {A} (m : M A) :
  preserves (same _currentlyMovingActors) m →
  preserves (same (λ p, _actors p !! ak)) m →
  preserves (undisturbed ak) m.
Proof.
  intros H1 H2 p. split; [apply H1|]. intros _. left. apply H2.
Qed.

Global Instance untouched_preorder ak : PreOrder (untouched ak).
Proof.
  split.
  - intros p. by split.
  - intros p q r [Hm1 H1] [Hm2 H2]. split; [congruence|].
    intros Hin. rewrite H2, H1; [done..|]. by rewrite Hm1.
Qed.

Lemma untouched_undisturbed ak p p' : untouched ak p p' → undisturbed ak p p'.
Proof. intros [Hm H]. split; [done|]. intros Hin. left. by apply H. Qed.

(** The round of an actor that is being dragged is skipped, and the
    rounds of the other actors do not reach it. *)
Lemma refreshActor_untouched env k t actorKey ak :
  preserves (untouched ak) (refreshActor env k t actorKey).
Proof.
  intros p. destruct (decide (actorKey = ak)) as [->|Hne].
  - destruct (decide (ak ∈ _currentlyMovingActors p)) as [Hin|Hnin].
    + unfold refreshActor, bind at 1, gets. cbv beta iota.
      rewrite decide_True by done. reflexivity.
    + split; [apply refreshActor_same_moving | done].
  - split; [apply refreshActor_same_moving|].
    intros _. by apply refreshActor_other_actor.
Qed.

Lemma refreshActor_undisturbed env k t actorKey ak :
  preserves (undisturbed ak) (refreshActor env k t actorKey).
Proof. intros p. apply untouched_undisturbed, refreshActor_untouched. Qed.

Lemma hideActor_undisturbed actorKey ak : preserves (undisturbed ak) (hideActor actorKey).
Proof.
  intros p. unfold hideActor, bind, gets, actorsSet, modify. cbv beta iota.
  destruct (_actors p !! actorKey) as [actor|] eqn:Ha; [|reflexivity].
  destruct (visibility actor) eqn:Hv; [|reflexivity].
  split; [done|]. intros _. simpl.
  destruct (decide (actorKey = ak)) as [->|Hne].
  - right. exists actor. by rewrite lookup_insert_eq.
  - left. by rewrite lookup_insert_ne.
Qed.

Lemma refreshTool_undisturbed env kt ak : preserves (undisturbed ak) (refreshTool env kt).
Proof.
  destruct kt as [k t]. unfold refreshTool.
  apply preserves_bind; [apply _ | | intros latest].
  { apply undisturbed_of_same; preserves_tac. }
  destruct (isActive t), latest;
    (apply preserves_forEach; [apply _ | intros actorKey _]);
    first [ apply refreshActor_undisturbed | apply hideActor_undisturbed ].
Qed.

Lemma refreshActors_undisturbed env ak : preserves (undisturbed ak) (refreshActors env).
Proof.
  unfold refreshActors.
  do 2 (apply preserves_bind; [apply _ | apply preserves_gets; apply _ | intros ?]).
  destruct (_ && _); [apply preserves_ret; apply _|].
  apply preserves_forEach; [apply _ | intros kt _]. apply refreshTool_undisturbed.
Qed.

Lemma restorePositions_same {X} (f : Panel → X) env :
  (∀ g p, f (withClient g p) = f p) →
  (∀ n p, f (withClockReads n p) = f p) →
  preserves (same f) (restorePositions env).
Proof.
  intros H1 H2. unfold restorePositions.
  apply preserves_bind; [apply _ | apply preserves_gets; apply _ | intros poses].
  apply preserves_forEach; [apply _ | intros [k pose] _].
  destruct (poseTransf pose); [|apply preserves_ret; apply _].
  apply preserves_tryExcept; [apply _ | preserves_tac |].
  apply preserves_bind; [apply _ | | intros now].
  - intros p. unfold same, timeNow. simpl. apply H2.
  - intros p. unfold same, recordNewPosition_sync, modify. simpl. apply H1.
Qed.

Lemma mirrorPositions_same_actors env : preserves (same _actors) (mirrorPositions env).
Proof. unfold mirrorPositions. preserves_tac. Qed.

Lemma mirrorPositions_same_moving env :
  preserves (same _currentlyMovingActors) (mirrorPositions env).
Proof. unfold mirrorPositions. preserves_tac. Qed.

Lemma same_actors_lookup ak {A} (m : M A) :
  preserves (same _actors) m → preserves (same (λ p, _actors p !! ak)) m.
Proof. intros H p. unfold same. by rewrite (H p). Qed.

Lemma onLatestPositionsChanged_undisturbed env ak :
  preserves (undisturbed ak) (_onLatestPositionsChanged env).
Proof.
  unfold _onLatestPositionsChanged.
  apply preserves_bind; [apply _ | apply preserves_gets; apply _ | intros restored].
  apply preserves_bind; [apply _ | | intros _].
  - destruct (negb restored); [|apply preserves_ret; apply _].
    apply preserves_bind; [apply _ | | intros _].
    + apply undisturbed_of_same; [|apply same_actors_lookup];
        by apply restorePositions_same.
    + apply undisturbed_of_same; preserves_tac.
  - apply preserves_bind; [apply _ | | intros _; apply refreshActors_undisturbed].
    apply undisturbed_of_same;
      [apply mirrorPositions_same_moving
      | apply same_actors_lookup, mirrorPositions_same_actors].
Qed.

(** Nothing that runs while a drag is in progress does more to the
    dragged actor than hide it. *)
Lemma run_undisturbed env c ak : duringDrag c → preserves (undisturbed ak) (run env c).
Proof.
  destruct c; simpl; try done; intros _.
  - apply onLatestPositionsChanged_undisturbed.
  - apply undisturbed_of_same; unfold clearAllPositions; preserves_tac.
  - apply undisturbed_of_same; unfold zeroAllPositions; preserves_tac.
  - apply undisturbed_of_same; unfold importPositionsSnapshot, importEntries; preserves_tac.
  - apply undisturbed_of_same; unfold exportPositionsSnapshot; preserves_tac.
  - apply undisturbed_of_same;
      unfold selectAndClearToolPos, clearToolPos, toolOfActorKey; preserves_tac.
  - apply undisturbed_of_same; unfold onNewTransf; preserves_tac.
Qed.

End RefreshFrames.
(** * The dragged actor and the hidden actors *)

Section MovingAndHidden.

Lemma runAll_undisturbed ak calls :
  Forall (λ ec : Env * Call, duringDrag ec.2) calls →
  ∀ p, undisturbed ak p (runAll calls p).
Proof.
  induction 1 as [|[env c] calls Hc _ IH]; intros p; simpl.
  - reflexivity.
  - etransitivity; [by apply run_undisturbed | apply IH].
Qed.

Lemma hideActor_invisible ak p : invisibleAt ak (hideActor ak p).1.
Proof.
  unfold hideActor, bind, gets, actorsSet, modify, invisibleAt. cbv beta iota.
  destruct (_actors p !! ak) as [actor|] eqn:Ha; simpl.
  - destruct (visibility actor) eqn:Hv; simpl.
    + intros a. rewrite lookup_insert_eq. by intros [= <-].
    + intros a. rewrite Ha. by intros [= <-].
  - intros a. by rewrite Ha.
Qed.

Lemma hideActor_keeps_invisible ak actorKey p :
  invisibleAt ak p → invisibleAt ak (hideActor actorKey p).1.
Proof.
  intros H. destruct (decide (actorKey = ak)) as [->|Hne]; [apply hideActor_invisible|].
  unfold invisibleAt. rewrite (hideActor_other_actor actorKey ak Hne p). exact H.
Qed.

Lemma hideActor_returns actorKey p : (hideActor actorKey p).2 = Returned tt.
Proof.
  unfold hideActor, bind, gets, actorsSet, modify. cbv beta iota.
  destruct (_actors p !! actorKey) as [actor|]; [|done]. by destruct (visibility actor).
Qed.

Lemma hide_loop_invisible (keys : list string) ak p :
  invisibleAt ak p ∨ ak ∈ keys → invisibleAt ak (forEach keys hideActor p).1.
Proof.
  revert p. induction keys as [|actorKey keys IH]; intros p H.
  - destruct H as [H|H]; [done | by apply elem_of_nil in H].
  - simpl. unfold bind.
    pose proof (hideActor_invisible actorKey p) as H1.
    pose proof (hideActor_keeps_invisible ak actorKey p) as H2.
    pose proof (hideActor_returns actorKey p) as H3.
    destruct (hideActor actorKey p) as [p1 [[]|e]]; simpl in *; [|done].
    apply IH. destruct H as [H|[->|H]%elem_of_cons]; auto.
Qed.

Lemma refreshTool_hides env k t p :
  isActive t = false ∨ latestPositions (_positionsClient p) !! trackerKey t ≫= transf = None →
  ∀ ak, ak ∈ actorKeysForTool k t → invisibleAt ak (refreshTool env (k, t) p).1.
Proof.
  intros H ak Hak. unfold refreshTool, bind at 1, getLatestTransfOrNone, gets.
  cbv beta iota.
  assert (∀ q, invisibleAt ak (forEach (actorKeysForTool k t) hideActor q).1) as Hh.
  { intros q. apply hide_loop_invisible. by right. }
  destruct H as [-> | ->]; [done|]. by destruct (isActive t).
Qed.

Lemma forEach_other_tools env (l : list (string * Tool)) ak :
  (∀ k t, (k, t) ∈ l → ak ∉ actorKeysForTool k t) →
  preserves (same (λ p, _actors p !! ak)) (forEach l (refreshTool env)).
Proof.
  intros H. apply preserves_forEach; [apply _ | intros [k t] Hin].
  apply refreshTool_other_actor. by apply H.
Qed.

Lemma refreshTool_same_client env kt :
  preserves (same _positionsClient) (refreshTool env kt).
Proof.
  destruct kt as [k t].
  unfold refreshTool, refreshActor, hideActor, showToolOrTracker,
    showSubject, reconcileVisibility.
  preserves_tac.
Qed.

Lemma forEach_refreshTool_same_client env (l : list (string * Tool)) :
  preserves (same _positionsClient) (forEach l (refreshTool env)).
Proof.
  apply preserves_forEach; [apply _ | intros kt _]. apply refreshTool_same_client.
Qed.

(** The rendering loop, run to its end, leaves no actor of an inactive or
    unposed tool visible. *)
Lemma render_loop_hides env k t p p' :
  (k, t) ∈ tools (session env) →
  NoDup (tools (session env)).*1 →
  forEach (tools (session env)) (refreshTool env) p = (p', Returned tt) →
  isActive t = false ∨ latestPositions (_positionsClient p') !! trackerKey t ≫= transf = None →
  ∀ ak, ak ∈ actorKeysForTool k t → invisibleAt ak p'.
Proof.
  intros Hin Hnd Hrun Hcond ak Hak.
  apply list_elem_of_split in Hin as (l1 & l2 & Hl). rewrite Hl in Hrun, Hnd.
  apply forEach_Returned_app in Hrun as (p1 & Hrun1 & Hrun2).
  apply forEach_Returned_cons in Hrun2 as (p2 & Hrun2 & Hrun3).
  rewrite fmap_app, fmap_cons in Hnd. simpl in Hnd.
  apply NoDup_app in Hnd as (_ & _ & Hnd). apply NoDup_cons in Hnd as [Hk _].
  (* the cache is the same all along the loop *)
  pose proof (forEach_refreshTool_same_client env l2 p2) as Hc3.
  pose proof (refreshTool_same_client env (k, t) p1) as Hc2.
  rewrite Hrun3 in Hc3. rewrite Hrun2 in Hc2. unfold same in Hc2, Hc3. simpl in Hc2, Hc3.
  (* the tool's own round hides, the later rounds look elsewhere *)
  pose proof (refreshTool_hides env k t p1) as Hh. rewrite Hrun2 in Hh. simpl in Hh.
  rewrite <- Hc2, <- Hc3 in Hh. specialize (Hh Hcond ak Hak).
  assert (same (λ p, _actors p !! ak) p2 (forEach l2 (refreshTool env) p2).1) as Ho.
  { apply forEach_other_tools. intros k' t' Hin.
    apply (actorKeysForTool_disjoint k t k' t' ak); [|done].
    intros ->. apply Hk. apply list_elem_of_fmap. by exists (k', t'). }
  rewrite Hrun3 in Ho. unfold same in Ho. simpl in Ho.
  unfold invisibleAt. by rewrite Ho.
Qed.

Lemma refreshTool_untouched env k t ak p :
  (ak ∈ actorKeysForTool k t → posed p t) →
  untouched ak p (refreshTool env (k, t) p).1.
Proof.
  intros H. destruct (decide (ak ∈ actorKeysForTool k t)) as [Hin|Hnin].
  - destruct (H Hin) as [Hact [T HT]].
    unfold refreshTool, bind at 1, getLatestTransfOrNone, gets. cbv beta iota.
    rewrite Hact, HT.
    apply preserves_forEach; [apply _ | intros actorKey _].
    apply refreshActor_untouched.
  - split.
    + assert (preserves (same _currentlyMovingActors) (refreshTool env (k, t))) as Hm.
      { unfold refreshTool, refreshActor, hideActor, showToolOrTracker,
          showSubject, reconcileVisibility. preserves_tac. }
      apply Hm.
    + intros _. by apply refreshTool_other_actor.
Qed.

Lemma render_loop_untouched env (l : list (string * Tool)) ak p :
  (∀ k t, (k, t) ∈ l → ak ∈ actorKeysForTool k t → posed p t) →
  untouched ak p (forEach l (refreshTool env) p).1.
Proof.
  revert p. induction l as [|[k t] l IH]; intros p H; [reflexivity|].
  assert (untouched ak p (refreshTool env (k, t) p).1) as H1.
  { apply refreshTool_untouched. apply H. left. }
  pose proof (refreshTool_same_client env (k, t) p) as Hc.
  rewrite forEach_cons.
  destruct (refreshTool env (k, t) p) as [p1 [[]|e]]; simpl in H1, Hc |- *;
    [|exact H1].
  etransitivity; [exact H1|]. apply IH. intros k' t' Hin Hak.
  unfold posed. unfold same in Hc. rewrite Hc. apply (H k' t'); [by right | done].
Qed.

(** A refresh leaves an actor that is being dragged exactly as it is when
    every tool of the session that owns the actor's key is active and
    has a transform in the cache that the pass reads. *)
Lemma onLatestPositionsChanged_untouched env ak p :
  (∀ k t, (k, t) ∈ tools (session env) → ak ∈ actorKeysForTool k t →
     posed (_onLatestPositionsChanged env p).1 t) →
  untouched ak p (_onLatestPositionsChanged env p).1.
Proof.
  rewrite onLatestPositionsChanged_unfold.
  set (q := if _hasRestoredPositions p then p
            else withRestored true (restorePositions env p).1).
  assert ((if _hasRestoredPositions p
           then (mirrorPositions env ;; refreshActors env) p
           else (mirrorPositions env ;; refreshActors env)
                  (withRestored true (restorePositions env p).1))
          = (mirrorPositions env ;; refreshActors env) q) as ->.
  { subst q. by destruct (_hasRestoredPositions p). }
  assert (untouched ak p q) as Hq.
  { subst q. destruct (_hasRestoredPositions p); [reflexivity|]. split; simpl.
    - by apply (restorePositions_same _currentlyMovingActors env).
    - intros _. by rewrite (restorePositions_same _actors env). }
  intros H. etransitivity; [exact Hq|]. clear Hq.
  unfold bind at 1 in H. unfold bind at 1.
  pose proof (mirrorPositions_same_actors env q) as Ha.
  pose proof (mirrorPositions_same_moving env q) as Hm.
  destruct (mirrorPositions env q) as [q1 [[]|e]]; simpl in Ha, Hm.
  2: { split; simpl; [exact Hm | intros _; unfold same in Ha; by rewrite Ha]. }
  assert (untouched ak q q1) as Hq1.
  { split; [exact Hm | intros _; unfold same in Ha; by rewrite Ha]. }
  etransitivity; [exact Hq1|]. clear Hq1.
  pose proof (refreshActors_same_client env q1) as Hc. unfold same in Hc.
  unfold refreshActors, bind, gets in H, Hc. cbv beta iota in H, Hc.
  unfold refreshActors, bind, gets. cbv beta iota.
  destruct (negb (_hasInitialized q1) && negb (isInitializing q1)); [reflexivity|].
  apply render_loop_untouched. intros k t Hin Hak.
  unfold posed. rewrite <- Hc. by apply (H k t).
Qed.

(** C2, as the code has it.  While an actor key is in the moving set,
    whatever runs during the drag (refresh passes, the callback of the
    drag, poses sent or imported), any number of times and in any order,
    leaves the key in the set and does to the actor nothing but,
    possibly, switch its visibility off: the actor is neither created nor
    removed nor replaced, and its displayed transform is never
    overwritten.  A single refresh does not even hide it when every tool
    of the session that owns the key is active and has a transform in
    the cache that the pass reads. *)
Theorem dragged_actor_is_at_most_hidden ak calls p :
  ak ∈ _currentlyMovingActors p →
  Forall (λ ec : Env * Call, duringDrag ec.2) calls →
  let p' := runAll calls p in
  ak ∈ _currentlyMovingActors p' ∧
  hiddenOrSame (_actors p !! ak) (_actors p' !! ak) ∧
  userTransform <$> (_actors p' !! ak) = userTransform <$> (_actors p !! ak) ∧
  ∀ env,
    let q := (_onLatestPositionsChanged env p).1 in
    (∀ k t, (k, t) ∈ tools (session env) → ak ∈ actorKeysForTool k t → posed q t) →
    _actors q !! ak = _actors p !! ak.
Proof.
  intros Hin Hcalls p'. destruct (runAll_undisturbed ak calls Hcalls p) as [Hm Ha].
  fold p' in Hm, Ha. specialize (Ha Hin).
  split; [by rewrite Hm|]. split; [exact Ha|]. split.
  - destruct Ha as [->|(a & -> & _ & ->)]; done.
  - intros env q H. by apply (onLatestPositionsChanged_untouched env ak p H).
Qed.



End MovingAndHidden.
Section MovingAndHiddenExamples.
Import Examples.

(** C2 fails on the code as stated: a refresh pass does mutate an actor
    that is in the moving set.  The coil is being dragged by its tool
    mesh and its pose has just been cleared; the next refresh switches the
    visibility of the dragged actor off. *)
Lemma refresh_hides_dragged_actor :
  let p := draggingClearedCoil in
  let p' := (_onLatestPositionsChanged (envOf [coil]) p).1 in
  "coil_tool" ∈ _currentlyMovingActors p ∧
  visibility <$> (_actors p !! "coil_tool") = Some true ∧
  visibility <$> (_actors p' !! "coil_tool") = Some false ∧
  _actors p' !! "coil_tool" ≠ _actors p !! "coil_tool".
Proof.
  split_and!.
  - apply (bool_decide_unpack _). by vm_compute.
  - by vm_compute.
  - by vm_compute.
  - intros H. apply (f_equal (fmap visibility)) in H. vm_compute in H. discriminate.
Qed.

Lemma dragged_actor_is_at_most_hidden_witness :
  let calls := [(envOf [coil], CallOnLatestPositionsChanged);
                (envOf [coil], CallOnNewTransf "coil_tool" coil (translation 4 4 4));
                (envOf [coil], CallOnLatestPositionsChanged)] in
  let p := draggingClearedCoil in
  let p' := runAll calls p in
  "coil_tool" ∈ _currentlyMovingActors p ∧
  Forall (λ ec : Env * Call, duringDrag ec.2) calls ∧
  "coil_tool" ∈ _currentlyMovingActors p' ∧
  hiddenOrSame (_actors p !! "coil_tool") (_actors p' !! "coil_tool") ∧
  userTransform <$> (_actors p' !! "coil_tool") = userTransform <$> (_actors p !! "coil_tool") ∧
  ∀ env,
    let q := (_onLatestPositionsChanged env p).1 in
    (∀ k t, (k, t) ∈ tools (session env) → "coil_tool" ∈ actorKeysForTool k t → posed q t) →
    _actors q !! "coil_tool" = _actors p !! "coil_tool".
Proof.
  intros calls p p'.
  assert (H1 : "coil_tool" ∈ _currentlyMovingActors p)
    by (apply (bool_decide_unpack _); by vm_compute).
  assert (H2 : Forall (λ ec : Env * Call, duringDrag ec.2) calls)
    by (repeat constructor).
  split; [exact H1|]. split; [exact H2|].
  exact (dragged_actor_is_at_most_hidden "coil_tool" calls p H1 H2).
Defined.
End MovingAndHiddenExamples.
(** * The tools-changed handler *)

Section ToolsChanged.

Lemma removeActorsOfTools_removeKeys l b p :
  removeActorsOfTools l b p = removeKeys (trackerAndToolKeys l) b p.
Proof.
  revert b p. induction l as [|[k t] l IH]; intros b p; simpl; [done|].
  apply bind_ext. intros b1 q1. apply bind_ext. intros b2 q2. apply IH.
Qed.

Lemma removeIfPresent_spec ak b p :
  removeIfPresent ak b p =
    match _actors p !! ak with
    | Some a =>
        (withActors (delete ak)
           (withPlotter (λ pl, mkPlotter (nextActorId pl) (sceneActors pl ∖ {[actorId a]})
                                         (renderCount pl)) p),
         Returned true)
    | None => (p, Returned b)
    end.
Proof.
  unfold removeIfPresent, bind at 1, gets. cbv beta iota.
  by destruct (_actors p !! ak).
Qed.

(** What the removal loop does: every key it looks for ends up without
    an actor, the actors found are taken out of the scene, and nothing
    else in the table or the scene changes. *)
Lemma removeKeys_spec keys b p :
  ∃ p' b',
    removeKeys keys b p = (p', Returned b') ∧
    (∀ ak, _actors p' !! ak = if decide (ak ∈ keys) then None else _actors p !! ak) ∧
    (∀ i, i ∈ sceneActors (_plotter p') ↔
          i ∈ sceneActors (_plotter p) ∧
          ∀ ak a, ak ∈ keys → _actors p !! ak = Some a → actorId a ≠ i) ∧
    (b' = true ↔ b = true ∨ ∃ ak, ak ∈ keys ∧ is_Some (_actors p !! ak)).
Proof.
  revert b p. induction keys as [|ak0 keys IH]; intros b p.
  - exists p, b. split_and!; try done.
    + intros i. split; [|by intros [? _]]. intros Hi. split; [done|].
      intros ak a Hin. by apply elem_of_nil in Hin.
    + split; [by left|]. intros [?|(ak & Hin & _)]; [done|]. by apply elem_of_nil in Hin.
  - simpl removeKeys. unfold bind at 1. rewrite removeIfPresent_spec.
    destruct (_actors p !! ak0) as [a0|] eqn:Ha0.
    + set (p1 := withActors _ _).
      destruct (IH true p1) as (p' & b' & Hrun & Hact & Hscene & Hb).
      exists p', b'. split; [exact Hrun|]. split_and!.
      * intros ak. rewrite Hact. subst p1. simpl.
        destruct (decide (ak = ak0)) as [->|Hne].
        -- rewrite (decide_True (P := ak0 ∈ ak0 :: keys)) by left.
           rewrite lookup_delete_eq. by destruct (decide _).
        -- rewrite lookup_delete_ne by done.
           destruct (decide (ak ∈ keys)) as [Hin|Hnin].
           ++ by rewrite decide_True by (by right).
           ++ rewrite decide_False; [done|]. by intros [?|?]%elem_of_cons.
      * intros i. rewrite Hscene. subst p1. simpl. split.
        -- intros [[Hi Hi0]%elem_of_difference Hk]. split; [done|].
           intros ak a [->|Hin]%elem_of_cons Hak.
           ++ rewrite Ha0 in Hak. injection Hak as <-.
              intros <-. apply Hi0. by apply elem_of_singleton.
           ++ destruct (decide (ak = ak0)) as [->|Hne].
              ** rewrite Ha0 in Hak. injection Hak as <-.
                 intros <-. apply Hi0. by apply elem_of_singleton.
              ** apply (Hk ak a Hin). by rewrite lookup_delete_ne.
        -- intros [Hi Hk]. split.
           ++ apply elem_of_difference. split; [done|].
              intros ->%elem_of_singleton. apply (Hk ak0 a0); [left | done | done].
           ++ intros ak a Hin Hak. destruct (decide (ak = ak0)) as [->|Hne].
              ** by rewrite lookup_delete_eq in Hak.
              ** rewrite lookup_delete_ne in Hak by done. apply (Hk ak a); [by right | done].
      * rewrite Hb. split; [|intros _; by left].
        intros _. right. exists ak0. split; [left | by rewrite Ha0].
    + destruct (IH b p) as (p' & b' & Hrun & Hact & Hscene & Hb).
      exists p', b'. split; [exact Hrun|]. split_and!.
      * intros ak. rewrite Hact.
        destruct (decide (ak = ak0)) as [->|Hne].
        -- rewrite (decide_True (P := ak0 ∈ ak0 :: keys)) by left.
           rewrite Ha0. by destruct (decide _).
        -- destruct (decide (ak ∈ keys)) as [Hin|Hnin].
           ++ by rewrite decide_True by (by right).
           ++ rewrite decide_False; [done|]. by intros [?|?]%elem_of_cons.
      * intros i. rewrite Hscene. split; intros [Hi Hk]; (split; [done|]).
        -- intros ak a [->|Hin]%elem_of_cons Hak; [by rewrite Ha0 in Hak | by eapply Hk].
        -- intros ak a Hin Hak. apply (Hk ak a); [by right | done].
      * rewrite Hb. split; (intros [?|(ak & Hin & Hs)]; [by left | right]).
        -- exists ak. split; [by right | done].
        -- apply elem_of_cons in Hin as [->|Hin]; [rewrite Ha0 in Hs; by destruct Hs|].
           by exists ak.
Qed.

Lemma elem_of_trackerAndToolKeys ak l :
  ak ∈ trackerAndToolKeys l ↔
  ∃ k t, (k, t) ∈ l ∧ (ak = k +:+ "_tracker" ∨ ak = k +:+ "_tool").
Proof.
  induction l as [|[k t] l IH]; simpl.
  - split; [by intros ?%elem_of_nil | by intros (? & ? & ?%elem_of_nil & _)].
  - rewrite !elem_of_cons, IH. split.
    + intros [->|[->|(k' & t' & Hin & H)]].
      * exists k, t. split; [left | by left].
      * exists k, t. split; [left | by right].
      * exists k', t'. split; [by right | done].
    + intros (k' & t' & [Heq|Hin]%elem_of_cons & H).
      * injection Heq as -> ->. destruct H; auto.
      * right. right. by exists k', t'.
Qed.

(** The handler never looks for the key of a subject surface. *)
Lemma subject_key_not_looked_for k l : k +:+ "_subject" ∉ trackerAndToolKeys l.
Proof.
  intros (k' & t' & _ & [H|H])%elem_of_trackerAndToolKeys;
    by apply string_app_last_ne in H.
Qed.

Lemma onLatestPositionsChanged_other_actor env ak :
  (∀ k t, (k, t) ∈ tools (session env) → ak ∉ actorKeysForTool k t) →
  preserves (same (λ p, _actors p !! ak)) (_onLatestPositionsChanged env).
Proof.
  intros H. unfold _onLatestPositionsChanged.
  apply preserves_bind; [apply _ | apply preserves_gets; apply _ | intros restored].
  apply preserves_bind; [apply _ | | intros _].
  - destruct (negb restored); [|apply preserves_ret; apply _].
    apply preserves_bind; [apply _ | | intros _; preserves_tac].
    apply same_actors_lookup. by apply restorePositions_same.
  - apply preserves_bind; [apply _ | | intros _].
    + apply same_actors_lookup, mirrorPositions_same_actors.
    + unfold refreshActors.
      do 2 (apply preserves_bind; [apply _ | apply preserves_gets; apply _ | intros ?]).
      destruct (_ && _); [apply preserves_ret; apply _|].
      by apply forEach_other_tools.
Qed.

(** C6, as the code has it.  The handler walks the tools that are in the
    session when it runs, the removed ones are not among them.  For each
    it takes the tracker and the tool actor, when there is one, out of
    the scene and out of the actor table; if it removed at least one, it
    runs [_onLatestPositionsChanged], which may draw them anew.  An actor
    whose key is not an actor key of a tool of the session, such as every
    actor of a removed tool, is exactly as before when the handler is
    done; and the key of a subject surface is never looked for. *)
Theorem onToolsChanged_rebuilds_session_tools env toolKeysChanged changedAttribs p :
  let keys := trackerAndToolKeys (tools (session env)) in
  let r := _onToolsChanged env toolKeysChanged changedAttribs p in
  (∃ p1 didRemove,
     removeActorsOfTools (tools (session env)) false p = (p1, Returned didRemove) ∧
     r = (if didRemove then _onLatestPositionsChanged env p1 else (p1, Returned tt)) ∧
     (∀ ak, _actors p1 !! ak = if decide (ak ∈ keys) then None else _actors p !! ak) ∧
     (∀ ak a, ak ∈ keys → _actors p !! ak = Some a →
        actorId a ∉ sceneActors (_plotter p1)) ∧
     (∀ i, i ∈ sceneActors (_plotter p) →
        (∀ ak a, ak ∈ keys → _actors p !! ak = Some a → actorId a ≠ i) →
        i ∈ sceneActors (_plotter p1)) ∧
     (didRemove = true ↔ ∃ ak, ak ∈ keys ∧ is_Some (_actors p !! ak))) ∧
  (∀ ak, ak ∈ keys ↔
     ∃ k t, (k, t) ∈ tools (session env) ∧ (ak = k +:+ "_tracker" ∨ ak = k +:+ "_tool")) ∧
  (∀ k, k +:+ "_subject" ∉ keys) ∧
  (∀ ak, (∀ k t, (k, t) ∈ tools (session env) → ak ∉ actorKeysForTool k t) →
     _actors r.1 !! ak = _actors p !! ak).
Proof.
  intros keys r.
  destruct (removeKeys_spec keys false p) as (p1 & didRemove & Hrun & Hact & Hscene & Hb).
  unfold keys in Hrun. rewrite <- removeActorsOfTools_removeKeys in Hrun.
  assert (r = if didRemove then _onLatestPositionsChanged env p1 else (p1, Returned tt)) as Hr.
  { subst r. unfold _onToolsChanged, bind. rewrite Hrun. by destruct didRemove. }
  split_and!.
  - exists p1, didRemove. split_and!; try done.
    + intros ak a Hin Ha Hi. apply Hscene in Hi as [_ Hi]. by apply (Hi ak a).
    + intros i Hi Hk. apply Hscene. done.
    + rewrite Hb. split; [intros [?|?]; done | by right].
  - intros ak. apply elem_of_trackerAndToolKeys.
  - intros k. apply subject_key_not_looked_for.
  - intros ak Hak.
    assert (ak ∉ keys) as Hnin.
    { intros (k & t & Hin & H)%elem_of_trackerAndToolKeys.
      apply (Hak k t Hin). apply elem_of_actorKeysForTool. tauto. }
    assert (_actors p1 !! ak = _actors p !! ak) as H1.
    { rewrite Hact. by rewrite decide_False. }
    rewrite Hr. destruct didRemove; [|done].
    rewrite (onLatestPositionsChanged_other_actor env ak Hak p1). exact H1.
Qed.

End ToolsChanged.
Section ToolsChangedExamples.
Import Examples.

(** C6 fails on the code as stated.  Coil and pointer are drawn (actors
    0 to 3) and the pointer is then removed from the session.  The
    handler leaves both bindings of the removed pointer in the table and
    in the scene, and it is the bindings of the coil, which remains, that
    it discards: actor 0 is out of the scene and the key of the coil's
    tracker mesh is bound to a new actor. *)
Lemma tools_changed_keeps_removed_discards_remaining :
  let p := shownBoth in
  let p' := (_onToolsChanged (envOf [coil]) ["pointer"] None p).1 in
  actorId <$> (_actors p !! "pointer_tracker") = Some 2 ∧
  _actors p' !! "pointer_tracker" = _actors p !! "pointer_tracker" ∧
  _actors p' !! "pointer_tool" = _actors p !! "pointer_tool" ∧
  2 ∈ sceneActors (_plotter p') ∧
  actorId <$> (_actors p !! "coil_tracker") = Some 0 ∧
  (0 ∉ sceneActors (_plotter p')) ∧
  actorId <$> (_actors p' !! "coil_tracker") = Some 4.
Proof.
  split_and!;
    first [ by vm_compute
          | apply (bool_decide_unpack _); by vm_compute ].
Qed.
End ToolsChangedExamples.
(** * Further properties of the methods *)

Section Further.
Import Examples.

(** X1. The callback of the drag of a tracker-mesh actor ([pickedKey]
    ends in "_tracker" and not in "_tool") whose tool has an invertible
    [trackerStlToTrackerTransf]: the world transform W is sent, over the
    blocking call and under the tool's tracker key, as
    compose([invert(trackerStlToTrackerTransf), W]), and composing the
    offset with the committed pose gives W back. *)
Theorem onNewTransf_tracker_commits_inverse_offset
    env pickedKey pickedTool trackerStlToTracker W p :
  endswith pickedKey "_tool" = false →
  endswith pickedKey "_tracker" = true →
  trackerStlToTrackerTransf pickedTool = Some trackerStlToTracker →
  invertible trackerStlToTracker →
  ∃ inv, invertTransform trackerStlToTracker = Some inv ∧
    onNewTransf env pickedKey pickedTool W p =
      (withClient (recordNewPosition Sync (trackerKey pickedTool)
                     (mkTimestampedToolPosition (wallclock env (clockReads p))
                        (Some (concatenateTransforms [inv; W])) None))
         (withClockReads (S (clockReads p)) p),
       Returned tt) ∧
    meq (concatenateTransforms [trackerStlToTracker; concatenateTransforms [inv; W]]) W.
Proof.
  intros Htool Htracker Ht [B HB].
  destruct (invertible_invertTransform _ _ HB) as [inv Hi].
  exists inv. split; [exact Hi|]. split.
  - unfold onNewTransf. rewrite Htool, Htracker, Ht, Hi. reflexivity.
  - by apply concatenate_offset_cancel.
Qed.

Lemma onNewTransf_tracker_commits_inverse_offset_witness :
  let T := translation 2 0 1 in
  let t := mkTool "probe" "probe" true false true true (Some "a.stl") None
             None eye4 (Some T) "probeSurf" "" None None None None in
  endswith "probe_tracker" "_tool" = false ∧
  endswith "probe_tracker" "_tracker" = true ∧
  invertible T ∧
  ∃ inv, invertTransform T = Some inv ∧
    onNewTransf (envOf [t]) "probe_tracker" t (translation 4 4 4) freshPanel =
      (withClient (recordNewPosition Sync (trackerKey t)
                     (mkTimestampedToolPosition (wallclock (envOf [t]) (clockReads freshPanel))
                        (Some (concatenateTransforms [inv; translation 4 4 4])) None))
         (withClockReads (S (clockReads freshPanel)) freshPanel),
       Returned tt) ∧
    meq (concatenateTransforms [T; concatenateTransforms [inv; translation 4 4 4]])
        (translation 4 4 4).
Proof.
  intros T t.
  assert (HT : invertible T).
  { exists (translation (-2) 0 (-1)). vm_compute. repeat split. }
  split; [reflexivity|]. split; [reflexivity|]. split; [exact HT|].
  exact (onNewTransf_tracker_commits_inverse_offset (envOf [t]) "probe_tracker" t T
           (translation 4 4 4) freshPanel eq_refl eq_refl eq_refl HT).
Defined.

(** X4. Before the panel is initialised (and while it is not
    initialising) [_onLatestPositionsChanged] renders nothing: the actor
    table and the plotter are left as they are. *)
Theorem refresh_before_initialization_renders_nothing env p :
  _hasInitialized p = false →
  isInitializing p = false →
  let p' := (_onLatestPositionsChanged env p).1 in
  _actors p' = _actors p ∧ _plotter p' = _plotter p.
Proof.
  intros Hi1 Hi2 p'. subst p'. rewrite onLatestPositionsChanged_unfold.
  set (q := if _hasRestoredPositions p then p
            else withRestored true (restorePositions env p).1).
  assert ((if _hasRestoredPositions p
           then (mirrorPositions env ;; refreshActors env) p
           else (mirrorPositions env ;; refreshActors env)
                  (withRestored true (restorePositions env p).1))
          = (mirrorPositions env ;; refreshActors env) q) as ->.
  { subst q. by destruct (_hasRestoredPositions p). }
  assert (∀ {X} (f : Panel → X),
            (∀ g r, f (withClient g r) = f r) →
            (∀ n r, f (withClockReads n r) = f r) →
            (∀ b r, f (withRestored b r) = f r) →
            (∀ g r, f (withConfigPoses g r) = f r) →
            f q = f p ∧ preserves (same f) (mirrorPositions env)) as Hsame.
  { intros X f H1 H2 H3 H4. split.
    - subst q. destruct (_hasRestoredPositions p); [done|]. rewrite H3.
      by apply (restorePositions_same f env).
    - unfold mirrorPositions. preserves_tac; unfold same, modify; simpl; by rewrite ?H4. }
  destruct (Hsame _ _hasInitialized) as [Hq1 Hm1]; try done.
  destruct (Hsame _ isInitializing) as [Hq2 Hm2]; try done.
  destruct (Hsame _ _actors) as [Hq3 Hm3]; try done.
  destruct (Hsame _ _plotter) as [Hq4 Hm4]; try done.
  specialize (Hm1 q). specialize (Hm2 q). specialize (Hm3 q). specialize (Hm4 q).
  unfold same in Hm1, Hm2, Hm3, Hm4.
  remember ((mirrorPositions env ;; refreshActors env) q).1 as r eqn:Hr.
  unfold bind at 1 in Hr.
  destruct (mirrorPositions env q) as [q1 [[]|e]]; simpl in *.
  - unfold refreshActors, bind, gets in Hr. cbv beta iota in Hr.
    rewrite Hm1, Hm2, Hq1, Hq2, Hi1, Hi2 in Hr. simpl in Hr. subst r.
    by rewrite Hm3, Hm4, Hq3, Hq4.
  - subst r. by rewrite Hm3, Hm4, Hq3, Hq4.
Qed.

Lemma refresh_before_initialization_renders_nothing_witness :
  let p := mkPanel ∅ ∅ (_positionsClient mixedPoses)
             false false false ∅ (mkPlotter 0 ∅ 0) 0 ∅ in
  _hasInitialized p = false ∧ isInitializing p = false ∧
  let p' := (_onLatestPositionsChanged (envOf [coil]) p).1 in
  _actors p' = _actors p ∧ _plotter p' = _plotter p.
Proof.
  intros p. split; [reflexivity|]. split; [reflexivity|].
  exact (refresh_before_initialization_renders_nothing (envOf [coil]) p eq_refl eq_refl).
Defined.

End Further.

(** * Further properties of the panel *)

Import MoreStatements.

(** * Actor keys and the tools they resolve to *)

Section KeyResolution.

Lemma string_length_app (s1 s2 : string) :
  String.length (s1 +:+ s2) = String.length s1 + String.length s2.
Proof.
  induction s1 as [|c s1 IH]; [done|].
  rewrite string_app_cons. simpl. by rewrite IH.
Qed.

Lemma substring_whole (s : string) : String.substring 0 (String.length s) s = s.
Proof. induction s as [|c s IH]; simpl; [done | by rewrite IH]. Qed.

Lemma substring_app_suffix (k s : string) :
  String.substring (String.length k) (String.length s) (k +:+ s) = s.
Proof.
  induction k as [|c k IH].
  - change ("" +:+ s) with s. apply substring_whole.
  - rewrite string_app_cons. exact IH.
Qed.

Lemma substring_app_prefix (k s : string) :
  String.substring 0 (String.length k) (k +:+ s) = k.
Proof.
  induction k as [|c k IH].
  - change ("" +:+ s) with s. by destruct s.
  - rewrite string_app_cons. simpl. by rewrite IH.
Qed.

(** A string splits at every position into what [substring] cuts out. *)
Lemma substring_split (x : string) (i : nat) :
  (i ≤ String.length x)%nat →
  x = String.substring 0 i x +:+ String.substring i (String.length x - i) x.
Proof.
  revert i. induction x as [|c x IH]; intros i Hi.
  - simpl in Hi. assert (i = 0) as -> by lia. done.
  - destruct i as [|i].
    + change (String c x = "" +:+ String.substring 0 (String.length (String c x)) (String c x)).
      by rewrite substring_whole.
    + simpl in Hi. simpl. rewrite string_app_cons. f_equal. apply IH. lia.
Qed.

(** [endswith] is what its name says. *)
Lemma endswith_spec (x s : string) :
  endswith x s = true ↔ ∃ k, x = k +:+ s.
Proof.
  unfold endswith. split.
  - intros [Hle Heq]%andb_true_iff.
    apply Nat.leb_le in Hle. apply String.eqb_eq in Heq.
    exists (String.substring 0 (String.length x - String.length s) x).
    pose proof (substring_split x (String.length x - String.length s)) as H.
    replace (String.length x - (String.length x - String.length s))
      with (String.length s) in H by lia.
    rewrite Heq in H. apply H. lia.
  - intros [k ->]. rewrite string_length_app. apply andb_true_iff. split.
    + apply Nat.leb_le. lia.
    + replace (String.length k + String.length s - String.length s)
        with (String.length k) by lia.
      rewrite substring_app_suffix. apply String.eqb_refl.
Qed.

Lemma endswith_app (k s : string) : endswith (k +:+ s) s = true.
Proof. apply endswith_spec. by exists k. Qed.

Lemma endswith_last_ne (k s s' : string) :
  head (reverse (String.list_ascii_of_string s))
    ≠ head (reverse (String.list_ascii_of_string s')) →
  s ≠ "" → s' ≠ "" →
  endswith (k +:+ s) s' = false.
Proof.
  intros Hne Hs Hs'. destruct (endswith (k +:+ s) s') eqn:E; [|done].
  apply endswith_spec in E as [k' E]. by apply string_app_last_ne in E.
Qed.

Lemma dropLast_app (k s : string) : dropLast (String.length s) (k +:+ s) = k.
Proof.
  unfold dropLast. rewrite string_length_app.
  replace (String.length k + String.length s - String.length s)
    with (String.length k) by lia.
  apply substring_app_prefix.
Qed.

Lemma toolOfActorKey_suffixes env k p :
  toolOfActorKey env (k +:+ "_tracker") p = sessionTool env k p ∧
  toolOfActorKey env (k +:+ "_tool") p = sessionTool env k p ∧
  toolOfActorKey env (k +:+ "_subject") p = (p, Raised NotImplementedError) ∧
  sessionTool env k p =
    (p, match toolsLookup (tools (session env)) k with
        | Some t => Returned t
        | None => Raised KeyError
        end).
Proof.
  unfold toolOfActorKey. split_and!.
  - rewrite endswith_app. by rewrite (dropLast_app k "_tracker").
  - rewrite (endswith_last_ne k "_tool" "_tracker") by done.
    rewrite endswith_app. by rewrite (dropLast_app k "_tool").
  - rewrite (endswith_last_ne k "_subject" "_tracker") by done.
    by rewrite (endswith_last_ne k "_subject" "_tool") by done.
  - unfold sessionTool. by destruct (toolsLookup _ _).
Qed.

(** X5. The key of a tracker mesh and the key of a tool mesh resolve to
    the tool they were built from (KeyError when the session has no tool
    under that key); the key of a subject surface resolves to nothing:
    NotImplementedError.  The panel is not changed by the resolution. *)
Theorem toolOfActorKey_resolves env k p :
  toolOfActorKey env (k +:+ "_tracker") p = sessionTool env k p ∧
  toolOfActorKey env (k +:+ "_tool") p = sessionTool env k p ∧
  toolOfActorKey env (k +:+ "_subject") p = (p, Raised NotImplementedError) ∧
  sessionTool env k p =
    (p, match toolsLookup (tools (session env)) k with
        | Some t => Returned t
        | None => Raised KeyError
        end).
Proof. exact (toolOfActorKey_suffixes env k p). Qed.

End KeyResolution.
(** * Drag sessions *)

Section DragSessions.

Lemma selectAndMoveTool_picked env pickedActor userPick d p pickedKey rest :
  keysOfActor (_actors p)
    (match pickedActor with None => userPick | Some a => Some a end) = pickedKey :: rest →
  selectAndMoveTool env pickedActor userPick d p =
    (pickedTool <- toolOfActorKey env pickedKey ;;
     moving <- gets _currentlyMovingActors ;;
     if decide (pickedKey ∈ moving) then raise AssertionError
     else
       modify (withMoving (λ s, {[ pickedKey ]} ∪ s)) ;;
       interactivelyMoveActor (onNewTransf env pickedKey pickedTool) d ;;
       moving <- gets _currentlyMovingActors ;;
       if decide (pickedKey ∈ moving) then modify (withMoving (λ s, s ∖ {[ pickedKey ]}))
       else raise KeyError) p.
Proof.
  intros H. unfold selectAndMoveTool. unfold bind at 1. unfold gets at 1.
  cbv beta iota. by rewrite H.
Qed.

(** X6. A subject surface cannot be moved: when the picked actor is the
    one of a key ending in "_subject", [selectAndMoveTool] raises
    NotImplementedError before anything is changed. *)
Theorem selectAndMoveTool_subject_not_implemented
    env pickedActor userPick d p k rest :
  keysOfActor (_actors p)
    (match pickedActor with None => userPick | Some a => Some a end)
    = (k +:+ "_subject") :: rest →
  selectAndMoveTool env pickedActor userPick d p = (p, Raised NotImplementedError).
Proof.
  intros H. rewrite (selectAndMoveTool_picked _ _ _ _ _ _ _ H).
  unfold bind at 1. destruct (toolOfActorKey_suffixes env k p) as (_ & _ & -> & _).
  reflexivity.
Qed.

(** X7. The tracker mesh or the tool mesh of a tool cannot be dragged
    while its key is in the moving set: when the tool is (still) in the
    session the assertion of line 432 fails, and when it has left the
    session the lookup of lines 425 and 427 raises KeyError before the
    assertion is reached.  Either way the panel is left as it is.  With
    X9 this means that a key left behind by a drag that was cancelled
    blocks every later drag of that actor. *)
Theorem selectAndMoveTool_already_moving
    env pickedActor userPick d p k suffix rest :
  suffix = "_tracker" ∨ suffix = "_tool" →
  keysOfActor (_actors p)
    (match pickedActor with None => userPick | Some a => Some a end)
    = (k +:+ suffix) :: rest →
  k +:+ suffix ∈ _currentlyMovingActors p →
  selectAndMoveTool env pickedActor userPick d p =
    (p, match toolsLookup (tools (session env)) k with
        | Some _ => Raised AssertionError
        | None => Raised KeyError
        end).
Proof.
  intros Hs H Hin. rewrite (selectAndMoveTool_picked _ _ _ _ _ _ _ H).
  destruct (toolOfActorKey_suffixes env k p) as (H1 & H2 & _ & H4).
  assert (toolOfActorKey env (k +:+ suffix) p = sessionTool env k p) as Hres
    by (by destruct Hs as [-> | ->]).
  unfold bind at 1. rewrite Hres, H4.
  destruct (toolsLookup (tools (session env)) k) as [t|]; [|done].
  unfold bind at 1, gets at 1. cbv beta iota. by rewrite decide_True.
Qed.

(** X8. A drag session on a tool mesh that runs to its end: the actor
    picked is the tool mesh of the session tool [k], which has an
    invertible offset and is not being dragged already.  The method
    returns; the session has sent one pose per intermediate transform,
    each compose([invert(O), W]) under the tool's tracker key over the
    blocking call; and at the return the key of the mesh is not in the
    moving set. *)
Theorem selectAndMoveTool_tool_session
    env pickedActor userPick Ws p k rest t toolToTracker O :
  keysOfActor (_actors p)
    (match pickedActor with None => userPick | Some a => Some a end)
    = (k +:+ "_tool") :: rest →
  toolsLookup (tools (session env)) k = Some t →
  (k +:+ "_tool") ∉ _currentlyMovingActors p →
  toolToTrackerTransf t = Some toolToTracker →
  O = concatenateTransforms [toolStlToToolTransf t; toolToTracker] →
  invertible O →
  ∃ Oinv p',
    invertTransform O = Some Oinv ∧
    selectAndMoveTool env pickedActor userPick (mkDrag Ws DragCompleted) p
      = (p', Returned tt) ∧
    sentCommands (_positionsClient p') =
      (sentCommands (_positionsClient p)
       ++ imap (λ i W, dragCommand env t Oinv (clockReads p + i) W) Ws)%list ∧
    (k +:+ "_tool") ∉ _currentlyMovingActors p'.
Proof.
  intros H Ht Hnin Htt -> [B HB].
  destruct (invertible_invertTransform _ _ HB) as [Oinv Hi].
  set (pickedKey := k +:+ "_tool") in *.
  assert (endswith pickedKey "_tool" = true) as Hk by apply endswith_app.
  set (p0 := withMoving (λ s, {[pickedKey]} ∪ s) p).
  destruct (drag_tool_forEach env pickedKey t toolToTracker Oinv Ws p0 Hk Htt Hi)
    as (p1 & Hrun & _ & Hcmds & _).
  assert (_currentlyMovingActors p1 = _currentlyMovingActors p0) as Hm.
  { assert (preserves (same _currentlyMovingActors)
              (forEach Ws (onNewTransf env pickedKey t))) as Hp.
    { apply preserves_forEach; [apply _ | intros W _]. unfold onNewTransf. preserves_tac. }
    specialize (Hp p0). by rewrite Hrun in Hp. }
  exists Oinv, (withMoving (λ s, s ∖ {[pickedKey]}) p1). split; [exact Hi|]. split_and!.
  - rewrite (selectAndMoveTool_picked _ _ _ _ _ _ _ H). fold pickedKey.
    destruct (toolOfActorKey_suffixes env k p) as (_ & Hres & _ & Hs).
    fold pickedKey in Hres. unfold bind at 1. rewrite Hres, Hs, Ht.
    unfold bind at 1, gets at 1. cbv beta iota.
    rewrite decide_False by done.
    unfold bind at 1, modify at 1. cbv beta iota. fold p0.
    unfold bind at 1, interactivelyMoveActor. cbn [intermediate dragEnd].
    unfold bind at 1. rewrite Hrun. unfold ret.
    unfold bind, gets. cbv beta iota. rewrite decide_True; [done|].
    rewrite Hm. subst p0. simpl. set_solver.
  - simpl. exact Hcmds.
  - simpl. set_solver.
Qed.

Global Instance keepsMoving_preorder : PreOrder keepsMoving.
Proof. split; unfold keepsMoving; [intros p | intros p q r]; set_solver. Qed.

Lemma keepsMoving_of_same {A} (m : M A) :
  preserves (same _currentlyMovingActors) m → preserves keepsMoving m.
Proof. intros H p. unfold keepsMoving. by rewrite (H p). Qed.

Lemma selectAndMoveTool_keepsMoving env pickedActor userPick d :
  preserves keepsMoving (selectAndMoveTool env pickedActor userPick d).
Proof.
  intros p. unfold selectAndMoveTool. unfold bind at 1. unfold gets at 1. cbv beta iota.
  destruct (keysOfActor _ _) as [|pickedKey rest]; [reflexivity|].
  unfold bind at 1. pose proof (toolOfActorKey_pure env pickedKey p) as Hpure.
  destruct (toolOfActorKey env pickedKey p) as [p0 [pickedTool|e]]; simpl in Hpure; subst p0;
    [|reflexivity].
  unfold bind at 1. unfold gets at 1. cbv beta iota.
  destruct (decide (pickedKey ∈ _currentlyMovingActors p)) as [Hin|Hnin]; [reflexivity|].
  unfold bind at 1. unfold modify at 1. cbv beta iota.
  unfold bind at 1.
  pose proof (drag_same_moving env pickedKey pickedTool d
                (withMoving (λ s, {[pickedKey]} ∪ s) p)) as Hsame.
  unfold same in Hsame. simpl in Hsame.
  destruct (interactivelyMoveActor _ d _) as [p1 [[]|e]]; simpl in Hsame |- *.
  - unfold bind at 1. unfold gets at 1. cbv beta iota.
    destruct (decide (pickedKey ∈ _currentlyMovingActors p1)); unfold keepsMoving; simpl;
      rewrite Hsame; set_solver.
  - unfold keepsMoving. rewrite Hsame. set_solver.
Qed.

Lemma removeActorsOfTools_same_moving l b :
  preserves (same _currentlyMovingActors) (removeActorsOfTools l b).
Proof.
  revert b. induction l as [|[k t] l IH]; intros b; simpl; [preserves_tac|].
  unfold removeIfPresent.
  repeat (apply preserves_bind; [apply _ | preserves_tac | intros ?]).
  apply IH.
Qed.

Lemma onLatestPositionsChanged_same_moving env :
  preserves (same _currentlyMovingActors) (_onLatestPositionsChanged env).
Proof. intros p. apply (onLatestPositionsChanged_undisturbed env "" p). Qed.

Lemma run_keepsMoving env c : preserves keepsMoving (run env c).
Proof.
  destruct c; simpl; [..|apply selectAndMoveTool_keepsMoving|];
    apply keepsMoving_of_same.
  - apply onLatestPositionsChanged_same_moving.
  - unfold _onToolsChanged.
    apply preserves_bind; [apply _ | apply removeActorsOfTools_same_moving | intros []].
    + apply onLatestPositionsChanged_same_moving.
    + preserves_tac.
  - unfold clearAllPositions. preserves_tac.
  - unfold zeroAllPositions. preserves_tac.
  - unfold importPositionsSnapshot, importEntries. preserves_tac.
  - unfold exportPositionsSnapshot. preserves_tac.
  - unfold selectAndClearToolPos, clearToolPos, toolOfActorKey. preserves_tac.
  - unfold onNewTransf. preserves_tac.
Qed.

(** X9. No method ever takes a key out of the moving set that it has not
    put there itself.  A drag session is one call here, from the pick to
    the release, so a key that is in the set between calls was left
    there by a session that ended with an exception; whatever is called
    afterwards, in any order and with any outcome, that key stays in the
    set. *)
Theorem moving_key_is_never_released ak calls p :
  ak ∈ _currentlyMovingActors p →
  ak ∈ _currentlyMovingActors (runAll calls p).
Proof.
  revert p. induction calls as [|[env c] calls IH]; intros p Hin; simpl; [done|].
  apply IH. by apply (run_keepsMoving env c p).
Qed.

End DragSessions.
(** * The rendering pass, step by step *)

Section RenderingSteps.

Lemma ensureActor_eval mesh color dflt opacity ak p :
  (acts <- gets _actors ;;
   match acts !! ak with
   | Some _ => ret tt
   | None => actor <- addMesh mesh color dflt opacity ak ;; actorsSet ak actor
   end) p = (ensureActor mesh color dflt opacity ak p, Returned tt).
Proof.
  unfold bind at 1, gets, ensureActor. cbv beta iota.
  destruct (_actors p !! ak); reflexivity.
Qed.

Lemma ensureActor_lookup mesh color dflt opacity ak p :
  _actors (ensureActor mesh color dflt opacity ak p) !! ak =
    Some (default (mkActor (nextActorId (_plotter p)) ak mesh (default dflt color)
                     opacity true None)
            (_actors p !! ak)).
Proof.
  unfold ensureActor. destruct (_actors p !! ak) eqn:E; simpl; [done|].
  by rewrite lookup_insert_eq.
Qed.

Lemma ensureActor_lookup_ne mesh color dflt opacity ak ak' p :
  ak ≠ ak' →
  _actors (ensureActor mesh color dflt opacity ak p) !! ak' = _actors p !! ak'.
Proof.
  intros Hne. unfold ensureActor. destruct (_actors p !! ak); simpl; [done|].
  by rewrite lookup_insert_ne.
Qed.

Lemma ensureActor_client mesh color dflt opacity ak p :
  _positionsClient (ensureActor mesh color dflt opacity ak p) = _positionsClient p.
Proof. unfold ensureActor. by destruct (_actors p !! ak). Qed.

Lemma showBlock_eval mesh color dflt opacity ak tk (T : Matrix4 → Matrix4) p :
  (acts <- gets _actors ;;
   (match acts !! ak with
    | Some _ => ret tt
    | None => actor <- addMesh mesh color dflt opacity ak ;; actorsSet ak actor
    end) ;;
   actor <- actorsGet ak ;;
   latest <- getLatestTransf tk ;;
   match latest with
   | None => raise TypeError
   | Some pose => actorsSet ak (setActorUserTransform (T pose) actor) ;; render ;; ret true
   end) p = showBlock mesh color dflt opacity ak tk T p.
Proof.
  rewrite <- bind_assoc. unfold bind at 1. rewrite ensureActor_eval.
  unfold showBlock. cbv zeta.
  pose proof (ensureActor_lookup mesh color dflt opacity ak p) as Hl.
  pose proof (ensureActor_client mesh color dflt opacity ak p) as Hc.
  set (p1 := ensureActor mesh color dflt opacity ak p) in *.
  unfold bind at 1, actorsGet. rewrite Hl.
  unfold bind at 1, getLatestTransf. rewrite Hc.
  destruct (latestPositions (_positionsClient p) !! tk) as [pos|]; [|reflexivity].
  destruct (transf pos) as [pose|]; [|reflexivity].
  unfold bind, actorsSet, modify, render, ret, rendered, transformActor.
  rewrite Hl. reflexivity.
Qed.

Lemma showToolOrTracker_eval k t ak d a p :
  showToolOrTracker k t ak d a p =
    if decide (ak = (k +:+ "_") +:+ tag a) then
      if doRender a t then
        match stlFilepath a t, stlToTrackerTransf a t with
        | Some _, Some stlToTracker =>
            showBlock (surf a t) (meshColor a t) "#444444" (default 1%Q (meshOpacity a t))
              ak (trackerKey t) (λ pose, concatenateTransforms [stlToTracker; pose]) p
        | Some _, None => (p, Returned d)
        | None, _ => (p, Returned false)
        end
      else (p, Returned false)
    else (p, Returned d).
Proof.
  unfold showToolOrTracker.
  destruct (decide _); [|reflexivity].
  destruct (doRender a t); [|reflexivity]. cbn [negb].
  destruct (stlFilepath a t); [|reflexivity].
  destruct (stlToTrackerTransf a t); [|reflexivity].
  apply showBlock_eval.
Qed.

Lemma showSubject_eval env t ak d p :
  showSubject env t ak d p =
    if isSubjectTracker t && bool_decide (ak = key t +:+ "_subject") then
      match trackerToMRITransf (session env), skinSurf (session env) with
      | Some trackerToMRI, Some skin =>
          match invertTransform trackerToMRI with
          | Some MRIToTracker =>
              showBlock skin (Some "#d9a5b2") "#d9a5b2" (4 # 5)%Q ak (trackerKey t)
                (λ pose, matmul pose MRIToTracker) p
          | None =>
              (ensureActor skin (Some "#d9a5b2") "#d9a5b2" (4 # 5)%Q ak p,
               match latestPositions (_positionsClient p) !! trackerKey t with
               | Some _ => Raised SingularMatrixError
               | None => Raised KeyError
               end)
          end
      | _, _ => (p, Returned d)
      end
    else (p, Returned d).
Proof.
  unfold showSubject.
  destruct (_ && _); [|reflexivity].
  destruct (trackerToMRITransf (session env)) as [R|]; [|reflexivity].
  destruct (skinSurf (session env)) as [skin|]; [|reflexivity].
  destruct (invertTransform R) as [Ri|] eqn:Hi.
  - rewrite <- showBlock_eval. reflexivity.
  - rewrite <- bind_assoc. unfold bind at 1. rewrite ensureActor_eval.
    pose proof (ensureActor_lookup skin (Some "#d9a5b2") "#d9a5b2" (4 # 5)%Q ak p) as Hl.
    pose proof (ensureActor_client skin (Some "#d9a5b2") "#d9a5b2" (4 # 5)%Q ak p) as Hc.
    set (p1 := ensureActor _ _ _ _ ak p) in *.
    unfold bind at 1, actorsGet. rewrite Hl.
    unfold bind at 1, getLatestTransf. rewrite Hc.
    destruct (latestPositions (_positionsClient p) !! trackerKey t) as [pos|]; reflexivity.
Qed.

Lemma reconcileVisibility_eval ak d p :
  reconcileVisibility ak d p = (reconciled ak d p, Returned tt).
Proof.
  unfold reconcileVisibility, reconciled, bind at 1, gets. cbv beta iota.
  destruct (_actors p !! ak) as [actor|] eqn:E; [|reflexivity].
  destruct (d && negb (visibility actor)).
  { unfold bind, actorsSet, modify, render, rendered, setVisible. by rewrite E. }
  destruct (negb d && visibility actor); [|reflexivity].
  unfold bind, actorsSet, modify, render, rendered, setVisible. by rewrite E.
Qed.

End RenderingSteps.
(** * The actor table and the scene *)

Section ActorTable.

Global Instance sameIdentity_refl : Reflexive sameIdentity.
Proof. intros a. by repeat split. Qed.

Global Instance sameIdentity_trans : Transitive sameIdentity.
Proof.
  intros a b c (?&?&?&?&?) (?&?&?&?&?). unfold sameIdentity. split_and!; congruence.
Qed.

Global Instance keepsIdentity_preorder : PreOrder keepsIdentity.
Proof.
  split.
  - intros p ak a H. by exists a.
  - intros p q r H1 H2 ak a Ha.
    destruct (H1 ak a Ha) as (b & Hb & Hab). destruct (H2 ak b Hb) as (c & Hc & Hbc).
    exists c. split; [done|]. by etrans.
Qed.

Global Instance keepsWellFormed_preorder : PreOrder keepsWellFormed.
Proof. split; unfold keepsWellFormed; [intros p | intros p q r]; tauto. Qed.

Global Instance keepsTable_preorder : PreOrder keepsTable.
Proof.
  split.
  - intros p. split; reflexivity.
  - intros p q r [H1 H2] [H3 H4]. split; by etrans.
Qed.

(** A step that leaves the table, the scene and the next identity alone. *)
Lemma keepsTable_same p p' :
  _actors p' = _actors p →
  sceneActors (_plotter p') = sceneActors (_plotter p) →
  nextActorId (_plotter p') = nextActorId (_plotter p) →
  keepsTable p p'.
Proof.
  intros Ha Hs Hn. split.
  - unfold keepsWellFormed, wellFormed. by rewrite Ha, Hs, Hn.
  - intros ak a H. exists a. by rewrite Ha.
Qed.

Lemma keepsTable_of_same {A} (m : M A) :
  preserves (same _actors) m → preserves (same _plotter) m → preserves keepsTable m.
Proof.
  intros H1 H2 p. specialize (H1 p). specialize (H2 p). unfold same in *.
  apply keepsTable_same; [done | by rewrite H2 ..].
Qed.

(** An actor is written back with its state changed. *)
Lemma keepsTable_update ak a a' p :
  _actors p !! ak = Some a → sameIdentity a a' →
  keepsTable p (withActors (insert ak a') p).
Proof.
  intros Ha Hsame. pose proof Hsame as (Hid & Hname & _). split.
  - intros (H1 & H2 & H3). split_and!; simpl.
    + intros ak1 a1. destruct (decide (ak1 = ak)) as [->|Hne].
      * rewrite lookup_insert_eq. intros [= <-]. rewrite Hid, Hname. by apply H1.
      * rewrite lookup_insert_ne by done. apply H1.
    + exact H2.
    + intros ak1 ak2 a1 a2.
      destruct (decide (ak1 = ak)) as [->|Hne1]; destruct (decide (ak2 = ak)) as [->|Hne2];
        rewrite ?lookup_insert_eq, ?lookup_insert_ne by done; try done.
      * intros [= <-] H Heq. symmetry. apply (H3 ak2 ak a2 a H Ha). congruence.
      * intros H [= <-] Heq. apply (H3 ak1 ak a1 a H Ha). congruence.
      * apply H3.
  - intros ak1 a1 H1. destruct (decide (ak1 = ak)) as [->|Hne]; simpl.
    + rewrite lookup_insert_eq. exists a'. split; [done|].
      rewrite Ha in H1. by injection H1 as <-.
    + rewrite lookup_insert_ne by done. by exists a1.
Qed.

Lemma keepsTable_ensureActor mesh color dflt opacity ak p :
  keepsTable p (ensureActor mesh color dflt opacity ak p).
Proof.
  unfold ensureActor. destruct (_actors p !! ak) eqn:E; [reflexivity|]. simpl. split.
  - intros (H1 & H2 & H3). split_and!; simpl.
    + intros ak1 a1. destruct (decide (ak1 = ak)) as [->|Hne].
      * rewrite lookup_insert_eq. intros [= <-]. simpl. split; [set_solver|done].
      * rewrite lookup_insert_ne by done. intros H. destruct (H1 _ _ H). split; [set_solver|done].
    + intros i [->%elem_of_singleton | Hi]%elem_of_union; [lia|]. apply H2 in Hi. lia.
    + assert (∀ ak' a', _actors p !! ak' = Some a' → actorId a' ≠ nextActorId (_plotter p))
        as Hfresh.
      { intros ak' a' H Heq. destruct (H1 _ _ H) as [Hin _]. apply H2 in Hin. lia. }
      intros ak1 ak2 a1 a2.
      destruct (decide (ak1 = ak)) as [->|Hne1]; destruct (decide (ak2 = ak)) as [->|Hne2];
        rewrite ?lookup_insert_eq, ?lookup_insert_ne by done; try done.
      * intros [= <-] H Heq. simpl in Heq. by destruct (Hfresh _ _ H).
      * intros H [= <-] Heq. simpl in Heq. by destruct (Hfresh _ _ H).
      * apply H3.
  - intros ak1 a1 H1. exists a1. split; [|reflexivity]. simpl.
    rewrite lookup_insert_ne; [done|]. intros <-. rewrite E in H1. done.
Qed.

Lemma keepsTable_transformActor ak T p : keepsTable p (transformActor ak T p).
Proof.
  unfold transformActor. destruct (_actors p !! ak) as [a|] eqn:E; [|reflexivity].
  apply (keepsTable_update ak a); [done|]. by repeat split.
Qed.

Lemma keepsTable_setVisible ak b p : keepsTable p (setVisible ak b p).
Proof.
  unfold setVisible. destruct (_actors p !! ak) as [a|] eqn:E; [|reflexivity].
  apply (keepsTable_update ak a); [done|]. by repeat split.
Qed.

Lemma keepsTable_rendered p : keepsTable p (rendered p).
Proof. by apply keepsTable_same. Qed.

Lemma keepsTable_showBlock mesh color dflt opacity ak tk T p :
  keepsTable p (showBlock mesh color dflt opacity ak tk T p).1.
Proof.
  unfold showBlock. cbv zeta.
  pose proof (keepsTable_ensureActor mesh color dflt opacity ak p) as H1.
  destruct (latestPositions (_positionsClient p) !! tk) as [pos|]; [|exact H1].
  destruct (transf pos) as [pose|]; [|exact H1]. simpl.
  etrans; [exact H1|]. etrans; [apply keepsTable_transformActor | apply keepsTable_rendered].
Qed.

Lemma keepsTable_reconciled ak d p : keepsTable p (reconciled ak d p).
Proof.
  unfold reconciled. destruct (_actors p !! ak) as [a|]; [|reflexivity].
  repeat case_match; try reflexivity;
    (etrans; [apply keepsTable_setVisible | apply keepsTable_rendered]).
Qed.

Lemma showToolOrTracker_keepsTable k t ak d a :
  preserves keepsTable (showToolOrTracker k t ak d a).
Proof.
  intros p. rewrite showToolOrTracker_eval.
  repeat case_match; try reflexivity. apply keepsTable_showBlock.
Qed.

Lemma showSubject_keepsTable env t ak d : preserves keepsTable (showSubject env t ak d).
Proof.
  intros p. rewrite showSubject_eval.
  repeat case_match; try reflexivity;
    first [apply keepsTable_showBlock | apply keepsTable_ensureActor].
Qed.

Lemma reconcileVisibility_keepsTable ak d : preserves keepsTable (reconcileVisibility ak d).
Proof. intros p. rewrite reconcileVisibility_eval. apply keepsTable_reconciled. Qed.

Lemma refreshActor_keepsTable env k t ak : preserves keepsTable (refreshActor env k t ak).
Proof.
  unfold refreshActor.
  apply preserves_bind; [apply _ | apply keepsTable_of_same; preserves_tac | intros moving].
  destruct (decide _); [apply preserves_ret; apply _|].
  apply preserves_bind; [apply _ | apply showToolOrTracker_keepsTable | intros d1].
  apply preserves_bind; [apply _ | apply showToolOrTracker_keepsTable | intros d2].
  apply preserves_bind; [apply _ | apply showSubject_keepsTable | intros d3].
  apply reconcileVisibility_keepsTable.
Qed.

Lemma hideActor_keepsTable ak : preserves keepsTable (hideActor ak).
Proof.
  intros p. unfold hideActor, bind, gets. cbv beta iota.
  destruct (_actors p !! ak) as [a|] eqn:E; [|reflexivity].
  destruct (visibility a); [|reflexivity].
  apply (keepsTable_update ak a); [done|]. by repeat split.
Qed.

Lemma refreshTool_keepsTable env kt : preserves keepsTable (refreshTool env kt).
Proof.
  destruct kt as [k t]. unfold refreshTool.
  apply preserves_bind; [apply _ | apply keepsTable_of_same; preserves_tac | intros latest].
  destruct (isActive t), latest;
    (apply preserves_forEach; [apply _ | intros ak _]);
    first [apply refreshActor_keepsTable | apply hideActor_keepsTable].
Qed.

Lemma onLatestPositionsChanged_keepsTable env :
  preserves keepsTable (_onLatestPositionsChanged env).
Proof.
  unfold _onLatestPositionsChanged.
  apply preserves_bind; [apply _ | apply keepsTable_of_same; preserves_tac | intros restored].
  apply preserves_bind; [apply _ | | intros ?].
  { destruct (negb restored); [|apply preserves_ret; apply _].
    apply keepsTable_of_same.
    - apply preserves_bind; [apply _ | by apply (restorePositions_same _actors) | intros ?].
      preserves_tac.
    - apply preserves_bind; [apply _ | by apply (restorePositions_same _plotter) | intros ?].
      preserves_tac. }
  apply preserves_bind; [apply _ | | intros ?].
  { apply keepsTable_of_same; [apply mirrorPositions_same_actors|].
    unfold mirrorPositions. preserves_tac. }
  unfold refreshActors.
  do 2 (apply preserves_bind; [apply _ | apply keepsTable_of_same; preserves_tac | intros ?]).
  destruct (_ && _); [apply preserves_ret; apply _|].
  apply preserves_forEach; [apply _ | intros kt _]. apply refreshTool_keepsTable.
Qed.

Lemma removeIfPresent_keepsWellFormed ak b :
  preserves keepsWellFormed (removeIfPresent ak b).
Proof.
  intros p. rewrite removeIfPresent_spec.
  destruct (_actors p !! ak) as [a|] eqn:E; [|reflexivity]. simpl.
  intros (H1 & H2 & H3). split_and!; simpl.
  - intros ak1 a1. destruct (decide (ak1 = ak)) as [->|Hne].
    + by rewrite lookup_delete_eq.
    + rewrite lookup_delete_ne by done. intros H. destruct (H1 _ _ H) as [Hin Hname].
      split; [|done]. apply elem_of_difference. split; [done|].
      intros Heq%elem_of_singleton. apply Hne. by apply (H3 ak1 ak a1 a).
  - intros i [Hi _]%elem_of_difference. by apply H2.
  - intros ak1 ak2 a1 a2.
    destruct (decide (ak1 = ak)) as [->|Hne1]; [by rewrite lookup_delete_eq|].
    destruct (decide (ak2 = ak)) as [->|Hne2]; [by rewrite lookup_delete_eq|].
    rewrite !lookup_delete_ne by done. apply H3.
Qed.

Lemma removeActorsOfTools_keepsWellFormed l b :
  preserves keepsWellFormed (removeActorsOfTools l b).
Proof.
  revert b. induction l as [|[k t] l IH]; intros b; simpl; [apply preserves_ret; apply _|].
  do 2 (apply preserves_bind; [apply _ | apply removeIfPresent_keepsWellFormed | intros ?]).
  apply IH.
Qed.

Lemma keepsWellFormed_of_keepsTable {A} (m : M A) :
  preserves keepsTable m → preserves keepsWellFormed m.
Proof. intros H p. apply H. Qed.

Lemma run_keepsTable env c : keepsActors c → preserves keepsTable (run env c).
Proof.
  destruct c; simpl; intros Hc; try done.
  - apply onLatestPositionsChanged_keepsTable.
  - apply keepsTable_of_same; unfold clearAllPositions; preserves_tac.
  - apply keepsTable_of_same; unfold zeroAllPositions; preserves_tac.
  - apply keepsTable_of_same; unfold importPositionsSnapshot, importEntries; preserves_tac.
  - apply keepsTable_of_same; unfold exportPositionsSnapshot; preserves_tac.
  - apply keepsTable_of_same;
      unfold selectAndClearToolPos, clearToolPos, toolOfActorKey; preserves_tac.
  - apply keepsTable_of_same;
      unfold selectAndMoveTool, toolOfActorKey, interactivelyMoveActor, onNewTransf;
      preserves_tac.
  - apply keepsTable_of_same; unfold onNewTransf; preserves_tac.
Qed.

Lemma run_keepsWellFormed env c : preserves keepsWellFormed (run env c).
Proof.
  destruct c;
    try (apply keepsWellFormed_of_keepsTable; by apply run_keepsTable).
  simpl. unfold _onToolsChanged.
  apply preserves_bind; [apply _ | apply removeActorsOfTools_keepsWellFormed | intros []].
  - apply keepsWellFormed_of_keepsTable, onLatestPositionsChanged_keepsTable.
  - apply preserves_ret; apply _.
Qed.

Lemma runAll_wellFormed calls p : wellFormed p → wellFormed (runAll calls p).
Proof.
  revert p. induction calls as [|[env c] calls IH]; intros p Hwf; simpl; [done|].
  apply IH. by apply (run_keepsWellFormed env c p).
Qed.

Lemma wellFormed_no_actors p :
  _actors p = ∅ → sceneActors (_plotter p) = ∅ → wellFormed p.
Proof.
  intros Ha Hs. unfold wellFormed. rewrite Ha, Hs. split_and!.
  - intros ak a H. by rewrite lookup_empty in H.
  - intros i H. by apply elem_of_empty in H.
  - intros ak1 ak2 a1 a2 H. by rewrite lookup_empty in H.
Qed.

(** X10. The actor table and the scene stay in step, whatever is called
    and however the calls end: every actor of the table is in the scene
    under the name of its key, and no two keys hold the same actor. *)
Theorem table_and_scene_stay_in_step calls p :
  wellFormed p → wellFormed (runAll calls p).
Proof. apply runAll_wellFormed. Qed.

(** X11. Only [_onToolsChanged] takes an actor out of the table: after
    any sequence of other calls every actor is still there under its key
    and is the actor that was created, with the mesh, the colour and the
    opacity of its creation.  A refresh moves, shows and hides actors; it
    never rebuilds one, so a changed mesh or colour of a tool reaches the
    scene through [_onToolsChanged] only. *)
Theorem only_tools_changed_replaces_actors calls p :
  Forall (λ ec, keepsActors ec.2) calls →
  keepsIdentity p (runAll calls p).
Proof.
  revert p. induction calls as [|[env c] calls IH]; intros p Hall; simpl; [reflexivity|].
  apply Forall_cons in Hall as [Hc Hall]. simpl in Hc.
  etrans; [|by apply IH]. by apply (run_keepsTable env c Hc p).
Qed.

Lemma NoDup_all_equal {A} (x : A) (l : list A) :
  NoDup l → (∀ y, y ∈ l → y = x) → x ∈ l → l = [x].
Proof.
  intros Hnd Hall Hin. destruct l as [|y [|z l]].
  - by apply elem_of_nil in Hin.
  - f_equal. apply Hall. by left.
  - assert (y = x) as -> by (apply Hall; by left).
    assert (z = x) as -> by (apply Hall; right; by left).
    apply NoDup_cons in Hnd as [Hnin _]. destruct Hnin. by left.
Qed.

(** X12. On a well-formed panel a pick is never ambiguous: the list that
    lines 396 and 420 build for an actor of the table holds the key of
    that actor and nothing else, so the [0] takes the one key there is. *)
Theorem keysOfActor_of_table_actor p ak a :
  wellFormed p →
  _actors p !! ak = Some a →
  keysOfActor (_actors p) (Some (actorId a)) = [ak].
Proof.
  intros (_ & _ & H3) Ha. unfold keysOfActor.
  set (P := λ ka : string * Actor, Some (actorId ka.2) = Some (actorId a)).
  assert (filter P (map_to_list (_actors p)) = [(ak, a)]) as ->; [|done].
  apply NoDup_all_equal.
  - apply NoDup_filter, NoDup_map_to_list.
  - intros [k' a'] [HP Hin]%list_elem_of_filter. apply elem_of_map_to_list in Hin.
    unfold P in HP. simpl in HP. injection HP as Hid.
    assert (k' = ak) as -> by (by apply (H3 k' ak a' a)).
    rewrite Ha in Hin. by injection Hin as <-.
  - apply list_elem_of_filter. split; [done|]. by apply elem_of_map_to_list.
Qed.

End ActorTable.
(** * What a refresh puts on display *)

Section Display.

Lemma transformActor_lookup ak T p :
  _actors (transformActor ak T p) !! ak = setActorUserTransform T <$> (_actors p !! ak).
Proof.
  unfold transformActor. destruct (_actors p !! ak) as [a|] eqn:E; simpl.
  - by rewrite lookup_insert_eq.
  - by rewrite E.
Qed.

Lemma setVisibility_id b a : visibility a = b → setVisibility b a = a.
Proof. intros <-. by destruct a. Qed.

Lemma reconciled_lookup ak d p :
  _actors (reconciled ak d p) !! ak = setVisibility d <$> (_actors p !! ak).
Proof.
  unfold reconciled, rendered, setVisible.
  destruct (_actors p !! ak) as [a|] eqn:E; [|by rewrite E].
  destruct d, (visibility a) eqn:Hv; simpl; rewrite ?E; simpl;
    rewrite ?lookup_insert_eq, ?E; simpl; try done;
    by rewrite setVisibility_id.
Qed.

Lemma showBlock_posed mesh color dflt opacity ak tk T pose p :
  latestPositions (_positionsClient p) !! tk ≫= transf = Some pose →
  showBlock mesh color dflt opacity ak tk T p =
    (rendered (transformActor ak (T pose) (ensureActor mesh color dflt opacity ak p)),
     Returned true).
Proof.
  intros H. unfold showBlock.
  destruct (latestPositions (_positionsClient p) !! tk) as [pos|]; [|done].
  simpl in H. by rewrite H.
Qed.

Lemma aspect_keys_differ k : (k +:+ "_") +:+ "tracker" ≠ (k +:+ "_") +:+ "tool".
Proof. by apply string_app_last_ne. Qed.

Lemma aspect_key_not_subject k k' a : (k +:+ "_") +:+ tag a ≠ k' +:+ "_subject".
Proof. rewrite tag_key. destruct a; by apply string_app_last_ne. Qed.

(** For the key of the tracker mesh or of the tool mesh, one round of the
    inner loop decides; the other round and the subject branch pass
    [doShow] on. *)
Lemma refreshActor_aspect env k t a p :
  (k +:+ "_") +:+ tag a ∉ _currentlyMovingActors p →
  refreshActor env k t ((k +:+ "_") +:+ tag a) p =
    (d <- showToolOrTracker k t ((k +:+ "_") +:+ tag a) false a ;;
     reconcileVisibility ((k +:+ "_") +:+ tag a) d) p.
Proof.
  intros Hnm. unfold refreshActor, bind at 1, gets. cbv beta iota.
  rewrite decide_False by done.
  assert (∀ d q, showSubject env t ((k +:+ "_") +:+ tag a) d q = (q, Returned d)) as Hs.
  { intros d q. rewrite showSubject_eval.
    rewrite (bool_decide_eq_false_2 _ (aspect_key_not_subject k (key t) a)).
    by rewrite andb_false_r. }
  destruct a; simpl tag in *.
  - apply bind_ext. intros d q. unfold bind at 1. rewrite showToolOrTracker_eval.
    simpl tag. rewrite decide_False by apply aspect_keys_differ.
    unfold bind at 1. by rewrite Hs.
  - unfold bind at 1. rewrite showToolOrTracker_eval.
    simpl tag. rewrite decide_False by (intros H; by apply (aspect_keys_differ k)).
    apply bind_ext. intros d q. unfold bind at 1. by rewrite Hs.
Qed.

(** One mesh that can be drawn, of a tool that has a pose. *)
Lemma refreshActor_shows env k t a pose stlToTracker p :
  let ak := (k +:+ "_") +:+ tag a in
  ak ∉ _currentlyMovingActors p →
  latestPositions (_positionsClient p) !! trackerKey t ≫= transf = Some pose →
  doRender a t = true →
  is_Some (stlFilepath a t) →
  stlToTrackerTransf a t = Some stlToTracker →
  ∃ p' actor,
    refreshActor env k t ak p = (p', Returned tt) ∧
    _actors p' !! ak = Some actor ∧
    displayedAt (concatenateTransforms [stlToTracker; pose]) (surf a t)
      (default "#444444" (meshColor a t)) (default 1%Q (meshOpacity a t))
      (_actors p !! ak) actor.
Proof.
  intros ak Hnm Hpose Hr [f Hf] Hs. subst ak. rewrite refreshActor_aspect by done.
  set (ak := (k +:+ "_") +:+ tag a) in *.
  unfold bind at 1. rewrite showToolOrTracker_eval. rewrite decide_True by done.
  rewrite Hr, Hf, Hs. rewrite (showBlock_posed _ _ _ _ _ _ _ pose) by done.
  rewrite reconcileVisibility_eval.
  eexists _, _. split; [reflexivity|]. split.
  - rewrite reconciled_lookup. unfold rendered. simpl.
    rewrite transformActor_lookup, ensureActor_lookup. reflexivity.
  - split; [done|]. split; [done|].
    destruct (_actors p !! ak) as [o|]; simpl; by repeat split.
Qed.

(** One mesh that cannot be drawn. *)
Lemma refreshActor_hides_undrawable env k t a p :
  let ak := (k +:+ "_") +:+ tag a in
  ak ∉ _currentlyMovingActors p →
  doRender a t = false ∨ stlFilepath a t = None ∨ stlToTrackerTransf a t = None →
  ∃ p', refreshActor env k t ak p = (p', Returned tt) ∧
    _actors p' !! ak = setVisibility false <$> (_actors p !! ak).
Proof.
  intros ak Hnm Hcond. subst ak. rewrite refreshActor_aspect by done.
  set (ak := (k +:+ "_") +:+ tag a) in *.
  assert (showToolOrTracker k t ak false a p = (p, Returned false)) as Hshow.
  { rewrite showToolOrTracker_eval. rewrite decide_True by done.
    destruct Hcond as [->|[->|H]]; [done | by destruct (doRender a t) |].
    rewrite H. by destruct (doRender a t), (stlFilepath a t). }
  unfold bind at 1. rewrite Hshow, reconcileVisibility_eval.
  eexists. split; [reflexivity|]. apply reconciled_lookup.
Qed.

(** The skin surface of a subject tracker that has a pose. *)
Lemma refreshActor_shows_subject env t pose trackerToMRI MRIToTracker skin p :
  let ak := key t +:+ "_subject" in
  ak ∉ _currentlyMovingActors p →
  latestPositions (_positionsClient p) !! trackerKey t ≫= transf = Some pose →
  isSubjectTracker t = true →
  trackerToMRITransf (session env) = Some trackerToMRI →
  invertTransform trackerToMRI = Some MRIToTracker →
  skinSurf (session env) = Some skin →
  ∃ p' actor,
    refreshActor env (key t) t ak p = (p', Returned tt) ∧
    _actors p' !! ak = Some actor ∧
    displayedAt (matmul pose MRIToTracker) skin "#d9a5b2" (4 # 5)%Q (_actors p !! ak) actor.
Proof.
  intros ak Hnm Hpose Hsub HR Hi Hskin. subst ak.
  set (ak := key t +:+ "_subject") in *.
  unfold refreshActor, bind at 1, gets. cbv beta iota. rewrite decide_False by done.
  assert (∀ a d q, showToolOrTracker (key t) t ak d a q = (q, Returned d)) as Hskip.
  { intros a d q. rewrite showToolOrTracker_eval. rewrite decide_False; [done|].
    intros H. by apply (aspect_key_not_subject (key t) (key t) a). }
  unfold bind at 1. rewrite Hskip. unfold bind at 1. rewrite Hskip.
  unfold bind at 1. rewrite showSubject_eval, Hsub, bool_decide_eq_true_2 by done.
  simpl andb. cbv iota. rewrite HR, Hskin, Hi.
  rewrite (showBlock_posed _ _ _ _ _ _ _ pose) by done.
  rewrite reconcileVisibility_eval.
  eexists _, _. split; [reflexivity|]. split.
  - rewrite reconciled_lookup. unfold rendered. simpl.
    rewrite transformActor_lookup, ensureActor_lookup. reflexivity.
  - split; [done|]. split; [done|].
    destruct (_actors p !! ak) as [o|]; simpl; by repeat split.
Qed.

Lemma actorKeysForTool_NoDup k t : NoDup (actorKeysForTool k t).
Proof.
  assert (k +:+ "_tracker" ≠ k +:+ "_tool") by (by apply string_app_last_ne).
  assert (k +:+ "_tracker" ≠ k +:+ "_subject") by (by apply string_app_last_ne).
  assert (k +:+ "_tool" ≠ k +:+ "_subject") by (by apply string_app_last_ne).
  unfold actorKeysForTool. destruct (isSubjectTracker t); simpl;
    repeat (apply NoDup_cons; split; [set_solver|]); apply NoDup_nil_2.
Qed.

Lemma refreshActor_same_client env k t actorKey :
  preserves (same _positionsClient) (refreshActor env k t actorKey).
Proof.
  unfold refreshActor, showToolOrTracker, showSubject, reconcileVisibility.
  preserves_tac.
Qed.

Lemma refreshTool_same_moving env kt :
  preserves (same _currentlyMovingActors) (refreshTool env kt).
Proof.
  destruct kt as [k t].
  unfold refreshTool, refreshActor, hideActor, showToolOrTracker,
    showSubject, reconcileVisibility.
  preserves_tac.
Qed.

Lemma refreshTool_posed env k t p :
  isActive t = true →
  is_Some (latestPositions (_positionsClient p) !! trackerKey t ≫= transf) →
  refreshTool env (k, t) p = forEach (actorKeysForTool k t) (refreshActor env k t) p.
Proof.
  intros Ha [pose Hp]. unfold refreshTool, bind at 1, getLatestTransfOrNone, gets.
  cbv beta iota. by rewrite Ha, Hp.
Qed.

(** The round of one key in the loop over the keys of a tool. *)
Lemma keys_loop_at env k t (keys : list string) ak q q' :
  NoDup keys → ak ∈ keys →
  forEach keys (refreshActor env k t) q = (q', Returned tt) →
  ∃ r r',
    refreshActor env k t ak r = (r', Returned tt) ∧
    _positionsClient r = _positionsClient q ∧
    _currentlyMovingActors r = _currentlyMovingActors q ∧
    _actors r !! ak = _actors q !! ak ∧
    _actors q' !! ak = _actors r' !! ak.
Proof.
  intros Hnd Hin Hrun.
  apply list_elem_of_split in Hin as (l1 & l2 & ->).
  apply forEach_Returned_app in Hrun as (r & Hrun1 & Hrun2).
  apply forEach_Returned_cons in Hrun2 as (r' & Hrun2 & Hrun3).
  apply NoDup_app in Hnd as (_ & Hl1 & Hnd). apply NoDup_cons in Hnd as [Hl2 _].
  exists r, r'. split; [exact Hrun2|].
  assert (preserves (same _positionsClient) (forEach l1 (refreshActor env k t))) as Hc.
  { apply preserves_forEach; [apply _ | intros ? _]. apply refreshActor_same_client. }
  assert (preserves (same _currentlyMovingActors) (forEach l1 (refreshActor env k t))) as Hm.
  { apply preserves_forEach; [apply _ | intros ? _]. apply refreshActor_same_moving. }
  assert (preserves (same (λ p, _actors p !! ak)) (forEach l1 (refreshActor env k t))) as Ha.
  { apply preserves_forEach; [apply _ | intros ak' Hak']. apply refreshActor_other_actor.
    intros ->. apply (Hl1 ak); [done | by left]. }
  assert (preserves (same (λ p, _actors p !! ak)) (forEach l2 (refreshActor env k t))) as Hb.
  { apply preserves_forEach; [apply _ | intros ak' Hak']. apply refreshActor_other_actor.
    by intros ->. }
  specialize (Hc q). specialize (Hm q). specialize (Ha q). specialize (Hb r').
  rewrite Hrun1 in Hc, Hm, Ha. rewrite Hrun3 in Hb. unfold same in *. simpl in *.
  done.
Qed.

(** The round of one tool in the rendering loop. *)
Lemma render_loop_at env k t p p' :
  (k, t) ∈ tools (session env) →
  NoDup (tools (session env)).*1 →
  forEach (tools (session env)) (refreshTool env) p = (p', Returned tt) →
  ∃ q q',
    refreshTool env (k, t) q = (q', Returned tt) ∧
    _positionsClient q = _positionsClient p' ∧
    _currentlyMovingActors q = _currentlyMovingActors p ∧
    ∀ ak, ak ∈ actorKeysForTool k t →
      _actors q !! ak = _actors p !! ak ∧ _actors p' !! ak = _actors q' !! ak.
Proof.
  intros Hin Hnd Hrun.
  apply list_elem_of_split in Hin as (l1 & l2 & Hl). rewrite Hl in Hrun, Hnd.
  apply forEach_Returned_app in Hrun as (q & Hrun1 & Hrun2).
  apply forEach_Returned_cons in Hrun2 as (q' & Hrun2 & Hrun3).
  rewrite fmap_app, fmap_cons in Hnd. simpl in Hnd.
  apply NoDup_app in Hnd as (_ & Hl1 & Hnd). apply NoDup_cons in Hnd as [Hl2 _].
  exists q, q'. split; [exact Hrun2|].
  pose proof (forEach_refreshTool_same_client env l2 q') as Hc3.
  pose proof (refreshTool_same_client env (k, t) q) as Hc2.
  assert (preserves (same _currentlyMovingActors) (forEach l1 (refreshTool env))) as Hm.
  { apply preserves_forEach; [apply _ | intros ? _]. apply refreshTool_same_moving. }
  specialize (Hm p). rewrite Hrun1 in Hm.
  rewrite Hrun3 in Hc3. rewrite Hrun2 in Hc2. unfold same in Hc2, Hc3, Hm. simpl in *.
  split; [congruence|]. split; [done|]. intros ak Hak. split.
  - assert (same (λ p, _actors p !! ak) p (forEach l1 (refreshTool env) p).1) as Ho.
    { apply forEach_other_tools. intros k' t' Hin'.
      apply (actorKeysForTool_disjoint k t k' t' ak); [|done].
      intros ->. apply (Hl1 k'); [|by left]. apply list_elem_of_fmap. by exists (k', t'). }
    rewrite Hrun1 in Ho. exact Ho.
  - assert (same (λ p, _actors p !! ak) q' (forEach l2 (refreshTool env) q').1) as Ho.
    { apply forEach_other_tools. intros k' t' Hin'.
      apply (actorKeysForTool_disjoint k t k' t' ak); [|done].
      intros ->. apply Hl2. apply list_elem_of_fmap. by exists (k', t'). }
    rewrite Hrun3 in Ho. exact Ho.
Qed.

(** A refresh that runs to its end on an initialised panel has run the
    rendering loop, on a panel with the same actors and moving set. *)
Lemma pass_reaches_loop env p p' :
  _hasInitialized p = true ∨ isInitializing p = true →
  _onLatestPositionsChanged env p = (p', Returned tt) →
  ∃ q, forEach (tools (session env)) (refreshTool env) q = (p', Returned tt) ∧
    _actors q = _actors p ∧
    _currentlyMovingActors q = _currentlyMovingActors p ∧
    _plotter q = _plotter p.
Proof.
  intros Hinit Hrun. rewrite onLatestPositionsChanged_unfold in Hrun.
  set (q := if _hasRestoredPositions p then p
            else withRestored true (restorePositions env p).1).
  assert ((mirrorPositions env ;; refreshActors env) q = (p', Returned tt)) as Hq.
  { subst q. by destruct (_hasRestoredPositions p). }
  assert (∀ {X} (f : Panel → X),
            (∀ g r, f (withClient g r) = f r) →
            (∀ n r, f (withClockReads n r) = f r) →
            (∀ b r, f (withRestored b r) = f r) → f q = f p) as Hsame.
  { intros X f H1 H2 Hf. subst q. destruct (_hasRestoredPositions p); [done|]. rewrite Hf.
    by apply (restorePositions_same f env). }
  apply bind_Returned in Hq as (q1 & [] & Hm & Hr).
  assert (∀ {X} (f : Panel → X), (∀ g r, f (withConfigPoses g r) = f r) → f q1 = f q)
    as Hmirror.
  { intros X f Hf.
    assert (preserves (same f) (mirrorPositions env)) as H.
    { unfold mirrorPositions. preserves_tac; unfold same, modify; simpl; by rewrite ?Hf. }
    specialize (H q). by rewrite Hm in H. }
  unfold refreshActors, bind, gets in Hr. cbv beta iota in Hr.
  rewrite (Hmirror _ _hasInitialized), (Hmirror _ isInitializing) in Hr by done.
  rewrite (Hsame _ _hasInitialized), (Hsame _ isInitializing) in Hr by done.
  assert (negb (_hasInitialized p) && negb (isInitializing p) = false) as Hb.
  { destruct Hinit as [-> | ->]; [done|]. by rewrite andb_false_r. }
  rewrite Hb in Hr. exists q1. split; [exact Hr|].
  rewrite (Hmirror _ _actors), (Hmirror _ _currentlyMovingActors), (Hmirror _ _plotter)
    by done.
  by rewrite (Hsame _ _actors), (Hsame _ _currentlyMovingActors), (Hsame _ _plotter).
Qed.

(** The round of one actor key in a refresh that runs to its end. *)
Lemma pass_at_actor env p p' k t ak :
  (k, t) ∈ tools (session env) →
  NoDup (tools (session env)).*1 →
  _hasInitialized p = true ∨ isInitializing p = true →
  _onLatestPositionsChanged env p = (p', Returned tt) →
  isActive t = true →
  is_Some (latestPositions (_positionsClient p') !! trackerKey t ≫= transf) →
  ak ∈ actorKeysForTool k t →
  ∃ r r',
    refreshActor env k t ak r = (r', Returned tt) ∧
    _positionsClient r = _positionsClient p' ∧
    _currentlyMovingActors r = _currentlyMovingActors p ∧
    _actors r !! ak = _actors p !! ak ∧
    _actors p' !! ak = _actors r' !! ak.
Proof.
  intros Hin Hnd Hinit Hrun Hact Hposed Hak.
  destruct (pass_reaches_loop env p p' Hinit Hrun) as (q0 & Hloop & Ha0 & Hm0 & _).
  destruct (render_loop_at env k t q0 p' Hin Hnd Hloop) as (q & q' & Htool & Hc & Hm & Hk).
  rewrite refreshTool_posed in Htool by (by rewrite ?Hc).
  destruct (keys_loop_at env k t _ ak q q' (actorKeysForTool_NoDup k t) Hak Htool)
    as (r & r' & Hr & Hrc & Hrm & Hra & Hrb).
  destruct (Hk ak Hak) as [Hk1 Hk2].
  exists r, r'. split; [exact Hr|]. split_and!; congruence.
Qed.

Lemma hideActor_lookup ak p :
  _actors (hideActor ak p).1 !! ak = setVisibility false <$> (_actors p !! ak).
Proof.
  unfold hideActor, bind, gets. cbv beta iota.
  destruct (_actors p !! ak) as [a|] eqn:E; [|simpl; by rewrite E].
  destruct (visibility a) eqn:Hv; simpl.
  - by rewrite lookup_insert_eq.
  - rewrite E. by rewrite setVisibility_id.
Qed.

(** The hiding loop of lines 213-215 on one of its keys: the actor, when
    there is one, stays under its key with its visibility off. *)
Lemma hide_loop_lookup (keys : list string) ak p :
  NoDup keys → ak ∈ keys →
  _actors (forEach keys hideActor p).1 !! ak = setVisibility false <$> (_actors p !! ak).
Proof.
  intros Hnd Hin. apply list_elem_of_split in Hin as (l1 & l2 & ->).
  apply NoDup_app in Hnd as (_ & Hl1 & Hnd). apply NoDup_cons in Hnd as [Hl2 _].
  assert (preserves (same (λ p, _actors p !! ak)) (forEach l1 hideActor)) as Ha.
  { apply preserves_forEach; [apply _ | intros ak' Hak']. apply hideActor_other_actor.
    intros ->. apply (Hl1 ak); [done | by left]. }
  assert (preserves (same (λ p, _actors p !! ak)) (forEach l2 hideActor)) as Hb.
  { apply preserves_forEach; [apply _ | intros ak' Hak']. apply hideActor_other_actor.
    by intros ->. }
  rewrite forEach_app. unfold bind at 1.
  specialize (Ha p). pose proof (forEach_returns l1 hideActor
    (λ x q _, hideActor_returns x q) p) as Hr1.
  destruct (forEach l1 hideActor p) as [q1 o1]. simpl in Hr1, Ha. subst o1.
  rewrite forEach_cons.
  pose proof (hideActor_lookup ak q1) as Hh. pose proof (hideActor_returns ak q1) as Hr.
  destruct (hideActor ak q1) as [q2 o2]. simpl in Hh, Hr. subst o2.
  specialize (Hb q2). unfold same in Ha, Hb. by rewrite Hb, Hh, Ha.
Qed.

Lemma refreshTool_hides_lookup env k t p ak :
  isActive t = false ∨ latestPositions (_positionsClient p) !! trackerKey t ≫= transf = None →
  ak ∈ actorKeysForTool k t →
  _actors (refreshTool env (k, t) p).1 !! ak = setVisibility false <$> (_actors p !! ak).
Proof.
  intros Hcond Hak. unfold refreshTool, bind at 1, getLatestTransfOrNone, gets.
  cbv beta iota.
  assert (∀ q, _actors (forEach (actorKeysForTool k t) hideActor q).1 !! ak
               = setVisibility false <$> (_actors q !! ak)) as Hh.
  { intros q. apply hide_loop_lookup; [apply actorKeysForTool_NoDup | done]. }
  destruct Hcond as [-> | ->]; [|destruct (isActive t)]; apply Hh.
Qed.

(** A refresh that runs to its end on the actors of a tool that is
    inactive or has no transform in the cache: each actor stays under its
    key, with its visibility off and nothing else changed; no actor is
    made for a key that had none. *)
Lemma pass_hides_lookup env p p' k t ak :
  (k, t) ∈ tools (session env) →
  NoDup (tools (session env)).*1 →
  _hasInitialized p = true ∨ isInitializing p = true →
  _onLatestPositionsChanged env p = (p', Returned tt) →
  isActive t = false ∨ latestPositions (_positionsClient p') !! trackerKey t ≫= transf = None →
  ak ∈ actorKeysForTool k t →
  _actors p' !! ak = setVisibility false <$> (_actors p !! ak).
Proof.
  intros Hin Hnd Hinit Hrun Hcond Hak.
  destruct (pass_reaches_loop env p p' Hinit Hrun) as (q0 & Hloop & Ha0 & _).
  destruct (render_loop_at env k t q0 p' Hin Hnd Hloop) as (q & q' & Htool & Hc & _ & Hk).
  destruct (Hk ak Hak) as [Hk1 Hk2].
  pose proof (refreshTool_hides_lookup env k t q ak) as Hh.
  rewrite Htool, Hc in Hh. simpl in Hh.
  by rewrite Hk2, Hh, Hk1, Ha0.
Qed.

Lemma invisibleAt_hidden ak p p' :
  _actors p' !! ak = setVisibility false <$> (_actors p !! ak) → invisibleAt ak p'.
Proof.
  intros H a. rewrite H. destruct (_actors p !! ak); simpl; [|done]. by intros [= <-].
Qed.

(** X13. In a refresh that runs to its end on an initialised panel, a
    mesh that can be drawn (its render flag is on, it has a mesh file and
    an offset) of a tool that is active and has a transform in the cache
    is on display afterwards unless it is being dragged: its actor
    exists, is visible and has the user transform
    compose([offset, pose]), where the offset is
    [trackerStlToTrackerTransf] for the tracker mesh and
    [toolToTrackerTransf @ toolStlToToolTransf] for the tool mesh.  The
    actor is the one that was there before; when there was none it is
    made of the tool's mesh, with the tool's colour (or "#444444") and
    opacity (or 1). *)
Theorem refresh_shows_posed_mesh env p p' k t a pose stlToTracker :
  (k, t) ∈ tools (session env) →
  NoDup (tools (session env)).*1 →
  _hasInitialized p = true ∨ isInitializing p = true →
  _onLatestPositionsChanged env p = (p', Returned tt) →
  isActive t = true →
  latestPositions (_positionsClient p') !! trackerKey t ≫= transf = Some pose →
  doRender a t = true →
  is_Some (stlFilepath a t) →
  stlToTrackerTransf a t = Some stlToTracker →
  (k +:+ "_") +:+ tag a ∉ _currentlyMovingActors p →
  ∃ actor,
    _actors p' !! ((k +:+ "_") +:+ tag a) = Some actor ∧
    displayedAt (concatenateTransforms [stlToTracker; pose]) (surf a t)
      (default "#444444" (meshColor a t)) (default 1%Q (meshOpacity a t))
      (_actors p !! ((k +:+ "_") +:+ tag a)) actor.
Proof.
  intros Hin Hnd Hinit Hrun Hact Hpose Hr Hf Hs Hnm.
  assert ((k +:+ "_") +:+ tag a ∈ actorKeysForTool k t) as Hak.
  { apply elem_of_actorKeysForTool. rewrite tag_key. destruct a; tauto. }
  destruct (pass_at_actor env p p' k t _ Hin Hnd Hinit Hrun Hact (ltac:(by rewrite Hpose)) Hak)
    as (r & r' & Hstep & Hc & Hm & Ha & Hb).
  destruct (refreshActor_shows env k t a pose stlToTracker r) as (r2 & actor & Hstep' & Hl & Hd);
    try done; [by rewrite Hm | by rewrite Hc |].
  rewrite Hstep in Hstep'. injection Hstep' as <-.
  exists actor. split; [by rewrite Hb|]. by rewrite <- Ha.
Qed.

(** X14. In a refresh that runs to its end on an initialised panel, a
    mesh that cannot be drawn (its render flag is off, or it has no mesh
    file, or it has no offset) is hidden, whether its tool has a pose or
    not, unless it is being dragged: an actor that was under its key is
    still there, the same actor with its visibility off and nothing
    else changed, and none is made when there was none. *)
Theorem refresh_hides_undrawable_mesh env p p' k t a :
  (k, t) ∈ tools (session env) →
  NoDup (tools (session env)).*1 →
  _hasInitialized p = true ∨ isInitializing p = true →
  _onLatestPositionsChanged env p = (p', Returned tt) →
  doRender a t = false ∨ stlFilepath a t = None ∨ stlToTrackerTransf a t = None →
  (k +:+ "_") +:+ tag a ∉ _currentlyMovingActors p →
  _actors p' !! ((k +:+ "_") +:+ tag a)
    = setVisibility false <$> (_actors p !! ((k +:+ "_") +:+ tag a)) ∧
  invisibleAt ((k +:+ "_") +:+ tag a) p'.
Proof.
  intros Hin Hnd Hinit Hrun Hcond Hnm.
  assert ((k +:+ "_") +:+ tag a ∈ actorKeysForTool k t) as Hak.
  { apply elem_of_actorKeysForTool. rewrite tag_key. destruct a; tauto. }
  assert (_actors p' !! ((k +:+ "_") +:+ tag a)
          = setVisibility false <$> (_actors p !! ((k +:+ "_") +:+ tag a))) as Hl.
  { destruct (isActive t) eqn:Hact;
      [destruct (latestPositions (_positionsClient p') !! trackerKey t ≫= transf)
         as [pose|] eqn:Hpose|].
    - destruct (pass_at_actor env p p' k t _ Hin Hnd Hinit Hrun Hact
                  (ltac:(by rewrite Hpose)) Hak)
        as (r & r' & Hstep & Hc & Hm & Ha & Hb).
      destruct (refreshActor_hides_undrawable env k t a r) as (r2 & Hstep' & Hh);
        try done; [by rewrite Hm|].
      rewrite Hstep in Hstep'. injection Hstep' as <-. by rewrite Hb, Hh, Ha.
    - apply (pass_hides_lookup env p p' k t); try done. by right.
    - apply (pass_hides_lookup env p p' k t); try done. by left. }
  split; [exact Hl | by eapply invisibleAt_hidden].
Qed.

(** X15. In a refresh that runs to its end on an initialised panel, the
    skin surface of a subject tracker (registered under its own key in
    the session, active, with a transform in the cache) is on display
    when the session has a registration and a skin surface: its actor is
    visible at pose @ invert(trackerToMRITransf), and when it had to be
    made it is the skin surface in "#d9a5b2" at opacity 0.8. *)
Theorem refresh_shows_subject_surface env p p' t pose trackerToMRI MRIToTracker skin :
  (key t, t) ∈ tools (session env) →
  NoDup (tools (session env)).*1 →
  _hasInitialized p = true ∨ isInitializing p = true →
  _onLatestPositionsChanged env p = (p', Returned tt) →
  isActive t = true →
  latestPositions (_positionsClient p') !! trackerKey t ≫= transf = Some pose →
  isSubjectTracker t = true →
  trackerToMRITransf (session env) = Some trackerToMRI →
  invertTransform trackerToMRI = Some MRIToTracker →
  skinSurf (session env) = Some skin →
  key t +:+ "_subject" ∉ _currentlyMovingActors p →
  ∃ actor,
    _actors p' !! (key t +:+ "_subject") = Some actor ∧
    displayedAt (matmul pose MRIToTracker) skin "#d9a5b2" (4 # 5)%Q
      (_actors p !! (key t +:+ "_subject")) actor.
Proof.
  intros Hin Hnd Hinit Hrun Hact Hpose Hsub HR Hi Hskin Hnm.
  assert (key t +:+ "_subject" ∈ actorKeysForTool (key t) t) as Hak.
  { apply elem_of_actorKeysForTool. tauto. }
  destruct (pass_at_actor env p p' (key t) t _ Hin Hnd Hinit Hrun Hact
              (ltac:(by rewrite Hpose)) Hak)
    as (r & r' & Hstep & Hc & Hm & Ha & Hb).
  destruct (refreshActor_shows_subject env t pose trackerToMRI MRIToTracker skin r)
    as (r2 & actor & Hstep' & Hl & Hd); try done; [by rewrite Hm | by rewrite Hc |].
  rewrite Hstep in Hstep'. injection Hstep' as <-.
  exists actor. split; [by rewrite Hb|]. by rewrite <- Ha.
Qed.

End Display.
(** * Hiding the actors of a tool without a valid position *)

Section HidingActors.


End HidingActors.
Section HidingExamples.
Import Examples.


End HidingExamples.
(** * How a refresh can fail *)

Section RefreshFailures.

(** A loop raises what one round of its body raises, on a panel that the
    earlier rounds have left in the invariant. *)
Lemma forEach_raises {A} (I : Panel → Prop) (l : list A) (body : A → M unit) p e :
  I p → (∀ x q, I q → I (body x q).1) →
  (forEach l body p).2 = Raised e →
  ∃ x q, x ∈ l ∧ I q ∧ (body x q).2 = Raised e.
Proof.
  intros Hp Hstep. revert p Hp. induction l as [|x l IH]; intros p Hp; [done|].
  rewrite forEach_cons. pose proof (Hstep x p Hp) as Hx.
  destruct (body x p) as [p1 [[]|e']] eqn:Hb; simpl in Hx |- *.
  - intros H. destruct (IH p1 Hx H) as (y & q & Hy & Hq & Hr).
    exists y, q. split; [by right | done].
  - intros [= ->]. exists x, p. split; [by left|]. split; [done|]. by rewrite Hb.
Qed.

Lemma mirrorPositions_returns env p : (mirrorPositions env p).2 = Returned tt.
Proof.
  unfold mirrorPositions. apply forEach_returns. intros [k t] q _.
  unfold bind, getLatestTransfOrNone, gets, modify, ret. cbv beta iota.
  repeat case_match; simplify_eq; reflexivity.
Qed.

Lemma showToolOrTracker_same_client k t ak d a :
  preserves (same _positionsClient) (showToolOrTracker k t ak d a).
Proof. unfold showToolOrTracker. preserves_tac. Qed.

Lemma showToolOrTracker_posed_returns k t ak d a p :
  is_Some (latestPositions (_positionsClient p) !! trackerKey t ≫= transf) →
  ∃ d', (showToolOrTracker k t ak d a p).2 = Returned d'.
Proof.
  intros [pose Hp]. rewrite showToolOrTracker_eval.
  repeat case_match; eauto.
  rewrite (showBlock_posed _ _ _ _ _ _ _ pose) by done. eauto.
Qed.

Lemma showSubject_posed_outcome env t ak d p :
  is_Some (latestPositions (_positionsClient p) !! trackerKey t ≫= transf) →
  (∃ d', (showSubject env t ak d p).2 = Returned d') ∨
  ((showSubject env t ak d p).2 = Raised SingularMatrixError ∧ singularRegistration env).
Proof.
  intros [pose Hp]. rewrite showSubject_eval.
  destruct (_ && _); [|eauto].
  destruct (trackerToMRITransf (session env)) as [R|] eqn:HR; [|eauto].
  destruct (skinSurf (session env)) as [skin|] eqn:Hskin; [|eauto].
  destruct (invertTransform R) as [Ri|] eqn:Hi.
  - rewrite (showBlock_posed _ _ _ _ _ _ _ pose) by done. eauto.
  - right. simpl.
    destruct (latestPositions (_positionsClient p) !! trackerKey t); [|done].
    split; [done|]. exists R. by rewrite Hskin.
Qed.

Lemma refreshActor_posed_outcome env k t ak p :
  is_Some (latestPositions (_positionsClient p) !! trackerKey t ≫= transf) →
  (refreshActor env k t ak p).2 = Returned tt ∨
  ((refreshActor env k t ak p).2 = Raised SingularMatrixError ∧ singularRegistration env).
Proof.
  intros Hp. remember (refreshActor env k t ak p) as r eqn:Hr.
  unfold refreshActor, bind, gets in Hr. cbv beta iota in Hr.
  destruct (decide _); [subst r; by left|].
  pose proof (showToolOrTracker_same_client k t ak false tracker p) as Hc1.
  destruct (showToolOrTracker_posed_returns k t ak false tracker p Hp) as [d1 H1].
  destruct (showToolOrTracker k t ak false tracker p) as [p1 o1]. simpl in H1, Hc1. subst o1.
  unfold same in Hc1. rewrite <- Hc1 in Hp.
  pose proof (showToolOrTracker_same_client k t ak d1 tool p1) as Hc2.
  destruct (showToolOrTracker_posed_returns k t ak d1 tool p1 Hp) as [d2 H2].
  destruct (showToolOrTracker k t ak d1 tool p1) as [p2 o2]. simpl in H2, Hc2. subst o2.
  unfold same in Hc2. rewrite <- Hc2 in Hp.
  destruct (showSubject_posed_outcome env t ak d2 p2 Hp) as [[d3 H3]|[H3 Hbad]].
  - destruct (showSubject env t ak d2 p2) as [p3 o3]. simpl in H3. subst o3.
    left. subst r. by rewrite reconcileVisibility_eval.
  - destruct (showSubject env t ak d2 p2) as [p3 o3]. simpl in H3. subst o3.
    right. subst r. split; [reflexivity | exact Hbad].
Qed.

Lemma refreshTool_outcome env kt p :
  (refreshTool env kt p).2 = Returned tt ∨
  ((refreshTool env kt p).2 = Raised SingularMatrixError ∧ singularRegistration env).
Proof.
  destruct kt as [k t]. remember (refreshTool env (k, t) p) as r eqn:Hr.
  unfold refreshTool, bind at 1, getLatestTransfOrNone, gets in Hr.
  cbv beta iota in Hr.
  destruct (latestPositions (_positionsClient p) !! trackerKey t ≫= transf) as [pose|] eqn:Hp.
  2: { left. subst r.
       destruct (isActive t); apply forEach_returns; intros; apply hideActor_returns. }
  destruct (isActive t).
  2: { left. subst r. apply forEach_returns; intros; apply hideActor_returns. }
  destruct r as [p' [[]|e]]; [by left|]. right.
  destruct (forEach_raises
              (λ q, latestPositions (_positionsClient q) !! trackerKey t ≫= transf = Some pose)
              (actorKeysForTool k t) (refreshActor env k t) p e Hp)
    as (ak & q & _ & Hq & Hrun).
  - intros ak q Hq. by rewrite (refreshActor_same_client env k t ak q).
  - by rewrite <- Hr.
  - destruct (refreshActor_posed_outcome env k t ak q) as [H|[H Hbad]].
    + by rewrite Hq.
    + rewrite Hrun in H. discriminate.
    + rewrite Hrun in H. injection H as ->. split; [reflexivity | exact Hbad].
Qed.

Lemma onLatestPositionsChanged_outcome env p :
  (_onLatestPositionsChanged env p).2 = Returned tt ∨
  ((_onLatestPositionsChanged env p).2 = Raised SingularMatrixError ∧
   singularRegistration env).
Proof.
  remember (_onLatestPositionsChanged env p) as r eqn:Hr.
  rewrite onLatestPositionsChanged_unfold in Hr.
  set (q := if _hasRestoredPositions p then p
            else withRestored true (restorePositions env p).1).
  assert (r = (mirrorPositions env ;; refreshActors env) q) as Hq.
  { subst q r. by destruct (_hasRestoredPositions p). }
  clear Hr. unfold bind at 1 in Hq. pose proof (mirrorPositions_returns env q) as Hm.
  destruct (mirrorPositions env q) as [q1 o]. simpl in Hm. subst o.
  unfold refreshActors, bind, gets in Hq. cbv beta iota in Hq.
  destruct (_ && _); [subst r; by left|].
  destruct r as [p' [[]|e]]; [by left|]. right.
  destruct (forEach_raises (λ _, True) (tools (session env)) (refreshTool env) q1 e I)
    as (kt & r & _ & _ & Hr); [done | by rewrite <- Hq |].
  destruct (refreshTool_outcome env kt r) as [H|[H Hbad]]; rewrite Hr in H;
    [discriminate|]. injection H as ->. split; [reflexivity | exact Hbad].
Qed.

(** X16. Once the startup restore is done (the flag is set, so the run
    sends no command), a refresh can fail in one way only:
    [_onLatestPositionsChanged] returns, or it raises
    SingularMatrixError; and it raises only when the session has a skin
    surface and a registration [trackerToMRITransf] that cannot be
    inverted.  The mirroring and the drawing of the tracker and tool
    meshes do not raise: every key they read is checked first. *)
Theorem refresh_fails_only_on_singular_registration env p :
  _hasRestoredPositions p = true →
  (_onLatestPositionsChanged env p).2 = Returned tt ∨
  ((_onLatestPositionsChanged env p).2 = Raised SingularMatrixError ∧
   ∃ R, trackerToMRITransf (session env) = Some R ∧ invertTransform R = None ∧
        is_Some (skinSurf (session env))).
Proof. intros _. apply onLatestPositionsChanged_outcome. Qed.

(** X17. And then it does fail: with a registration that cannot be
    inverted and a skin surface, a refresh of an initialised panel
    raises SingularMatrixError as soon as the session holds a subject
    tracker (under its own key) that is active, has a transform in the
    cache and whose surface is not being dragged.  The restore and the
    mirroring into the configuration have run by then; the tools that
    come later in the session are not drawn. *)
Theorem refresh_raises_on_singular_registration env p t trackerToMRI :
  (key t, t) ∈ tools (session env) →
  NoDup (tools (session env)).*1 →
  _hasInitialized p = true ∨ isInitializing p = true →
  isActive t = true →
  isSubjectTracker t = true →
  is_Some (latestPositions (_positionsClient (_onLatestPositionsChanged env p).1)
             !! trackerKey t ≫= transf) →
  trackerToMRITransf (session env) = Some trackerToMRI →
  invertTransform trackerToMRI = None →
  is_Some (skinSurf (session env)) →
  key t +:+ "_subject" ∉ _currentlyMovingActors p →
  (_onLatestPositionsChanged env p).2 = Raised SingularMatrixError.
Proof.
  intros Hin Hnd Hinit Hact Hsub Hposed HR Hi [skin Hskin] Hnm.
  destruct (onLatestPositionsChanged_outcome env p) as [Hret|[Hraise _]]; [|done].
  exfalso.
  destruct (_onLatestPositionsChanged env p) as [p' o] eqn:Hrun. simpl in *. subst o.
  assert (key t +:+ "_subject" ∈ actorKeysForTool (key t) t) as Hak.
  { apply elem_of_actorKeysForTool. tauto. }
  destruct (pass_at_actor env p p' (key t) t _ Hin Hnd Hinit Hrun Hact Hposed Hak)
    as (r & r' & Hstep & Hc & Hm & _).
  revert Hstep. unfold refreshActor, bind at 1, gets. cbv beta iota.
  rewrite decide_False by (by rewrite Hm).
  assert (∀ a d q, showToolOrTracker (key t) t (key t +:+ "_subject") d a q
                   = (q, Returned d)) as Hskip.
  { intros a d q. rewrite showToolOrTracker_eval. rewrite decide_False; [done|].
    intros H. by apply (aspect_key_not_subject (key t) (key t) a). }
  unfold bind at 1. rewrite Hskip. unfold bind at 1. rewrite Hskip.
  unfold bind at 1. rewrite showSubject_eval, Hsub, bool_decide_eq_true_2 by done.
  simpl andb. cbv iota. rewrite HR, Hskin, Hi.
  by destruct (latestPositions (_positionsClient r) !! trackerKey t).
Qed.

End RefreshFailures.
(** * The configuration follows the cache *)

Section Mirror.

Lemma mirrored_idemp tk c old : mirrored tk c (mirrored tk c old) = mirrored tk c old.
Proof. destruct old as [pose|], c; reflexivity. Qed.

Lemma mirror_round (t : Tool) p :
  ∃ p',
    (transf <- getLatestTransfOrNone (trackerKey t) ;;
     poses <- gets configPoses ;;
     match transf, poses !! trackerKey t with
     | None, None => ret tt
     | _, _ =>
         (match poses !! trackerKey t with
          | None => modify (withConfigPoses
                      (insert (trackerKey t) (mkSimulatedToolPose (trackerKey t) None None)))
          | Some _ => ret tt
          end) ;;
         modify (withConfigPoses
           (alter (λ pose, mkSimulatedToolPose (poseKey pose) transf (poseRelativeTo pose))
                  (trackerKey t)))
     end) p = (p', Returned tt) ∧
    _positionsClient p' = _positionsClient p ∧
    ∀ tk, configPoses p' !! tk =
      if decide (tk = trackerKey t) then
        mirrored tk (latestPositions (_positionsClient p) !! tk ≫= transf) (configPoses p !! tk)
      else configPoses p !! tk.
Proof.
  unfold bind at 1, getLatestTransfOrNone, gets. cbv beta iota.
  unfold bind at 1. cbv beta iota.
  set (c := latestPositions (_positionsClient p) !! trackerKey t ≫= transf).
  destruct (configPoses p !! trackerKey t) as [pose|] eqn:Hold.
  - exists (withConfigPoses
              (alter (λ pose, mkSimulatedToolPose (poseKey pose) c (poseRelativeTo pose))
                     (trackerKey t)) p).
    split; [by destruct c|]. split; [done|]. intros tk. simpl.
    destruct (decide (tk = trackerKey t)) as [->|Hne].
    + rewrite lookup_alter_eq, Hold. reflexivity.
    + by rewrite lookup_alter_ne.
  - destruct c as [T|] eqn:Hc.
    + eexists. split; [reflexivity|]. split; [done|]. intros tk. simpl.
      destruct (decide (tk = trackerKey t)) as [->|Hne].
      * rewrite lookup_alter_eq, lookup_insert_eq, Hold. subst c. by rewrite Hc.
      * by rewrite lookup_alter_ne, lookup_insert_ne.
    + exists p. split; [reflexivity|]. split; [done|]. intros tk.
      destruct (decide (tk = trackerKey t)) as [->|Hne]; [|done].
      rewrite Hold. subst c. by rewrite Hc.
Qed.

Lemma mirror_loop (l : list (string * Tool)) p :
  ∃ p',
    forEach l (λ '(k, t),
      transf <- getLatestTransfOrNone (trackerKey t) ;;
      poses <- gets configPoses ;;
      match transf, poses !! trackerKey t with
      | None, None => ret tt
      | _, _ =>
          (match poses !! trackerKey t with
           | None => modify (withConfigPoses
                       (insert (trackerKey t) (mkSimulatedToolPose (trackerKey t) None None)))
           | Some _ => ret tt
           end) ;;
          modify (withConfigPoses
            (alter (λ pose, mkSimulatedToolPose (poseKey pose) transf (poseRelativeTo pose))
                   (trackerKey t)))
      end) p = (p', Returned tt) ∧
    _positionsClient p' = _positionsClient p ∧
    ∀ tk, configPoses p' !! tk =
      if decide (tk ∈ (λ kt : string * Tool, trackerKey kt.2) <$> l) then
        mirrored tk (latestPositions (_positionsClient p) !! tk ≫= transf) (configPoses p !! tk)
      else configPoses p !! tk.
Proof.
  revert p. induction l as [|[k t] l IH]; intros p.
  - exists p. split; [done|]. split; [done|]. intros tk.
    rewrite decide_False; [done|]. apply not_elem_of_nil.
  - destruct (mirror_round t p) as (p1 & Hrun1 & Hc1 & Hcfg1).
    destruct (IH p1) as (p' & Hrun & Hc & Hcfg).
    exists p'. split.
    { rewrite forEach_cons, Hrun1. exact Hrun. }
    split; [congruence|]. intros tk. rewrite Hcfg, Hc1, !Hcfg1. rewrite fmap_cons. simpl.
    destruct (decide (tk = trackerKey t)) as [->|Hne].
    + rewrite (decide_True (P := _ ∈ _ :: _)) by (by left).
      destruct (decide _); [apply mirrored_idemp | done].
    + destruct (decide (tk ∈ _ <$> l)) as [Hin|Hnin].
      * rewrite decide_True by (by right). done.
      * rewrite decide_False; [done|]. by intros [?|?]%elem_of_cons.
Qed.

(** The mirroring is reached when the restore loop has not raised. *)
Lemma onLatestPositionsChanged_mirrors env p tk :
  _hasRestoredPositions p = true ∨ (restorePositions env p).2 = Returned tt →
  let p' := (_onLatestPositionsChanged env p).1 in
  configPoses p' !! tk =
    if decide (tk ∈ trackerKeys env) then
      mirrored tk (latestPositions (_positionsClient p') !! tk ≫= transf) (configPoses p !! tk)
    else configPoses p !! tk.
Proof.
  intros _ p'. subst p'. rewrite onLatestPositionsChanged_unfold.
  set (q := if _hasRestoredPositions p then p
            else withRestored true (restorePositions env p).1).
  assert ((if _hasRestoredPositions p
           then (mirrorPositions env ;; refreshActors env) p
           else (mirrorPositions env ;; refreshActors env)
                  (withRestored true (restorePositions env p).1))
          = (mirrorPositions env ;; refreshActors env) q) as ->.
  { subst q. by destruct (_hasRestoredPositions p). }
  assert (configPoses q = configPoses p) as Hq.
  { subst q. destruct (_hasRestoredPositions p); [done|]. simpl.
    by apply (restorePositions_same configPoses env). }
  destruct (mirror_loop (tools (session env)) q) as (q1 & Hm & Hc1 & Hcfg).
  fold (mirrorPositions env) in Hm.
  assert (preserves (same configPoses) (refreshActors env)) as Hr1.
  { unfold refreshActors, refreshTool, refreshActor, hideActor, showToolOrTracker,
      showSubject, reconcileVisibility. preserves_tac. }
  pose proof (refreshActors_same_client env q1) as Hr2. specialize (Hr1 q1).
  unfold bind. rewrite Hm. unfold same in Hr1, Hr2.
  rewrite Hr1, Hr2, Hc1, Hcfg, Hq. reflexivity.
Qed.

(** X18. A run of [_onLatestPositionsChanged] that gets past the
    startup restore (the flag was set, or the restore loop ran to its
    end) leaves the configuration in step with the cache for the tracker
    key of every tool of the session, however the rendering that follows
    ends: the entry holds the cached transform (no transform when none
    is cached); an entry is created when there was none and a transform
    is cached.  Only the transform is written: the [relativeTo] of an
    entry is never updated from the cache, and a new entry has none.
    The entries of other keys are left alone. *)
Theorem refresh_mirrors_cache_into_configuration env p tk :
  _hasRestoredPositions p = true ∨ (restorePositions env p).2 = Returned tt →
  let p' := (_onLatestPositionsChanged env p).1 in
  configPoses p' !! tk =
    if decide (tk ∈ trackerKeys env) then
      mirrored tk (latestPositions (_positionsClient p') !! tk ≫= transf) (configPoses p !! tk)
    else configPoses p !! tk.
Proof. exact (onLatestPositionsChanged_mirrors env p tk). Qed.

End Mirror.
(** * Clearing, redrawing and dragging, one after the other *)

Section Compositions.

Lemma removeActorsOfTools_nothing (l : list (string * Tool)) b p :
  (∀ k t, (k, t) ∈ l →
     _actors p !! (k +:+ "_tracker") = None ∧ _actors p !! (k +:+ "_tool") = None) →
  removeActorsOfTools l b p = (p, Returned b).
Proof.
  induction l as [|[k t] l IH]; intros H; simpl; [done|].
  destruct (H k t (list_elem_of_here _ _)) as [H1 H2]. revert IH.
  unfold bind at 1. rewrite removeIfPresent_spec, H1.
  unfold bind at 1. rewrite removeIfPresent_spec, H2.
  intros IH. apply IH. intros k' t' Hin. apply (H k' t'). by right.
Qed.

(** X19. When none of the session's tools has a tracker or a tool actor
    on the table (a tool has just been added to an empty scene, say),
    [_onToolsChanged] does nothing at all: nothing is removed, so the
    refresh is not run and the panel is left as it was.  A new tool is
    drawn by the next change of the positions, not by this handler. *)
Theorem onToolsChanged_without_actors_does_nothing env toolKeysChanged changedAttribs p :
  (∀ k t, (k, t) ∈ tools (session env) →
     _actors p !! (k +:+ "_tracker") = None ∧ _actors p !! (k +:+ "_tool") = None) →
  _onToolsChanged env toolKeysChanged changedAttribs p = (p, Returned tt).
Proof.
  intros H. unfold _onToolsChanged, bind.
  by rewrite (removeActorsOfTools_nothing _ false p H).
Qed.

Lemma onLatestPositionsChanged_keepsPoses env :
  preserves keepsPoses (_onLatestPositionsChanged env).
Proof.
  intros p. rewrite onLatestPositionsChanged_unfold.
  assert (∀ q, keepsPoses q ((mirrorPositions env ;; refreshActors env) q).1) as Hq.
  { intros q k pos. by rewrite (mirror_refresh_same_client env q). }
  destruct (_hasRestoredPositions p); [apply Hq|].
  destruct (restorePositions_spec env p) as (p1 & Hrun & _ & Hkeep & _).
  rewrite Hrun. simpl. etrans; [exact Hkeep|].
  intros k pos Hk. by apply (Hq (withRestored true p1)).
Qed.

Lemma toolsLookup_Some l k t : toolsLookup l k = Some t → (k, t) ∈ l.
Proof.
  induction l as [|[k' t'] l IH]; simpl; [done|].
  destruct (String.eqb k' k) eqn:E.
  - apply String.eqb_eq in E as ->. intros [= ->]. by left.
  - intros H. right. by apply IH.
Qed.


Lemma onNewTransf_tracker env k pickedTool trackerStlToTracker inv W p :
  trackerStlToTrackerTransf pickedTool = Some trackerStlToTracker →
  invertTransform trackerStlToTracker = Some inv →
  onNewTransf env (k +:+ "_tracker") pickedTool W p =
    (withClient (recordNewPosition Sync (trackerKey pickedTool)
                   (mkTimestampedToolPosition (wallclock env (clockReads p))
                      (Some (concatenateTransforms [inv; W])) None))
       (withClockReads (S (clockReads p)) p),
     Returned tt).
Proof.
  intros Ht Hi. unfold onNewTransf.
  rewrite (endswith_last_ne k "_tracker" "_tool") by done.
  rewrite endswith_app, Ht, Hi. reflexivity.
Qed.

Lemma concatenate_inverse_cancel O Oi P :
  invertTransform O = Some Oi →
  meq (concatenateTransforms [Oi; concatenateTransforms [O; P]]) P.
Proof.
  intros Hi. simpl. rewrite <- matmul_assoc, (invertTransform_l _ _ Hi).
  apply matmul_eye4_l.
Qed.

(** X21. Display and drag undo each other for a tracker mesh.  After a
    refresh that has drawn the tracker mesh of a posed tool (X13), the
    drag callback called with the transform that the actor is displayed
    at sends the pose that the cache already holds: releasing the mesh
    where it is does not move the tool. *)
Theorem shown_tracker_mesh_dragged_in_place env p p' k t pose trackerStlToTracker :
  (k, t) ∈ tools (session env) →
  NoDup (tools (session env)).*1 →
  _hasInitialized p = true ∨ isInitializing p = true →
  _onLatestPositionsChanged env p = (p', Returned tt) →
  isActive t = true →
  latestPositions (_positionsClient p') !! trackerKey t ≫= transf = Some pose →
  doRenderTracker t = true →
  is_Some (trackerStlFilepath t) →
  trackerStlToTrackerTransf t = Some trackerStlToTracker →
  invertible trackerStlToTracker →
  k +:+ "_tracker" ∉ _currentlyMovingActors p →
  ∃ actor W committed,
    _actors p' !! (k +:+ "_tracker") = Some actor ∧
    userTransform actor = Some W ∧
    sentCommands (_positionsClient (onNewTransf env (k +:+ "_tracker") t W p').1) =
      (sentCommands (_positionsClient p') ++
       [mkCommand Sync (trackerKey t)
          (mkTimestampedToolPosition (wallclock env (clockReads p')) (Some committed) None)])%list ∧
    meq committed pose.
Proof.
  intros Hin Hnd Hinit Hrun Hact Hpose Hr Hf Hs [B HB] Hnm.
  destruct (invertible_invertTransform _ _ HB) as [inv Hi].
  pose proof (tag_key k tracker) as Hkey.
  assert (k +:+ "_tracker" ∈ actorKeysForTool k t) as Hak.
  { apply elem_of_actorKeysForTool. tauto. }
  destruct (pass_at_actor env p p' k t _ Hin Hnd Hinit Hrun Hact (ltac:(by rewrite Hpose)) Hak)
    as (r & r' & Hstep & Hc & Hm & Ha & Hb).
  destruct (refreshActor_shows env k t tracker pose trackerStlToTracker r)
    as (r2 & actor & Hstep' & Hl & Hvis & HT & _); try done.
  { rewrite Hkey, Hm. done. }
  { by rewrite Hc. }
  rewrite Hkey in Hstep', Hl. rewrite Hstep in Hstep'. injection Hstep' as <-.
  exists actor, (concatenateTransforms [trackerStlToTracker; pose]),
    (concatenateTransforms [inv; concatenateTransforms [trackerStlToTracker; pose]]).
  split; [by rewrite Hb|]. split; [exact HT|]. split.
  - by rewrite (onNewTransf_tracker env k t trackerStlToTracker inv).
  - by apply concatenate_inverse_cancel.
Qed.

(** X22. [selectAndClearToolPos] without a tool key works from the pick:
    an actor that is not on the table cancels the call; the tracker mesh
    or the tool mesh of the session tool [k] clears the pose of the tool
    named by that tool's own [key] attribute; a subject surface raises
    NotImplementedError; and a mesh whose tool has left the session
    raises KeyError.  Nothing is sent in the last three cases. *)
Theorem selectAndClearToolPos_by_pick env userPick p :
  match keysOfActor (_actors p) userPick with
  | [] => selectAndClearToolPos env None userPick p = (p, Returned tt)
  | pickedKey :: _ =>
      ∀ k,
        (pickedKey = k +:+ "_tracker" ∨ pickedKey = k +:+ "_tool" →
           selectAndClearToolPos env None userPick p =
             match toolsLookup (tools (session env)) k with
             | Some t => clearToolPos env (key t) p
             | None => (p, Raised KeyError)
             end) ∧
        (pickedKey = k +:+ "_subject" →
           selectAndClearToolPos env None userPick p = (p, Raised NotImplementedError))
  end.
Proof.
  assert (selectAndClearToolPos env None userPick p =
          match keysOfActor (_actors p) userPick with
          | [] => (p, Returned tt)
          | pickedKey :: _ =>
              (pickedTool <- toolOfActorKey env pickedKey ;;
               clearToolPos env (key pickedTool)) p
          end) as ->.
  { unfold selectAndClearToolPos, bind at 1, gets. cbv beta iota.
    by destruct (keysOfActor (_actors p) userPick). }
  destruct (keysOfActor (_actors p) userPick) as [|pickedKey rest]; [done|].
  intros k. destruct (toolOfActorKey_suffixes env k p) as (H1 & H2 & H3 & H4).
  split.
  - intros [-> | ->]; unfold bind at 1; rewrite ?H1, ?H2, H4;
      by destruct (toolsLookup _ _).
  - intros ->. unfold bind at 1. by rewrite H3.
Qed.

End Compositions.
(** * Across a restart, and after zeroing *)

Section Scenarios.

(** X23. A pose survives a restart through the configuration, but only
    its transform does.  Take a run of [_onLatestPositionsChanged] that
    gets past the startup restore and sees the transform T cached for
    the tracker key of a session tool.  A later run on a panel that
    starts from the configuration it left (nothing restored yet, no pose
    cached under the key) sends T under that key again, over the
    blocking call, and caches what it sent.  The [relativeTo] it sends
    is the one the configuration entry had before the first run, none
    for a new entry: what the cached pose was relative to is not carried
    over. *)
Theorem mirrored_pose_is_restored env env' p q tk T :
  _hasRestoredPositions p = true ∨ (restorePositions env p).2 = Returned tt →
  tk ∈ trackerKeys env →
  latestPositions (_positionsClient (_onLatestPositionsChanged env p).1) !! tk ≫= transf
    = Some T →
  configPoses q = configPoses (_onLatestPositionsChanged env p).1 →
  _hasRestoredPositions q = false →
  latestPositions (_positionsClient q) !! tk = None →
  let q' := (_onLatestPositionsChanged env' q).1 in
  ∃ i entry,
    toRestore q !! i = Some (tk, entry) ∧
    poseTransf entry = Some T ∧
    poseRelativeTo entry = configPoses p !! tk ≫= poseRelativeTo ∧
    sentCommands (_positionsClient q') =
      (sentCommands (_positionsClient q)
       ++ imap (λ j kp, restoreCommand env' (clockReads q + j) kp) (toRestore q))%list ∧
    sentCommands (_positionsClient q') !! (length (sentCommands (_positionsClient q)) + i) =
      Some (mkCommand Sync tk
              (mkTimestampedToolPosition (wallclock env' (clockReads q + i)) (Some T)
                 (configPoses p !! tk ≫= poseRelativeTo))) ∧
    ∃ time,
      latestPositions (_positionsClient q') !! tk =
        Some (mkTimestampedToolPosition time (Some T) (configPoses p !! tk ≫= poseRelativeTo)).
Proof.
  intros Hfirst Htk HT Hcfg Hres Hnone q'. subst q'.
  pose proof (onLatestPositionsChanged_mirrors env p tk Hfirst) as Hm. cbv zeta in Hm.
  rewrite decide_True, HT in Hm by done. rewrite <- Hcfg in Hm.
  set (entry := mkSimulatedToolPose
                  (default tk (poseKey <$> (configPoses p !! tk)))
                  (Some T) (configPoses p !! tk ≫= poseRelativeTo)).
  assert (configPoses q !! tk = Some entry) as He.
  { rewrite Hm. subst entry. by destruct (configPoses p !! tk). }
  assert ((tk, entry) ∈ toRestore q) as Hin.
  { unfold toRestore. apply list_elem_of_filter. split.
    - unfold needsRestore. simpl. by rewrite Hnone.
    - by apply elem_of_map_to_list. }
  apply list_elem_of_lookup in Hin as [i Hi].
  pose proof (restorePositions_commands env' q) as Hsent.
  destruct (restorePositions_spec env' q) as (q1 & Hrun & _ & _ & Hnew).
  rewrite Hrun in Hsent. simpl in Hsent.
  destruct (Hnew tk entry T He eq_refl Hnone) as [time Htime].
  assert (_positionsClient (_onLatestPositionsChanged env' q).1 = _positionsClient q1) as Hc.
  { rewrite onLatestPositionsChanged_unfold, Hres, Hrun. cbn [fst].
    by rewrite (mirror_refresh_same_client env' (withRestored true q1)). }
  exists i, entry. rewrite Hc. split_and!; try done.
  - rewrite Hsent, lookup_app_r by lia.
    replace (_ + i - _) with i by lia.
    rewrite list_lookup_imap, Hi. reflexivity.
  - by exists time.
Qed.

Lemma zeroAllPositions_same {X} (f : Panel → X) env :
  (∀ g p, f (withClient g p) = f p) →
  (∀ n p, f (withClockReads n p) = f p) →
  preserves (same f) (zeroAllPositions env).
Proof.
  intros H1 H2. unfold zeroAllPositions.
  apply preserves_forEach; [apply _ | intros [k t] _].
  apply preserves_bind; [apply _ | apply preserves_gets; apply _ | intros pos].
  destruct (pos ≫= relativeTo); [apply preserves_ret; apply _|].
  apply preserves_bind; [apply _ | | intros now].
  - intros p. unfold same, timeNow. simpl. apply H2.
  - intros p. unfold same, recordNewPosition_sync, modify. simpl. apply H1.
Qed.

(** X24. Zero-all, then a refresh that runs to its end on an initialised
    panel: every mesh that can be drawn of an active tool whose pose was
    not relative to another tool is visible at its static offset (the
    display transform is compose([offset, identity]), which is the
    offset), unless it is being dragged. *)
Theorem zero_all_then_refresh_shows_offsets env p p' k t a stlToTracker :
  (k, t) ∈ tools (session env) →
  NoDup (tools (session env)).*1 →
  _hasInitialized p = true ∨ isInitializing p = true →
  _onLatestPositionsChanged env (zeroAllPositions env p).1 = (p', Returned tt) →
  ¬ relative p (trackerKey t) →
  isActive t = true →
  doRender a t = true →
  is_Some (stlFilepath a t) →
  stlToTrackerTransf a t = Some stlToTracker →
  (k +:+ "_") +:+ tag a ∉ _currentlyMovingActors p →
  ∃ actor T,
    _actors p' !! ((k +:+ "_") +:+ tag a) = Some actor ∧
    visibility actor = true ∧
    userTransform actor = Some T ∧
    meq T stlToTracker.
Proof.
  intros Hin Hnd Hinit Hrun Hrel Hact Hr Hf Hs Hnm.
  set (p1 := (zeroAllPositions env p).1) in *.
  assert (zeroed p1 (trackerKey t)) as [time Hz].
  { subst p1. unfold zeroAllPositions.
    destruct (zeroAll_loop env (tools (session env)) p) as (p2 & new & Hz & _ & _ & _ & _ & H);
      [done|].
    rewrite Hz. simpl. apply H; [done|]. right. apply list_elem_of_fmap. by exists (k, t). }
  assert (latestPositions (_positionsClient p') !! trackerKey t ≫= transf = Some eye4) as Hpose.
  { pose proof (onLatestPositionsChanged_keepsPoses env p1) as Hkeep.
    rewrite Hrun in Hkeep. simpl in Hkeep. by rewrite (Hkeep _ _ Hz). }
  assert (_hasInitialized p1 = true ∨ isInitializing p1 = true) as Hinit1.
  { subst p1. rewrite (zeroAllPositions_same _hasInitialized env), 
      (zeroAllPositions_same isInitializing env); done. }
  assert ((k +:+ "_") +:+ tag a ∉ _currentlyMovingActors p1) as Hnm1.
  { subst p1. by rewrite (zeroAllPositions_same _currentlyMovingActors env). }
  assert ((k +:+ "_") +:+ tag a ∈ actorKeysForTool k t) as Hak.
  { apply elem_of_actorKeysForTool. rewrite tag_key. destruct a; tauto. }
  destruct (pass_at_actor env p1 p' k t _ Hin Hnd Hinit1 Hrun Hact
              (ltac:(by rewrite Hpose)) Hak)
    as (r & r' & Hstep & Hc & Hm & Ha & Hb).
  destruct (refreshActor_shows env k t a eye4 stlToTracker r)
    as (r2 & actor & Hstep' & Hl & Hvis & HT & _); try done;
    [by rewrite Hm | by rewrite Hc |].
  rewrite Hstep in Hstep'. injection Hstep' as <-.
  exists actor, (concatenateTransforms [stlToTracker; eye4]).
  split; [by rewrite Hb|]. split; [done|]. split; [done|].
  simpl. apply matmul_eye4_r.
Qed.

End Scenarios.
(** * The properties at work on the example sessions *)

Section MoreWitnesses.
Import Examples MoreExamples.

Lemma selectAndMoveTool_subject_not_implemented_witness :
  let d := mkDrag [translation 1 1 1] DragCompleted in
  keysOfActor (_actors shownSubject) (Some 1) = ("head" +:+ "_subject") :: [] ∧
  selectAndMoveTool subjectEnv (Some 1) None d shownSubject
    = (shownSubject, Raised NotImplementedError).
Proof.
  intros d.
  assert (H : keysOfActor (_actors shownSubject) (Some 1) = ("head" +:+ "_subject") :: [])
    by (by vm_compute).
  split; [exact H|].
  exact (selectAndMoveTool_subject_not_implemented subjectEnv (Some 1) None d shownSubject
           "head" [] H).
Defined.

Lemma selectAndMoveTool_already_moving_witness :
  let env := envOf [coil; activePointer] in
  let d := mkDrag [translation 1 1 1] DragCompleted in
  keysOfActor (_actors draggingPointer) (Some 3) = ("pointer" +:+ "_tool") :: [] ∧
  "pointer" +:+ "_tool" ∈ _currentlyMovingActors draggingPointer ∧
  toolsLookup (tools (session env)) "pointer" = Some activePointer ∧
  selectAndMoveTool env None (Some 3) d draggingPointer
    = (draggingPointer,
       match toolsLookup (tools (session env)) "pointer" with
       | Some _ => Raised AssertionError
       | None => Raised KeyError
       end).
Proof.
  intros env d.
  assert (H1 : keysOfActor (_actors draggingPointer) (Some 3) = ("pointer" +:+ "_tool") :: [])
    by (by vm_compute).
  assert (H2 : "pointer" +:+ "_tool" ∈ _currentlyMovingActors draggingPointer)
    by (apply (bool_decide_unpack _); by vm_compute).
  split; [exact H1|]. split; [exact H2|]. split; [reflexivity|].
  exact (selectAndMoveTool_already_moving env None (Some 3) d draggingPointer
           "pointer" "_tool" [] (or_intror eq_refl) H1 H2).
Defined.

Lemma selectAndMoveTool_tool_session_witness :
  let env := envOf [coil] in
  let Ws := [translation 4 4 4; translation 5 6 7] in
  let O := concatenateTransforms [toolStlToToolTransf coil; translation 1 2 3] in
  keysOfActor (_actors shownCoil) (Some 1) = ("coil" +:+ "_tool") :: [] ∧
  toolsLookup (tools (session env)) "coil" = Some coil ∧
  (("coil" +:+ "_tool") ∉ _currentlyMovingActors shownCoil) ∧
  toolToTrackerTransf coil = Some (translation 1 2 3) ∧
  invertible O ∧
  ∃ Oinv p',
    invertTransform O = Some Oinv ∧
    selectAndMoveTool env (Some 1) None (mkDrag Ws DragCompleted) shownCoil
      = (p', Returned tt) ∧
    sentCommands (_positionsClient p') =
      (sentCommands (_positionsClient shownCoil)
       ++ imap (λ i W, dragCommand env coil Oinv (clockReads shownCoil + i) W) Ws)%list ∧
    ("coil" +:+ "_tool") ∉ _currentlyMovingActors p'.
Proof.
  intros env Ws O.
  assert (H1 : keysOfActor (_actors shownCoil) (Some 1) = ("coil" +:+ "_tool") :: [])
    by (by vm_compute).
  assert (H2 : toolsLookup (tools (session env)) "coil" = Some coil) by reflexivity.
  assert (H3 : ("coil" +:+ "_tool") ∉ _currentlyMovingActors shownCoil)
    by (apply (bool_decide_unpack _); by vm_compute).
  assert (H4 : toolToTrackerTransf coil = Some (translation 1 2 3)) by reflexivity.
  assert (H5 : invertible O).
  { exists (translation (-1) (-2) (-8)). vm_compute. repeat split. }
  split; [exact H1|]. split; [exact H2|]. split; [exact H3|]. split; [exact H4|].
  split; [exact H5|].
  exact (selectAndMoveTool_tool_session env (Some 1) None Ws shownCoil "coil" [] coil
           (translation 1 2 3) O H1 H2 H3 H4 eq_refl H5).
Defined.

Lemma moving_key_is_never_released_witness :
  let env := envOf [coil] in
  let calls := [(env, CallOnToolsChanged [] None);
                (env, CallMoveTool (Some 1) None (mkDrag [] DragCompleted));
                (env, CallOnLatestPositionsChanged)] in
  "coil_tool" ∈ _currentlyMovingActors draggingClearedCoil ∧
  "coil_tool" ∈ _currentlyMovingActors (runAll calls draggingClearedCoil).
Proof.
  intros env calls.
  assert (H : "coil_tool" ∈ _currentlyMovingActors draggingClearedCoil)
    by (apply (bool_decide_unpack _); by vm_compute).
  split; [exact H|].
  exact (moving_key_is_never_released "coil_tool" calls draggingClearedCoil H).
Defined.

Lemma table_and_scene_stay_in_step_witness :
  let env := envOf [coil; activePointer] in
  let calls := [(env, CallZeroAllPositions);
                (env, CallOnLatestPositionsChanged);
                (envOf [coil], CallOnToolsChanged ["pointer"] None);
                (subjectEnv, CallOnLatestPositionsChanged)] in
  wellFormed freshPanel ∧ wellFormed (runAll calls freshPanel).
Proof.
  intros env calls.
  assert (H : wellFormed freshPanel) by (by apply wellFormed_no_actors).
  split; [exact H|].
  exact (table_and_scene_stay_in_step calls freshPanel H).
Defined.

Lemma only_tools_changed_replaces_actors_witness :
  let env := envOf [coil] in
  let recoloured := envOf [activePointer] in
  let calls := [(env, CallClearAllPositions);
                (recoloured, CallOnLatestPositionsChanged);
                (env, CallZeroAllPositions);
                (env, CallOnLatestPositionsChanged)] in
  Forall (λ ec, keepsActors ec.2) calls ∧
  keepsIdentity shownCoil (runAll calls shownCoil).
Proof.
  intros env recoloured calls.
  assert (H : Forall (λ ec : Env * Call, keepsActors ec.2) calls) by (repeat constructor).
  split; [exact H|].
  exact (only_tools_changed_replaces_actors calls shownCoil H).
Defined.

Lemma keysOfActor_of_table_actor_witness :
  let a := default (mkActor 0 "none" "none" "none" 0 false None) (_actors shownCoil !! "coil_tool") in
  wellFormed shownCoil ∧
  _actors shownCoil !! "coil_tool" = Some a ∧
  keysOfActor (_actors shownCoil) (Some (actorId a)) = ["coil_tool"].
Proof.
  intros a.
  assert (H1 : wellFormed shownCoil).
  { apply runAll_wellFormed. by apply wellFormed_no_actors. }
  assert (H2 : _actors shownCoil !! "coil_tool" = Some a) by (by vm_compute).
  split; [exact H1|]. split; [exact H2|].
  exact (keysOfActor_of_table_actor shownCoil "coil_tool" a H1 H2).
Defined.

Lemma refresh_shows_posed_mesh_witness :
  let env := envOf [coil] in
  let r := _onLatestPositionsChanged env zeroedCoil in
  let offset := matmul (translation 1 2 3) (translation 0 0 5) in
  r = (r.1, Returned tt) ∧
  latestPositions (_positionsClient r.1) !! trackerKey coil ≫= transf = Some eye4 ∧
  ∃ actor,
    _actors r.1 !! (("coil" +:+ "_") +:+ tag tool) = Some actor ∧
    displayedAt (concatenateTransforms [offset; eye4]) (surf tool coil)
      (default "#444444" (meshColor tool coil)) (default 1%Q (meshOpacity tool coil))
      (_actors zeroedCoil !! (("coil" +:+ "_") +:+ tag tool)) actor.
Proof.
  intros env r offset.
  assert (Hr : r = (r.1, Returned tt)) by (by vm_compute).
  assert (Hp : latestPositions (_positionsClient r.1) !! trackerKey coil ≫= transf = Some eye4)
    by (by vm_compute).
  split; [exact Hr|]. split; [exact Hp|].
  refine (refresh_shows_posed_mesh env zeroedCoil r.1 "coil" coil tool eye4 offset
            _ _ _ Hr eq_refl Hp eq_refl _ eq_refl _).
  - by left.
  - apply (bool_decide_unpack _). by vm_compute.
  - by left.
  - by eexists.
  - apply (bool_decide_unpack _). by vm_compute.
Defined.

Lemma refresh_hides_undrawable_mesh_witness :
  let env := envOf [coilMeshOff] in
  let r := _onLatestPositionsChanged env shownCoil in
  r = (r.1, Returned tt) ∧
  doRender tool coilMeshOff = false ∧
  visibility <$> (_actors shownCoil !! (("coil" +:+ "_") +:+ tag tool)) = Some true ∧
  visibility <$> (_actors r.1 !! (("coil" +:+ "_") +:+ tag tool)) = Some false ∧
  _actors r.1 !! (("coil" +:+ "_") +:+ tag tool)
    = setVisibility false <$> (_actors shownCoil !! (("coil" +:+ "_") +:+ tag tool)) ∧
  invisibleAt (("coil" +:+ "_") +:+ tag tool) r.1.
Proof.
  intros env r.
  assert (Hr : r = (r.1, Returned tt)) by (by vm_compute).
  split; [exact Hr|]. split; [reflexivity|].
  split; [by vm_compute|]. split; [by vm_compute|].
  refine (refresh_hides_undrawable_mesh env shownCoil r.1 "coil" coilMeshOff tool
            _ _ _ Hr _ _).
  - by left.
  - apply (bool_decide_unpack _). by vm_compute.
  - by left.
  - by left.
  - apply (bool_decide_unpack _). by vm_compute.
Defined.

Lemma refresh_shows_subject_surface_witness :
  let r := _onLatestPositionsChanged subjectEnv zeroedSubject in
  let MRIToTracker := default eye4 (invertTransform (translation 0 0 10)) in
  r = (r.1, Returned tt) ∧
  latestPositions (_positionsClient r.1) !! trackerKey headTracker ≫= transf = Some eye4 ∧
  invertTransform (translation 0 0 10) = Some MRIToTracker ∧
  ∃ actor,
    _actors r.1 !! (key headTracker +:+ "_subject") = Some actor ∧
    displayedAt (matmul eye4 MRIToTracker) "skinSurf" "#d9a5b2" (4 # 5)%Q
      (_actors zeroedSubject !! (key headTracker +:+ "_subject")) actor.
Proof.
  intros r MRIToTracker.
  assert (Hr : r = (r.1, Returned tt)) by (by vm_compute).
  assert (Hp : latestPositions (_positionsClient r.1) !! trackerKey headTracker ≫= transf = Some eye4)
    by (by vm_compute).
  assert (Hi : invertTransform (translation 0 0 10) = Some MRIToTracker) by (by vm_compute).
  split; [exact Hr|]. split; [exact Hp|]. split; [exact Hi|].
  refine (refresh_shows_subject_surface subjectEnv zeroedSubject r.1 headTracker eye4
            (translation 0 0 10) MRIToTracker "skinSurf"
            _ _ _ Hr eq_refl Hp eq_refl eq_refl Hi eq_refl _).
  - by left.
  - apply (bool_decide_unpack _). by vm_compute.
  - by left.
  - apply (bool_decide_unpack _). by vm_compute.
Defined.

Lemma refresh_raises_on_singular_registration_witness :
  let squash := mkMatrix4 (mkVec4 1 0 0 0) (mkVec4 0 1 0 0)
                          (mkVec4 0 0 0 0) (mkVec4 0 0 0 1) in
  trackerToMRITransf (session singularEnv) = Some squash ∧
  invertTransform squash = None ∧
  (_onLatestPositionsChanged singularEnv zeroedSubject).2 = Raised SingularMatrixError.
Proof.
  intros squash.
  assert (Hi : invertTransform squash = None) by (by vm_compute).
  split; [reflexivity|]. split; [exact Hi|].
  refine (refresh_raises_on_singular_registration singularEnv zeroedSubject headTracker squash
            _ _ _ eq_refl eq_refl _ eq_refl Hi _ _).
  - by left.
  - apply (bool_decide_unpack _). by vm_compute.
  - by left.
  - exists eye4. by vm_compute.
  - by eexists.
  - apply (bool_decide_unpack _). by vm_compute.
Defined.

Lemma onToolsChanged_without_actors_does_nothing_witness :
  let env := envOf [coil; activePointer] in
  (∀ k t, (k, t) ∈ tools (session env) →
     _actors zeroedCoil !! (k +:+ "_tracker") = None ∧
     _actors zeroedCoil !! (k +:+ "_tool") = None) ∧
  _onToolsChanged env ["pointer"] None zeroedCoil = (zeroedCoil, Returned tt).
Proof.
  intros env.
  assert (H : ∀ k t, (k, t) ∈ tools (session env) →
            _actors zeroedCoil !! (k +:+ "_tracker") = None ∧
            _actors zeroedCoil !! (k +:+ "_tool") = None).
  { intros k t _. split; apply lookup_empty. }
  split; [exact H|].
  exact (onToolsChanged_without_actors_does_nothing env ["pointer"] None zeroedCoil H).
Defined.

Lemma shown_tracker_mesh_dragged_in_place_witness :
  let r := _onLatestPositionsChanged subjectEnv zeroedSubject in
  let offset := translation 0 1 0 in
  r = (r.1, Returned tt) ∧
  latestPositions (_positionsClient r.1) !! trackerKey headTracker ≫= transf = Some eye4 ∧
  invertible offset ∧
  ∃ actor W committed,
    _actors r.1 !! ("head" +:+ "_tracker") = Some actor ∧
    userTransform actor = Some W ∧
    sentCommands (_positionsClient (onNewTransf subjectEnv ("head" +:+ "_tracker") headTracker W r.1).1) =
      (sentCommands (_positionsClient r.1) ++
       [mkCommand Sync (trackerKey headTracker)
          (mkTimestampedToolPosition (wallclock subjectEnv (clockReads r.1))
             (Some committed) None)])%list ∧
    meq committed eye4.
Proof.
  intros r offset.
  assert (Hr : r = (r.1, Returned tt)) by (by vm_compute).
  assert (Hp : latestPositions (_positionsClient r.1) !! trackerKey headTracker ≫= transf = Some eye4)
    by (by vm_compute).
  assert (Ho : invertible offset).
  { exists (translation 0 (-1) 0). vm_compute. repeat split. }
  split; [exact Hr|]. split; [exact Hp|]. split; [exact Ho|].
  refine (shown_tracker_mesh_dragged_in_place subjectEnv zeroedSubject r.1 "head" headTracker eye4
            offset _ _ _ Hr eq_refl Hp eq_refl _ eq_refl Ho _).
  - by left.
  - apply (bool_decide_unpack _). by vm_compute.
  - by left.
  - by eexists.
  - apply (bool_decide_unpack _). by vm_compute.
Defined.

Lemma mirrored_pose_is_restored_witness :
  let env := envOf [coil] in
  let p' := (_onLatestPositionsChanged env mixedPoses).1 in
  let q := withConfigPoses (λ _, configPoses p') freshPanel in
  let q' := (_onLatestPositionsChanged env q).1 in
  (restorePositions env mixedPoses).2 = Returned tt ∧
  "coil" ∈ trackerKeys env ∧
  latestPositions (_positionsClient p') !! "coil" ≫= transf = Some (translation 1 2 3) ∧
  ∃ i entry,
    toRestore q !! i = Some ("coil", entry) ∧
    poseTransf entry = Some (translation 1 2 3) ∧
    poseRelativeTo entry = configPoses mixedPoses !! "coil" ≫= poseRelativeTo ∧
    sentCommands (_positionsClient q') =
      (sentCommands (_positionsClient q)
       ++ imap (λ j kp, restoreCommand env (clockReads q + j) kp) (toRestore q))%list ∧
    sentCommands (_positionsClient q') !! (length (sentCommands (_positionsClient q)) + i) =
      Some (mkCommand Sync "coil"
              (mkTimestampedToolPosition (wallclock env (clockReads q + i))
                 (Some (translation 1 2 3))
                 (configPoses mixedPoses !! "coil" ≫= poseRelativeTo))) ∧
    ∃ time,
      latestPositions (_positionsClient q') !! "coil" =
        Some (mkTimestampedToolPosition time (Some (translation 1 2 3))
                (configPoses mixedPoses !! "coil" ≫= poseRelativeTo)).
Proof.
  intros env p' q q'.
  assert (H0 : (restorePositions env mixedPoses).2 = Returned tt) by (by vm_compute).
  assert (H1 : "coil" ∈ trackerKeys env) by (apply (bool_decide_unpack _); by vm_compute).
  assert (H2 : latestPositions (_positionsClient p') !! "coil" ≫= transf
               = Some (translation 1 2 3)) by (by vm_compute).
  split; [exact H0|]. split; [exact H1|]. split; [exact H2|].
  exact (mirrored_pose_is_restored env env mixedPoses q "coil" (translation 1 2 3)
           (or_intror H0) H1 H2 eq_refl eq_refl eq_refl).
Defined.

Lemma zero_all_then_refresh_shows_offsets_witness :
  let r := _onLatestPositionsChanged subjectEnv (zeroAllPositions subjectEnv freshPanel).1 in
  r = (r.1, Returned tt) ∧
  ¬ relative freshPanel (trackerKey headTracker) ∧
  ∃ actor T,
    _actors r.1 !! (("head" +:+ "_") +:+ tag tracker) = Some actor ∧
    visibility actor = true ∧
    userTransform actor = Some T ∧
    meq T (translation 0 1 0).
Proof.
  intros r.
  assert (Hr : r = (r.1, Returned tt)) by (by vm_compute).
  assert (Hn : ¬ relative freshPanel (trackerKey headTracker)).
  { intros (pos & other & H & _). vm_compute in H. discriminate. }
  split; [exact Hr|]. split; [exact Hn|].
  refine (zero_all_then_refresh_shows_offsets subjectEnv freshPanel r.1 "head" headTracker tracker
            (translation 0 1 0) _ _ _ Hr Hn eq_refl eq_refl _ eq_refl _).
  - by left.
  - apply (bool_decide_unpack _). by vm_compute.
  - by left.
  - by eexists.
  - apply (bool_decide_unpack _). by vm_compute.
Defined.

Lemma refresh_fails_only_on_singular_registration_witness :
  let r := _onLatestPositionsChanged singularEnv shownSubject in
  _hasRestoredPositions shownSubject = true ∧
  (r.2 = Returned tt ∨
   (r.2 = Raised SingularMatrixError ∧
    ∃ R, trackerToMRITransf (session singularEnv) = Some R ∧ invertTransform R = None ∧
         is_Some (skinSurf (session singularEnv)))).
Proof.
  intros r.
  assert (H : _hasRestoredPositions shownSubject = true) by (by vm_compute).
  split; [exact H|].
  exact (refresh_fails_only_on_singular_registration singularEnv shownSubject H).
Defined.

Lemma refresh_mirrors_cache_into_configuration_witness :
  let env := envOf [coil] in
  let p' := (_onLatestPositionsChanged env mixedPoses).1 in
  (restorePositions env mixedPoses).2 = Returned tt ∧
  configPoses p' !! "coil" =
    if decide ("coil" ∈ trackerKeys env) then
      mirrored "coil" (latestPositions (_positionsClient p') !! "coil" ≫= transf)
        (configPoses mixedPoses !! "coil")
    else configPoses mixedPoses !! "coil".
Proof.
  intros env p'.
  assert (H : (restorePositions env mixedPoses).2 = Returned tt) by (by vm_compute).
  split; [exact H|].
  exact (refresh_mirrors_cache_into_configuration env mixedPoses "coil" (or_intror H)).
Defined.


End MoreWitnesses.
